(** * political-party-kit: meeting minutes pipeline and dashboard renderer

    A shallow embedding of [political_party_kit/meeting_minutes/whisper_minutes.py]
    and [political_party_kit/dashboard/__init__.py], with the properties the
    specification states about them.

    - Strings are lists of code points; [strip], [split] and [join] follow
      Python's [str] methods.
    - Effectful code runs in a monad of state and exceptions over a [world]:
      a store of mutable objects (metadata records and their lists, reached
      through references), the console, the history of the file operations,
      the log of the calls made to the external services, and the clock.
    - What a file operation does is up to the operating system, and which
      strings a Word document takes is up to python-docx: both are parameters
      of the world, and every theorem holds whatever they answer.
    - The speech-to-text and text-generation services are functions handed in
      with the client.
    - The two [while True] loops take fuel; they read a line in every round
      and are shown never to use the fuel up. *)

From Stdlib Require Import ZArith NArith List Ascii String Lia Bool DecimalString.
From Stdlib Require QArith_base.
From stdpp Require Import base option list gmap strings.
Import ListNotations.

Set Default Proof Using "Type".
Local Open Scope N_scope.

(** ** Python strings

    A Python [str] is a sequence of Unicode code points; [len] counts code
    points.  Literals are written as in the source and decoded from the UTF-8
    bytes of the Rocq literal. *)

Abbreviation str := (list N).

Fixpoint utf8_decode (bs : list N) : str :=
  match bs with
  | [] => []
  | b :: r =>
      if b <? 128 then b :: utf8_decode r
      else if b <? 224 then
        match r with
        | b1 :: r' => ((b - 192) * 64 + (b1 - 128)) :: utf8_decode r'
        | [] => [b]
        end
      else if b <? 240 then
        match r with
        | b1 :: b2 :: r' =>
            ((b - 224) * 4096 + (b1 - 128) * 64 + (b2 - 128)) :: utf8_decode r'
        | _ => [b]
        end
      else
        match r with
        | b1 :: b2 :: b3 :: r' =>
            ((b - 240) * 262144 + (b1 - 128) * 4096 + (b2 - 128) * 64 + (b3 - 128))
              :: utf8_decode r'
        | _ => [b]
        end
  end.

Definition py (s : string) : str :=
  utf8_decode (map N_of_ascii (list_ascii_of_string s)).

(** The double quote, which a literal cannot hold. *)
Definition dq : str := [34].

Definition nl : N := 10.
Definition semicolon : N := 59.

Definition str_eqb (a b : str) : bool := bool_decide (a = b).

(** Truthiness of a string: [bool(s)]. *)
Definition truthy (s : str) : bool :=
  match s with [] => false | _ :: _ => true end.

(** [Py_UNICODE_ISSPACE]: the code points [str.strip()] removes. *)
Definition isspace (c : N) : bool :=
  ((9 <=? c) && (c <=? 13)) || ((28 <=? c) && (c <=? 32))
  || (c =? 133) || (c =? 160) || (c =? 5760)
  || ((8192 <=? c) && (c <=? 8202))
  || (c =? 8232) || (c =? 8233) || (c =? 8239) || (c =? 8287) || (c =? 12288).

Fixpoint lstrip_by (p : N -> bool) (s : str) : str :=
  match s with
  | [] => []
  | c :: r => if p c then lstrip_by p r else s
  end.

Definition rstrip_by (p : N -> bool) (s : str) : str :=
  rev (lstrip_by p (rev s)).

Definition strip_by (p : N -> bool) (s : str) : str :=
  rstrip_by p (lstrip_by p s).

(** [s.strip()] *)
Definition strip (s : str) : str := strip_by isspace s.

(** [s.lstrip(chars)] *)
Definition lstrip_chars (chars s : str) : str :=
  lstrip_by (fun c => existsb (N.eqb c) chars) s.

(** [s.split(sep)] for a one-character separator: at least one piece. *)
Fixpoint split (sep : N) (s : str) : list str :=
  match s with
  | [] => [[]]
  | c :: r =>
      if c =? sep then [] :: split sep r
      else match split sep r with
           | h :: t => (c :: h) :: t
           | [] => [[c]]
           end
  end.

(** [sep.join(items)] *)
Fixpoint join (sep : str) (items : list str) : str :=
  match items with
  | [] => []
  | [x] => x
  | x :: rest => x ++ sep ++ join sep rest
  end.

(** [s.startswith(p)], [s.endswith(p)], [s.count(c)] *)
Fixpoint startswith (s p : str) {struct p} : bool :=
  match p, s with
  | [], _ => true
  | _ :: _, [] => false
  | a :: p', b :: s' => (a =? b) && startswith s' p'
  end.

Definition endswith (s p : str) : bool := startswith (rev s) (rev p).

Definition count_char (c : N) (s : str) : nat :=
  length (filter (fun x => x = c) s).

(** [len(s)] as a Python integer. *)
Definition len (s : str) : Z := Z.of_nat (length s).

(** ** [parse_semicolon_list] *)

Definition parse_semicolon_list (value : str) : list str :=
  if negb (truthy value) then []
  else map strip (List.filter (fun item => truthy (strip item)) (split semicolon value)).

(** ** [chunk_text] *)

Definition paragraphs (text : str) : list str :=
  map strip (List.filter (fun p => truthy (strip p)) (split nl text)).

(** One iteration of the loop body over the state [(chunks, buffer)]. *)
Definition chunk_step (target_chars : Z) (st : list str * str) (paragraph : str)
  : list str * str :=
  let '(chunks, buffer) := st in
  let candidate :=
    if truthy buffer then strip (buffer ++ [nl] ++ paragraph) else paragraph in
  if (len candidate <=? target_chars)%Z then (chunks, candidate)
  else ((if truthy buffer then chunks ++ [buffer] else chunks), paragraph).

Definition chunk_loop (target_chars : Z) (ps : list str) (st : list str * str)
  : list str * str :=
  fold_left (chunk_step target_chars) ps st.

Definition chunk_text (text : str) (target_chars : Z) : list str :=
  if negb (truthy text) then []
  else
    let '(chunks, buffer) := chunk_loop target_chars (paragraphs text) ([], []) in
    if truthy buffer then chunks ++ [buffer] else chunks.

Definition default_target_chars : Z := 7000.


(** ** [MeetingMetadata]

    The dataclass, parameterised by what a list-typed field holds: the list
    itself (a snapshot of the record, [MeetingMetadata]) or a reference to a
    list object of the store (the record as Python keeps it, see below). *)

Record MeetingMetadata_ (L : Type) : Type := mkMeta {
  titel : str;
  datum : option str;
  ort : option str;
  startzeit : option str;
  endzeit : option str;
  moderation : option str;
  protokoll : option str;
  teilnehmer : L;
  gaeste : L;
  agenda : L;
  ziele : L;
  hinweise : L;
}.
Arguments mkMeta {L}.
Arguments titel {L}.
Arguments datum {L}.
Arguments ort {L}.
Arguments startzeit {L}.
Arguments endzeit {L}.
Arguments moderation {L}.
Arguments protokoll {L}.
Arguments teilnehmer {L}.
Arguments gaeste {L}.
Arguments agenda {L}.
Arguments ziele {L}.
Arguments hinweise {L}.

Abbreviation MeetingMetadata := (MeetingMetadata_ (list str)).

(** The dataclass defaults. *)
Definition default_metadata : MeetingMetadata :=
  mkMeta (py "Sitzungsprotokoll") None None None None None None [] [] [] [] [].

(** Truthiness of an [Optional[str]]. *)
Definition truthy_opt (o : option str) : bool :=
  match o with Some s => truthy s | None => false end.

(** [o or default] for an [Optional[str]] and a string default. *)
Definition or_str (o : option str) (default : str) : str :=
  match o with Some ((_ :: _) as s) => s | _ => default end.

(** [filter(None, [a, b])] *)
Definition filter_none (items : list (option str)) : list str :=
  omap (fun o => match o with Some ((_ :: _) as s) => Some s | _ => None end) items.

Definition human_join (items : list str) : str :=
  let clean :=
    map strip (List.filter (fun item => truthy item && truthy (strip item)) items) in
  join (py ", ") clean.

Definition time_slot {L} (m : MeetingMetadata_ L) : str :=
  join (py " - ") (filter_none [startzeit m; endzeit m]).

Definition bullet_lines (items : list str) : list str :=
  map (fun item => py "  - " ++ item) items.

Definition to_prompt_header (self : MeetingMetadata) : str :=
  let lines := [] in
  let lines := if truthy (titel self) then lines ++ [py "Titel: " ++ titel self] else lines in
  let lines :=
    if truthy_opt (datum self) then lines ++ [py "Datum: " ++ or_str (datum self) []]
    else lines in
  let slot := time_slot self in
  let lines := if truthy slot then lines ++ [py "Zeitfenster: " ++ slot] else lines in
  let lines :=
    if truthy_opt (ort self) then lines ++ [py "Ort: " ++ or_str (ort self) []] else lines in
  let lines :=
    if truthy_opt (moderation self)
    then lines ++ [py "Moderation: " ++ or_str (moderation self) []] else lines in
  let lines :=
    if truthy_opt (protokoll self)
    then lines ++ [py "Protokollführung: " ++ or_str (protokoll self) []] else lines in
  let lines :=
    match teilnehmer self with
    | [] => lines
    | _ => lines ++ [py "Teilnehmer: " ++ human_join (teilnehmer self)]
    end in
  let lines :=
    match gaeste self with
    | [] => lines
    | _ => lines ++ [py "Gäste: " ++ human_join (gaeste self)]
    end in
  let lines :=
    match ziele self with
    | [] => lines
    | _ => (lines ++ [py "Ziele:"]) ++ bullet_lines (ziele self)
    end in
  let lines :=
    match agenda self with
    | [] => lines
    | _ => (lines ++ [py "Tagesordnung:"]) ++ bullet_lines (agenda self)
    end in
  let lines :=
    match hinweise self with
    | [] => lines
    | _ => (lines ++ [py "Hinweise:"]) ++ bullet_lines (hinweise self)
    end in
  join [nl] lines.

Definition to_docx_header_fields (self : MeetingMetadata) : list str :=
  let entries := [] in
  let entries :=
    if truthy_opt (datum self) then entries ++ [py "Datum: " ++ or_str (datum self) []]
    else entries in
  let slot := time_slot self in
  let entries := if truthy slot then entries ++ [py "Zeitfenster: " ++ slot] else entries in
  let entries :=
    if truthy_opt (ort self) then entries ++ [py "Ort: " ++ or_str (ort self) []]
    else entries in
  let entries :=
    if truthy_opt (moderation self)
    then entries ++ [py "Moderation: " ++ or_str (moderation self) []] else entries in
  let entries :=
    if truthy_opt (protokoll self)
    then entries ++ [py "Protokoll: " ++ or_str (protokoll self) []] else entries in
  let entries :=
    match teilnehmer self with
    | [] => entries
    | _ => entries ++ [py "Teilnehmer: " ++ human_join (teilnehmer self)]
    end in
  let entries :=
    match gaeste self with
    | [] => entries
    | _ => entries ++ [py "Gäste: " ++ human_join (gaeste self)]
    end in
  entries.

(** *** Dictionaries: [to_dict] and [from_dict]

    The values a payload holds under the twelve keys. *)

Inductive pyval : Type :=
| PNone
| PStr (s : str)
| PList (items : list str).

Definition truthy_val (v : pyval) : bool :=
  match v with
  | PNone => false
  | PStr s => truthy s
  | PList items => match items with [] => false | _ => true end
  end.

Definition of_opt (o : option str) : pyval :=
  match o with Some s => PStr s | None => PNone end.

Definition to_dict (self : MeetingMetadata) : gmap string pyval :=
  list_to_map
    [ ("titel"%string, PStr (titel self));
      ("datum"%string, of_opt (datum self));
      ("ort"%string, of_opt (ort self));
      ("startzeit"%string, of_opt (startzeit self));
      ("endzeit"%string, of_opt (endzeit self));
      ("moderation"%string, of_opt (moderation self));
      ("protokoll"%string, of_opt (protokoll self));
      ("teilnehmer"%string, PList (teilnehmer self));
      ("gaeste"%string, PList (gaeste self));
      ("agenda"%string, PList (agenda self));
      ("ziele"%string, PList (ziele self));
      ("hinweise"%string, PList (hinweise self)) ].

(** [payload.get(key, default)] *)
Definition dict_get (payload : gmap string pyval) (key : string) (dflt : pyval) : pyval :=
  default dflt (payload !! key).

(** [v or None] *)
Definition or_none (v : pyval) : pyval := if truthy_val v then v else PNone.

(** [list(v or [])]: a falsy value gives the empty list, a list its items, and
    a non-empty string is iterated character by character. *)
Definition list_or_empty (v : pyval) : list str :=
  match v with
  | PList items => items
  | PStr s => map (fun c => [c]) s
  | PNone => []
  end.

(** The dataclass does not check the types of its fields: the object
    [from_dict] builds holds under the text fields whatever the payload holds
    there, a string, [None] or a list. *)
Record UncheckedMetadata : Type := mkUnchecked {
  held_titel : pyval;
  held_datum : pyval;
  held_ort : pyval;
  held_startzeit : pyval;
  held_endzeit : pyval;
  held_moderation : pyval;
  held_protokoll : pyval;
  held_teilnehmer : list str;
  held_gaeste : list str;
  held_agenda : list str;
  held_ziele : list str;
  held_hinweise : list str;
}.

(** A record whose fields have the declared types, as such an object. *)
Definition unchecked (m : MeetingMetadata) : UncheckedMetadata :=
  mkUnchecked (PStr (titel m)) (of_opt (datum m)) (of_opt (ort m)) (of_opt (startzeit m))
              (of_opt (endzeit m)) (of_opt (moderation m)) (of_opt (protokoll m))
              (teilnehmer m) (gaeste m) (agenda m) (ziele m) (hinweise m).

Definition from_dict (payload : gmap string pyval) : UncheckedMetadata :=
  mkUnchecked
    (dict_get payload "titel" (PStr (py "Sitzungsprotokoll")))
    (or_none (dict_get payload "datum" PNone))
    (or_none (dict_get payload "ort" PNone))
    (or_none (dict_get payload "startzeit" PNone))
    (or_none (dict_get payload "endzeit" PNone))
    (or_none (dict_get payload "moderation" PNone))
    (or_none (dict_get payload "protokoll" PNone))
    (list_or_empty (dict_get payload "teilnehmer" (PList [])))
    (list_or_empty (dict_get payload "gaeste" (PList [])))
    (list_or_empty (dict_get payload "agenda" (PList [])))
    (list_or_empty (dict_get payload "ziele" (PList [])))
    (list_or_empty (dict_get payload "hinweise" (PList []))).

(** ** The store, the console, the file operations and the external services

    Python keeps a [MeetingMetadata] and each of its lists as mutable objects
    that variables refer to.  The store maps references to objects; an
    assignment [meta.titel = v] updates the record object in place. *)

Definition loc := nat.

Inductive obj : Type :=
| OList (items : list str)
| OMeta (m : MeetingMetadata_ loc).

(** A Word document as the program asks python-docx to build it: paragraphs
    made of runs.  [run_text] is the string given to [add_run] or
    [add_paragraph]; what python-docx makes of it (a tab becomes a tab
    element, a carriage return or a newline a line break) is not modelled. *)
Inductive alignment : Type := AlignCenter | AlignRight.

Record run : Type := mkRun {
  run_text : str;
  run_bold : bool;
  run_size : option N;
}.

Record paragraph : Type := mkPar {
  par_runs : list run;
  par_style : option str;
  par_alignment : option alignment;
}.

(** What a file holds. *)
Inductive blob : Type :=
| Raw (bytes : list N)
| Text (s : str)
| Docx (body : list paragraph).

(** Paths as the program builds them.  What file a path names is the business
    of the operating system. *)
Inductive path : Type :=
| PathStr (s : str)                  (* a string handed on as it is *)
| Path (s : str)                     (* pathlib: [Path(s)] *)
| PathDiv (dir : path) (name : str). (* pathlib: [dir / name] *)

(** The exceptions of a file operation: the [OSError] subclasses, and any other
    exception by its name (a [UnicodeEncodeError] of [write_text], say). *)
Inductive io_error : Type :=
| ENOENT     (* FileNotFoundError *)
| EISDIR     (* IsADirectoryError *)
| ENOTDIR    (* NotADirectoryError *)
| EACCES     (* PermissionError *)
| EEXIST     (* FileExistsError *)
| EOTHER (name : str).

Inductive answer (A : Type) : Type :=
| Done (a : A)
| Failed (e : io_error).
Arguments Done {A}.
Arguments Failed {A}.

(** The file operations of the program, each with the answer it got. *)
Inductive io_event : Type :=
| IoExists (p : path) (r : answer bool)            (* [p.exists()] *)
| IoRead (p : path) (r : answer blob)              (* [p.open("rb")] and reading it *)
| IoWrite (p : path) (content : blob) (r : answer unit)
    (* [p.write_text(s, encoding="utf-8")], [document.save(p)] *)
| IoMkdir (p : path) (r : answer unit).            (* [p.mkdir(parents=True, exist_ok=True)] *)

(** The world outside the program: the operating system answers a file
    operation as it sees fit, given the operations so far; python-docx accepts
    a string as the text of a run or raises [ValueError] (lxml: a string must
    be XML compatible). *)
Record environment : Type := mkEnv {
  os_exists : list io_event -> path -> answer bool;
  os_read : list io_event -> path -> answer blob;
  os_write : list io_event -> path -> blob -> answer unit;
  os_mkdir : list io_event -> path -> answer unit;
  xml_ok : str -> bool;
}.

(** The two services behind the [OpenAI] client, as capability interfaces
    with deterministic stand-ins. *)
Record chat_message : Type := mkMsg { role : str; content : str }.

Record chat_request : Type := mkChat {
  chat_model : str;
  chat_messages : list chat_message;
  chat_temperature : QArith_base.Q;
}.

Record transcription_request : Type := mkTranscription {
  tr_model : str;
  tr_file : blob;
  tr_language : str;
  tr_response_format : str;
}.

(** What [transcriptions.create] hands back: a plain string, or an object that
    may carry a [text] attribute and has a [str()] rendering. *)
Inductive transcription : Type :=
| TrStr (s : str)
| TrObj (text_attr : option str) (rendering : str).

Record OpenAI : Type := mkClient {
  transcriptions_create : transcription_request -> transcription;
  (** [response.choices[0].message.content] of [chat.completions.create] *)
  chat_completions_create : chat_request -> str;
}.

Inductive call : Type :=
| CallTranscription (r : transcription_request)
| CallChat (r : chat_request).

Inductive exn : Type :=
| FileNotFoundError (msg : str)   (* [raise FileNotFoundError(msg)] in the program *)
| IOFailed (e : io_error)         (* raised by a file operation *)
| ValueError                      (* raised by python-docx *)
| Exit (stderr : str) (code : Z)  (* [SystemExit(code)], after the message on stderr *)
| EOFError
| TypeError
| OutOfFuel.

Record world : Type := mkWorld {
  heap : list obj;
  stdin : list str;
  stdout : str;
  (** the file operations so far, oldest first *)
  io : list io_event;
  calls : list call;
  (** [datetime.now()] rendered with ["%Y-%m-%d"] and ["%Y-%m-%d %H:%M"]; the
      clock stands still during a run. *)
  now_date : str;
  now_minute : str;
  env : environment;
}.

Definition with_heap (h : list obj) (w : world) : world :=
  mkWorld h (stdin w) (stdout w) (io w) (calls w) (now_date w) (now_minute w) (env w).
Definition with_stdin (i : list str) (w : world) : world :=
  mkWorld (heap w) i (stdout w) (io w) (calls w) (now_date w) (now_minute w) (env w).
Definition with_stdout (o : str) (w : world) : world :=
  mkWorld (heap w) (stdin w) o (io w) (calls w) (now_date w) (now_minute w) (env w).
Definition with_io (h : list io_event) (w : world) : world :=
  mkWorld (heap w) (stdin w) (stdout w) h (calls w) (now_date w) (now_minute w) (env w).
Definition with_calls (c : list call) (w : world) : world :=
  mkWorld (heap w) (stdin w) (stdout w) (io w) c (now_date w) (now_minute w) (env w).

(** *** The monad: state and exceptions *)

Inductive result (A : Type) : Type :=
| Ok (a : A)
| Raise (e : exn).
Arguments Ok {A}.
Arguments Raise {A}.

Definition M (A : Type) : Type := world -> result A * world.

#[global] Instance M_ret : MRet M := fun A a w => (Ok a, w).

#[global] Instance M_bind : MBind M := fun A B f m w =>
  match m w with
  | (Ok a, w') => f a w'
  | (Raise e, w') => (Raise e, w')
  end.

Definition raise {A} (e : exn) : M A := fun w => (Raise e, w).
Definition gets {A} (f : world -> A) : M A := fun w => (Ok (f w), w).
Definition modify (f : world -> world) : M unit := fun w => (Ok tt, f w).
Definition when_ (b : bool) (m : M unit) : M unit := if b then m else mret tt.

(** *** Objects *)

Definition alloc (o : obj) : M loc := fun w =>
  (Ok (length (heap w)), with_heap (heap w ++ [o]) w).

Definition load_list (l : loc) : M (list str) := fun w =>
  match heap w !! l with
  | Some (OList items) => (Ok items, w)
  | _ => (Raise TypeError, w)
  end.

Definition load_meta (l : loc) : M (MeetingMetadata_ loc) := fun w =>
  match heap w !! l with
  | Some (OMeta m) => (Ok m, w)
  | _ => (Raise TypeError, w)
  end.

Definition store (l : loc) (o : obj) : M unit :=
  modify (fun w => with_heap (<[l := o]> (heap w)) w).

(** [entries.append(value)] *)
Definition list_append (l : loc) (value : str) : M unit :=
  items ← load_list l; store l (OList (items ++ [value])).

(** [meta.field = value] *)
Definition update_meta (l : loc) (f : MeetingMetadata_ loc -> MeetingMetadata_ loc)
  : M unit :=
  m ← load_meta l; store l (OMeta (f m)).

Section Setters.
Context {L : Type}.
Definition set_titel (v : str) (m : MeetingMetadata_ L) :=
  mkMeta v (datum m) (ort m) (startzeit m) (endzeit m) (moderation m) (protokoll m)
         (teilnehmer m) (gaeste m) (agenda m) (ziele m) (hinweise m).
Definition set_datum (v : option str) (m : MeetingMetadata_ L) :=
  mkMeta (titel m) v (ort m) (startzeit m) (endzeit m) (moderation m) (protokoll m)
         (teilnehmer m) (gaeste m) (agenda m) (ziele m) (hinweise m).
Definition set_ort (v : option str) (m : MeetingMetadata_ L) :=
  mkMeta (titel m) (datum m) v (startzeit m) (endzeit m) (moderation m) (protokoll m)
         (teilnehmer m) (gaeste m) (agenda m) (ziele m) (hinweise m).
Definition set_startzeit (v : option str) (m : MeetingMetadata_ L) :=
  mkMeta (titel m) (datum m) (ort m) v (endzeit m) (moderation m) (protokoll m)
         (teilnehmer m) (gaeste m) (agenda m) (ziele m) (hinweise m).
Definition set_endzeit (v : option str) (m : MeetingMetadata_ L) :=
  mkMeta (titel m) (datum m) (ort m) (startzeit m) v (moderation m) (protokoll m)
         (teilnehmer m) (gaeste m) (agenda m) (ziele m) (hinweise m).
Definition set_moderation (v : option str) (m : MeetingMetadata_ L) :=
  mkMeta (titel m) (datum m) (ort m) (startzeit m) (endzeit m) v (protokoll m)
         (teilnehmer m) (gaeste m) (agenda m) (ziele m) (hinweise m).
Definition set_protokoll (v : option str) (m : MeetingMetadata_ L) :=
  mkMeta (titel m) (datum m) (ort m) (startzeit m) (endzeit m) (moderation m) v
         (teilnehmer m) (gaeste m) (agenda m) (ziele m) (hinweise m).
Definition set_teilnehmer (v : L) (m : MeetingMetadata_ L) :=
  mkMeta (titel m) (datum m) (ort m) (startzeit m) (endzeit m) (moderation m) (protokoll m)
         v (gaeste m) (agenda m) (ziele m) (hinweise m).
Definition set_gaeste (v : L) (m : MeetingMetadata_ L) :=
  mkMeta (titel m) (datum m) (ort m) (startzeit m) (endzeit m) (moderation m) (protokoll m)
         (teilnehmer m) v (agenda m) (ziele m) (hinweise m).
Definition set_agenda (v : L) (m : MeetingMetadata_ L) :=
  mkMeta (titel m) (datum m) (ort m) (startzeit m) (endzeit m) (moderation m) (protokoll m)
         (teilnehmer m) (gaeste m) v (ziele m) (hinweise m).
Definition set_ziele (v : L) (m : MeetingMetadata_ L) :=
  mkMeta (titel m) (datum m) (ort m) (startzeit m) (endzeit m) (moderation m) (protokoll m)
         (teilnehmer m) (gaeste m) (agenda m) v (hinweise m).
Definition set_hinweise (v : L) (m : MeetingMetadata_ L) :=
  mkMeta (titel m) (datum m) (ort m) (startzeit m) (endzeit m) (moderation m) (protokoll m)
         (teilnehmer m) (gaeste m) (agenda m) (ziele m) v.
End Setters.

(** The record a reference stands for, its lists read out of the store. *)
Definition snapshot (h : list obj) (l : loc) : option MeetingMetadata :=
  match h !! l with
  | Some (OMeta m) =>
      let list_at r := match h !! r with Some (OList items) => Some items | _ => None end in
      te ← list_at (teilnehmer m);
      ga ← list_at (gaeste m);
      ag ← list_at (agenda m);
      zi ← list_at (ziele m);
      hi ← list_at (hinweise m);
      Some (mkMeta (titel m) (datum m) (ort m) (startzeit m) (endzeit m) (moderation m)
                   (protokoll m) te ga ag zi hi)
  | _ => None
  end.

Definition read_metadata (l : loc) : M MeetingMetadata := fun w =>
  match snapshot (heap w) l with
  | Some m => (Ok m, w)
  | None => (Raise TypeError, w)
  end.

(** [copy.deepcopy]: every list reachable from the record is copied once (the
    memo keeps two fields that share a list sharing the copy); strings and
    [None] are atomic. *)
Definition deepcopy_list (memo : list (loc * loc)) (l : loc) : M (loc * list (loc * loc)) :=
  match List.find (fun e => Nat.eqb (fst e) l) memo with
  | Some e => mret (snd e, memo)
  | None => items ← load_list l; l' ← alloc (OList items); mret (l', (l, l') :: memo)
  end.

Definition deepcopy (x : loc) : M loc :=
  m ← load_meta x;
  '(te, memo) ← deepcopy_list [] (teilnehmer m);
  '(ga, memo) ← deepcopy_list memo (gaeste m);
  '(ag, memo) ← deepcopy_list memo (agenda m);
  '(zi, memo) ← deepcopy_list memo (ziele m);
  '(hi, memo) ← deepcopy_list memo (hinweise m);
  alloc (OMeta (mkMeta (titel m) (datum m) (ort m) (startzeit m) (endzeit m)
                       (moderation m) (protokoll m) te ga ag zi hi)).

(** *** Console *)

(** [print(s)] *)
Definition print (s : str) : M unit :=
  modify (fun w => with_stdout (stdout w ++ s ++ [nl]) w).

(** [input(prompt)]: the prompt is written, one line is read; [EOFError] at the
    end of the input. *)
Definition input (prompt : str) : M str := fun w =>
  let w := with_stdout (stdout w ++ prompt) w in
  match stdin w with
  | line :: rest => (Ok line, with_stdin rest w)
  | [] => (Raise EOFError, w)
  end.

(** *** Files *)

(** A file operation: the operating system is asked, the operation and its
    answer go on record, a failure is raised. *)
Definition io_step {A} (ask : environment -> list io_event -> answer A)
    (event : answer A -> io_event) : M A := fun w =>
  let r := ask (env w) (io w) in
  let w' := with_io (io w ++ [event r]) w in
  match r with
  | Done a => (Ok a, w')
  | Failed e => (Raise (IOFailed e), w')
  end.

(** [p.exists()] *)
Definition path_exists (p : path) : M bool :=
  io_step (fun e h => os_exists e h p) (IoExists p).

(** [p.open("rb")] and reading the handle *)
Definition open_rb (p : path) : M blob :=
  io_step (fun e h => os_read e h p) (IoRead p).

(** Writing a whole file ([write_text], [document.save]) *)
Definition write_file (p : path) (content : blob) : M unit :=
  io_step (fun e h => os_write e h p content) (IoWrite p content).

(** [p.mkdir(parents=True, exist_ok=True)] *)
Definition mkdir (p : path) : M unit :=
  io_step (fun e h => os_mkdir e h p) (IoMkdir p).

(** *** Services *)

Definition log_call (c : call) : M unit :=
  modify (fun w => with_calls (calls w ++ [c]) w).

(** ** The pipeline of [whisper_minutes.py] *)

(** [str(n)] and [f"{n:02d}"] *)
Definition dec (n : nat) : str := py (NilZero.string_of_uint (Nat.to_uint n)).
Definition dec02 (n : nat) : str :=
  let d := dec n in if (length d <? 2)%nat then py "0" ++ d else d.

(** *** [transcribe_audio] *)

Definition transcription_text (t : transcription) : str :=
  match t with
  | TrStr s => s
  | TrObj (Some text) _ => text
  | TrObj None rendering => rendering
  end.

Definition transcribe_audio (client : OpenAI) (audio_path language_hint : str) : M str :=
  let path := Path audio_path in
  found ← path_exists path;
  if negb found then
    raise (FileNotFoundError (py "Audiodatei nicht gefunden: " ++ audio_path))
  else
    handle ← open_rb path;
    let request := mkTranscription (py "whisper-1") handle language_hint (py "text") in
    log_call (CallTranscription request);;
    mret (transcription_text (transcriptions_create client request)).

(** *** [summarize_chunk] and [consolidate_summaries] *)

Definition temperature : QArith_base.Q := QArith_base.Qmake 2 10.

Definition chat (client : OpenAI) (system_prompt user_prompt : str) : M str :=
  let request :=
    mkChat (py "gpt-4o-mini")
           [mkMsg (py "system") system_prompt; mkMsg (py "user") user_prompt]
           temperature in
  log_call (CallChat request);;
  mret (strip (chat_completions_create client request)).

Definition summarize_system_prompt : str :=
  py "Du bist ein Assistent, der deutsche Sitzungsprotokolle erstellt. "
  ++ py "Fasse den folgenden Text klar, präzise und sachlich zusammen. "
  ++ py "Nenne relevante Themen, Argumente, Entscheidungen und Aufgaben mit Zuständigkeiten, wenn erkennbar.".

Definition summarize_chunk (client : OpenAI) (text : str) : M str :=
  let user_prompt := py "Textauszug:" ++ [nl; nl] ++ text in
  chat client summarize_system_prompt user_prompt.

Definition consolidate_system_prompt : str :=
  py "Erstelle ein vollständiges, gut strukturiertes deutsches Sitzungsprotokoll aus den Teilzusammenfassungen. "
  ++ py "Gliedere in: 1) Teilnehmer 2) Agenda/Themenblöcke 3) Diskussion (kurz) 4) Beschlüsse 5) Aufgaben & Zuständigkeiten 6) Nächste Schritte. "
  ++ py "Arbeite stichpunktorientiert, aber vollständig; vermeide irrelevante Details. "
  ++ py "Nutze neutrale, präzise Sprache und konsistente Formatierung.".

Definition consolidate_user_prompt (summaries : list str) (meta : MeetingMetadata) : str :=
  to_prompt_header meta ++ [nl; nl] ++ py "Teilzusammenfassungen:" ++ [nl; nl]
  ++ join [nl; nl] summaries.

Definition consolidate_summaries (client : OpenAI) (summaries : list str) (meta : loc)
  : M str :=
  m ← read_metadata meta;
  chat client consolidate_system_prompt (consolidate_user_prompt summaries m).

(** *** [build_docx] *)

(** [document.add_paragraph(text, style)]: a run is added only for a non-empty
    text. *)
Definition add_paragraph (text : str) (style : option str) : paragraph :=
  mkPar (if truthy text then [mkRun text false None] else []) style None.

(** [add_section_heading] *)
Definition section_heading (value : str) : paragraph :=
  mkPar [mkRun value true (Some 12)] None None.

Definition hash : N := 35.

Definition is_heading (stripped : str) : bool :=
  existsb (startswith stripped) [py "#"; py "##"; py "###"].

Definition is_label (stripped : str) : bool :=
  endswith stripped (py ":") && (len stripped <? 120)%Z.

Definition is_bullet (stripped : str) : bool :=
  existsb (startswith stripped) [py "-"; py "*"; py "•"].

(** The body of the loop over [text.split("\n")]: the paragraph one line adds. *)
Definition body_paragraph (line : str) : paragraph :=
  let stripped := strip line in
  if is_heading stripped then
    let level := count_char hash stripped in
    mkPar [mkRun (strip (lstrip_chars (py "#") stripped)) true
                 (Some (if Nat.eqb level 1 then 14 else 12))] None None
  else if is_label stripped then
    mkPar [mkRun stripped true None] None None
  else if is_bullet stripped then
    add_paragraph (strip (lstrip_chars (py "-*• ") stripped)) (Some (py "List Bullet"))
  else
    add_paragraph line None.

Definition list_section (heading : str) (style : str) (items : list str) : list paragraph :=
  match items with
  | [] => []
  | _ => [section_heading heading]
         ++ map (fun entry => add_paragraph entry (Some style)) items
         ++ [add_paragraph [] None]
  end.

Definition docx_front (meta : MeetingMetadata) : list paragraph :=
  let title := if truthy (titel meta) then titel meta else py "Sitzungsprotokoll" in
  let document := [mkPar [mkRun title true (Some 20)] None (Some AlignCenter)] in
  let sub_entries := to_docx_header_fields meta in
  let document :=
    match sub_entries with
    | [] => document
    | _ => document ++ [mkPar (par_runs (add_paragraph (join (py "  |  ") sub_entries) None))
                              None (Some AlignCenter)]
    end in
  let document := document ++ [add_paragraph [] None] in
  let document := document ++ list_section (py "Tagesordnung") (py "List Number") (agenda meta) in
  let document := document ++ list_section (py "Sitzungsziele") (py "List Bullet") (ziele meta) in
  document ++ list_section (py "Besondere Hinweise") (py "List Bullet") (hinweise meta).

Definition docx_back (stamp : str) : list paragraph :=
  [add_paragraph [] None;
   mkPar (par_runs (add_paragraph (py "Erstellt am " ++ stamp) None)) None (Some AlignRight)].

Definition docx_document (text : str) (meta : MeetingMetadata) (stamp : str)
  : list paragraph :=
  docx_front meta ++ map body_paragraph (split nl text) ++ docx_back stamp.

(** python-docx takes the text of every run, or raises [ValueError] at the
    first it does not accept. *)
Definition docx_accepted (ok : str -> bool) (document : list paragraph) : bool :=
  forallb (fun p => forallb (fun r => ok (run_text r)) (par_runs p)) document.

Definition build_docx (text out_path : str) (meta : loc) : M unit :=
  m ← read_metadata meta;
  stamp ← gets now_minute;
  ok ← gets (fun w => xml_ok (env w));
  let document := docx_document text m stamp in
  if docx_accepted ok document then write_file (PathStr out_path) (Docx document)
  else raise ValueError.

(** *** Interactive prompts *)

Definition prompt_with_default (prompt dflt : str) : M str :=
  let hint := if truthy dflt then py " [" ++ dflt ++ py "]" else [] in
  value ← input (prompt ++ hint ++ py ": ");
  let value := strip value in
  mret (if truthy value then value else dflt).

(** [for idx, item in enumerate(items, start): print(f"    {idx}. {item}")] *)
Fixpoint print_numbered (idx : nat) (items : list str) : M unit :=
  match items with
  | [] => mret tt
  | item :: rest =>
      print (py "    " ++ dec idx ++ py ". " ++ item);;
      print_numbered (S idx) rest
  end.

(** The [while True] loop of [prompt_list].  Every round reads a line, so the
    loop ends, at the latest with [EOFError]; the fuel is never used up when it
    exceeds the number of lines left. *)
Fixpoint read_entries (fuel : nat) (entries : loc) (counter : nat) : M unit :=
  match fuel with
  | O => raise OutOfFuel
  | S fuel' =>
      value ← input (py "    " ++ dec counter ++ py ". ");
      let value := strip value in
      if negb (truthy value) then mret tt
      else list_append entries value;; read_entries fuel' entries (S counter)
  end.

Definition prompt_list (prompt : str) (dflt : loc) : M loc :=
  print (prompt ++ py ":");;
  current ← load_list dflt;
  when_ (match current with [] => false | _ => true end)
        (print (py "  (Aktuell hinterlegt:)");; print_numbered 1 current);;
  print (py "  Geben Sie pro Zeile einen neuen Eintrag ein. Leer lassen, um Eingabe zu beenden und ggf. bestehende Werte zu übernehmen.");;
  entries ← alloc (OList []);
  fuel ← gets (fun w => S (length (stdin w)));
  read_entries fuel entries 1;;
  collected ← load_list entries;
  mret (match collected with [] => dflt | _ => entries end).

(** [s.lower()], compared below with ASCII words only: a code point outside
    [A-Z] never lower-cases to one of their letters, so mapping [A-Z] alone
    decides the comparison as Python does. *)
Definition lower (s : str) : str :=
  map (fun c => if (65 <=? c) && (c <=? 90) then c + 32 else c) s.

Definition affirmative : list str := [[]; py "j"; py "ja"; py "y"; py "yes"].

(** One round of the input mask; [true] when the user confirms. *)
Definition collect_round (meta : loc) : M bool :=
  print ([nl] ++ py "=== Eingabemaske für Sitzungsbeginn ===");;
  m ← load_meta meta;
  v ← prompt_with_default (py "Sitzungstitel")
        (if truthy (titel m) then titel m else py "Sitzungsprotokoll");
  update_meta meta (set_titel v);;
  m ← load_meta meta;
  today ← gets now_date;
  v ← prompt_with_default (py "Datum (z. B. 2025-10-01)") (or_str (datum m) today);
  update_meta meta (set_datum (Some v));;
  m ← load_meta meta;
  v ← prompt_with_default (py "Geplanter Beginn (HH:MM)") (or_str (startzeit m) []);
  update_meta meta (set_startzeit (Some v));;
  m ← load_meta meta;
  v ← prompt_with_default (py "Geplantes Ende (HH:MM)") (or_str (endzeit m) []);
  update_meta meta (set_endzeit (Some v));;
  m ← load_meta meta;
  v ← prompt_with_default (py "Ort") (or_str (ort m) []);
  update_meta meta (set_ort (Some v));;
  m ← load_meta meta;
  v ← prompt_with_default (py "Leitung/Moderation") (or_str (moderation m) []);
  update_meta meta (set_moderation (Some v));;
  m ← load_meta meta;
  v ← prompt_with_default (py "Protokollführung") (or_str (protokoll m) []);
  update_meta meta (set_protokoll (Some v));;
  m ← load_meta meta;
  r ← prompt_list (py "Teilnehmer*innen") (teilnehmer m);
  update_meta meta (set_teilnehmer r);;
  m ← load_meta meta;
  r ← prompt_list (py "Gäste") (gaeste m);
  update_meta meta (set_gaeste r);;
  m ← load_meta meta;
  r ← prompt_list (py "Tagesordnungspunkte") (agenda m);
  update_meta meta (set_agenda r);;
  m ← load_meta meta;
  r ← prompt_list (py "Sitzungsziele") (ziele m);
  update_meta meta (set_ziele r);;
  m ← load_meta meta;
  r ← prompt_list (py "Besondere Hinweise") (hinweise m);
  update_meta meta (set_hinweise r);;
  print ([nl] ++ py "Zusammenfassung der Angaben:");;
  s ← read_metadata meta;
  print (py "  Titel: " ++ titel s);;
  print (py "  Datum: " ++ or_str (datum s) []);;
  print (py "  Zeitfenster: " ++ time_slot s);;
  print (py "  Ort: " ++ or_str (ort s) []);;
  print (py "  Moderation: " ++ or_str (moderation s) []);;
  print (py "  Protokollführung: " ++ or_str (protokoll s) []);;
  print (py "  Teilnehmer*innen: " ++ human_join (teilnehmer s));;
  print (py "  Gäste: " ++ human_join (gaeste s));;
  print (py "  Ziele: " ++ human_join (ziele s));;
  print (py "  Hinweise: " ++ human_join (hinweise s));;
  when_ (match agenda s with [] => false | _ => true end)
        (print (py "  Tagesordnung:");; print_numbered 1 (agenda s));;
  answer ← input ([nl] ++ py "Sind die Angaben korrekt? (J/n): ");
  let confirm := lower (strip answer) in
  mret (existsb (str_eqb confirm) affirmative).

(** The [while True] loop of [collect_meeting_metadata]; every round reads at
    least one line. *)
Fixpoint collect_loop (fuel : nat) (meta : loc) : M loc :=
  match fuel with
  | O => raise OutOfFuel
  | S fuel' =>
      confirmed ← collect_round meta;
      if (confirmed : bool) return M loc then mret meta
      else print ([nl] ++ py "Bitte Eingaben erneut vornehmen." ++ [nl]);;
           collect_loop fuel' meta
  end.

Definition collect_meeting_metadata (base_meta : loc) : M loc :=
  meta ← deepcopy base_meta;
  fuel ← gets (fun w => S (length (stdin w)));
  collect_loop fuel meta.

(** *** [MeetingMinutesGenerator.generate] *)

(** The loop over [enumerate(chunks, start=1)]. *)
Fixpoint summarize_chunks (client : OpenAI) (partial_dir : option path) (index : nat)
    (chunks : list str) (partial_summaries : list str) : M (list str) :=
  match chunks with
  | [] => mret partial_summaries
  | chunk :: rest =>
      summary ← summarize_chunk client chunk;
      let partial_summaries := partial_summaries ++ [summary] in
      match partial_dir with
      | Some d => write_file (PathDiv d (py "teil_" ++ dec02 index ++ py ".md")) (Text summary)
      | None => mret tt
      end;;
      summarize_chunks client partial_dir (S index) rest partial_summaries
  end.

(** Lines 427 to 450: what [generate] does with the stripped transcript. *)
Definition minutes_from_transcript (client : OpenAI) (transcript output_path : str)
    (meta : loc) (save_transcript save_partials : option str) : M str :=
  when_ (truthy_opt save_transcript)
        (write_file (Path (or_str save_transcript [])) (Text transcript));;
  let chunks := chunk_text transcript 7000 in
  partial_summaries ←
    match chunks with
    | [] => mret []
    | _ =>
        let partial_dir :=
          if truthy_opt save_partials then Some (Path (or_str save_partials [])) else None in
        match partial_dir with
        | Some d => found ← path_exists d; when_ (negb found) (mkdir d)
        | None => mret tt
        end;;
        summarize_chunks client partial_dir 1 chunks []
    end;
  final_minutes ←
    match partial_summaries with
    | [] => consolidate_summaries client [transcript] meta
    | _ => consolidate_summaries client partial_summaries meta
    end;
  build_docx final_minutes output_path meta;;
  mret output_path.

(** Lines 421 to 423: the caller's record is copied, and the copy is edited
    interactively on request. *)
Definition prepare_metadata (metadata : loc) (prompt_for_metadata : bool) : M loc :=
  meta ← deepcopy metadata;
  if prompt_for_metadata then collect_meeting_metadata meta else mret meta.

Definition generate (client : OpenAI) (audio_path output_path : str) (metadata : loc)
    (language_hint : str) (save_transcript save_partials : option str)
    (prompt_for_metadata : bool) : M str :=
  meta ← prepare_metadata metadata prompt_for_metadata;
  raw ← transcribe_audio client audio_path language_hint;
  let transcript := strip raw in
  minutes_from_transcript client transcript output_path meta save_transcript save_partials.

(** ** Start-up code

    [load_api_key] and the constructor of [MeetingMinutesGenerator] end the
    program with [SystemExit] when no key is configured. *)

Inductive exit_or (A : Type) : Type :=
| Returned (a : A)
| SystemExit (stderr : str) (code : Z).
Arguments Returned {A}.
Arguments SystemExit {A}.

(** [load_api_key]; [load_dotenv] stands for what python-dotenv adds to the
    process environment from a [.env] file. *)
Definition load_api_key (load_dotenv : gmap str str -> gmap str str)
    (environ : gmap str str) : exit_or str :=
  let environ := load_dotenv environ in
  let key := strip (default [] (environ !! py "OPENAI_API_KEY")) in
  if negb (truthy key) then
    SystemExit
      (py "Fehler: Kein OPENAI_API_KEY gefunden. Bitte .env erstellen oder Umgebungsvariable setzen."
       ++ [nl])
      1
  else Returned key.

(** [MeetingMinutesGenerator.__init__]: [client or OpenAI(api_key=load_api_key())];
    [connect] stands for the constructor of the client library. *)
Definition MeetingMinutesGenerator (connect : str -> OpenAI) (client : option OpenAI)
    (load_dotenv : gmap str str -> gmap str str) (environ : gmap str str)
  : exit_or OpenAI :=
  match client with
  | Some given => Returned given
  | None =>
      match load_api_key load_dotenv environ with
      | Returned key => Returned (connect key)
      | SystemExit stderr code => SystemExit stderr code
      end
  end.

(** ** The command line of [meeting_minutes/__main__.py]

    The values [argparse] hands to [main], and the metadata [main] builds from
    them (lines 50 to 63). *)

Record Namespace : Type := mkArgs {
  arg_audio : str;
  arg_titel : str;
  arg_datum : str;
  arg_teilnehmer : str;
  arg_gaeste : str;
  arg_agenda : str;
  arg_ziele : str;
  arg_hinweise : str;
  arg_ort : str;
  arg_moderation : str;
  arg_protokoll : str;
  arg_startzeit : str;
  arg_endzeit : str;
  arg_language : str;
  arg_out : str;
  arg_save_transcript : str;
  arg_save_partials : str;
  arg_no_prompt : bool;
}.

(** [s or None] for a string *)
Definition or_None (s : str) : option str := if truthy s then Some s else None.

Definition metadata_of_args (args : Namespace) : MeetingMetadata :=
  mkMeta (strip (arg_titel args))
         (or_None (strip (arg_datum args)))
         (or_None (strip (arg_ort args)))
         (or_None (strip (arg_startzeit args)))
         (or_None (strip (arg_endzeit args)))
         (or_None (strip (arg_moderation args)))
         (or_None (strip (arg_protokoll args)))
         (parse_semicolon_list (arg_teilnehmer args))
         (parse_semicolon_list (arg_gaeste args))
         (parse_semicolon_list (arg_agenda args))
         (parse_semicolon_list (arg_ziele args))
         (parse_semicolon_list (arg_hinweise args)).



(** ** The dashboard of [dashboard/__init__.py] *)

Record ModuleEntry : Type := mkModule {
  name : str;
  description : str;
  command : str;
  documentation : option str;
}.

Definition default_modules : list ModuleEntry :=
  [ mkModule
      (py "Sitzungsprotokolle")
      (py "Erstellt aus Audioaufnahmen automatisch strukturierte Sitzungsprotokolle "
       ++ py "mithilfe von Whisper und GPT.")
      (py "python -m political_party_kit.meeting_minutes")
      (Some (py "README.md#meeting-minutes-module")) ].

Definition _render_card (title description command : str) (documentation : option str)
  : str :=
  let doc_link :=
    if truthy_opt documentation then
      py "<a class=" ++ dq ++ py "button" ++ dq ++ py " href=" ++ dq
      ++ or_str documentation [] ++ dq ++ py ">Dokumentation</a>"
    else [] in
  let command_html := py "<code>" ++ command ++ py "</code>" in
  let actions := join (py " ") (List.filter truthy [doc_link; command_html]) in
  py "
      <article>
        <h2>" ++ title ++ py "</h2>
        <p>" ++ description ++ py "</p>
        <div class=" ++ dq ++ py "actions" ++ dq ++ py ">" ++ actions ++ py "</div>
      </article>
    ".

(** The page around the cards: the template before and after
    [{module_cards}]. *)
Definition dashboard_head : str :=
  py "
<!DOCTYPE html>
<html lang="
  ++ dq
  ++ py "de"
  ++ dq
  ++ py ">
  <head>
    <meta charset="
  ++ dq
  ++ py "utf-8"
  ++ dq
  ++ py ">
    <meta name="
  ++ dq
  ++ py "viewport"
  ++ dq
  ++ py " content="
  ++ dq
  ++ py "width=device-width, initial-scale=1"
  ++ dq
  ++ py ">
    <title>Political Party Kit – Dashboard</title>
    <style>
      :root {
        color-scheme: light dark;
        font-family: system-ui, -apple-system, BlinkMacSystemFont, "
  ++ dq
  ++ py "Segoe UI"
  ++ dq
  ++ py ", sans-serif;
        background: #f6f7fb;
        color: #1c1c1c;
      }
      body {
        margin: 0;
        padding: 2rem 1.5rem 4rem;
        background: linear-gradient(135deg, #f6f7fb 0%, #e5e9ff 100%);
      }
      h1 {
        text-align: center;
        margin-bottom: 0.5rem;
      }
      p.lead {
        text-align: center;
        margin-top: 0;
        margin-bottom: 2rem;
        color: #444;
        max-width: 48rem;
        margin-left: auto;
        margin-right: auto;
      }
      main {
        display: grid;
        gap: 1.5rem;
        max-width: 72rem;
        margin: 0 auto;
        grid-template-columns: repeat(auto-fit, minmax(18rem, 1fr));
      }
      article {
        background: white;
        border-radius: 1rem;
        padding: 1.5rem;
        box-shadow: 0 20px 45px rgba(41, 51, 76, 0.15);
        display: flex;
        flex-direction: column;
        gap: 1rem;
      }
      article h2 {
        margin: 0;
        font-size: 1.4rem;
      }
      article p {
        margin: 0;
        flex-grow: 1;
        line-height: 1.5;
      }
      .actions {
        display: flex;
        flex-wrap: wrap;
        gap: 0.75rem;
      }
      .actions a, .actions code {
        font-size: 0.95rem;
      }
      a.button {
        background: #1c4ed8;
        color: white;
        text-decoration: none;
        padding: 0.6rem 1rem;
        border-radius: 999px;
        font-weight: 600;
        transition: background 0.15s ease-in-out, transform 0.15s ease-in-out;
      }
      a.button:hover {
        background: #173da8;
        transform: translateY(-1px);
      }
      code {
        background: rgba(28, 78, 216, 0.08);
        color: #0f1f4b;
        padding: 0.4rem 0.6rem;
        border-radius: 0.5rem;
        display: inline-flex;
        align-items: center;
      }
      footer {
        text-align: center;
        margin-top: 3rem;
        color: #555;
        font-size: 0.9rem;
      }
      @media (prefers-color-scheme: dark) {
        :root {
          background: #111827;
          color: #f9fafb;
        }
        body {
          background: radial-gradient(circle at top, #1f2937 0%, #0f172a 70%);
        }
        article {
          background: rgba(17, 24, 39, 0.95);
          box-shadow: 0 20px 45px rgba(7, 11, 19, 0.35);
        }
        article p {
          color: #e5e7eb;
        }
        a.button {
          background: #2563eb;
        }
        a.button:hover {
          background: #1d4ed8;
        }
        code {
          background: rgba(37, 99, 235, 0.25);
          color: #bfdbfe;
        }
        footer {
          color: #9ca3af;
        }
      }
    </style>
  </head>
  <body>
    <h1>Political Party Kit</h1>
    <p class="
  ++ dq
  ++ py "lead"
  ++ dq
  ++ py ">
      Zentrale Anlaufstelle für alle Module des Toolkits. Wähle ein Modul aus, um direkt
      in den jeweiligen Workflow zu starten.
    </p>
    <main>
      ".

Definition dashboard_tail : str :=
  py "
    </main>
    <footer>
      Weitere Module lassen sich problemlos ergänzen, indem sie in der Konfiguration des Dashboards registriert werden.
    </footer>
  </body>
</html>
".

Definition render_dashboard (modules : option (list ModuleEntry)) : str :=
  let modules :=
    match modules with
    | Some ((_ :: _) as given) => given
    | _ => default_modules
    end in
  let module_cards :=
    join [nl]
      (map (fun module => _render_card (name module) (description module) (command module)
                                       (documentation module)) modules) in
  dashboard_head ++ module_cards ++ dashboard_tail.

(** [write_dashboard]; [resolve] stands for [Path(output).expanduser().resolve()],
    which depends on the home and working directories, and gives the string of
    the resolved path. *)
Definition write_dashboard (resolve : str -> str) (output : str)
    (modules : option (list ModuleEntry)) : M str :=
  let target := resolve output in
  write_file (Path target)
    (Text (render_dashboard
             (match modules with
              | Some ((_ :: _) as given) => Some given
              | _ => None
              end)));;
  mret target.
(** ** Facts about stripping and splitting *)

Section StripFacts.
Variable p : N -> bool.

(** The first character, if any, is kept by [lstrip_by p]. *)
Definition head_ok (s : str) : Prop :=
  match s with [] => True | c :: _ => p c = false end.

Definition tight (s : str) : Prop := head_ok s /\ head_ok (rev s).

Lemma lstrip_by_head_ok s : head_ok (lstrip_by p s).
Proof.
  induction s as [|c r IH]; simpl; [exact I|].
  destruct (p c) eqn:E; [exact IH | simpl; exact E].
Qed.

Lemma lstrip_by_id s : head_ok s -> lstrip_by p s = s.
Proof. destruct s as [|c r]; simpl; [reflexivity|]. intros ->. reflexivity. Qed.

Lemma lstrip_by_split s : exists w, s = w ++ lstrip_by p s.
Proof.
  induction s as [|c r [w Hw]]; simpl.
  - exists []. reflexivity.
  - destruct (p c).
    + exists (c :: w). simpl. f_equal. exact Hw.
    + exists []. reflexivity.
Qed.

Lemma rstrip_by_split s : exists w, s = rstrip_by p s ++ w.
Proof.
  unfold rstrip_by. destruct (lstrip_by_split (rev s)) as [w Hw].
  exists (rev w). rewrite <- rev_app_distr, <- Hw, rev_involutive. reflexivity.
Qed.

Lemma head_ok_prefix a b : head_ok (a ++ b) -> head_ok a.
Proof. destruct a; simpl; auto. Qed.

Lemma head_ok_app a b : a <> [] -> head_ok a -> head_ok (a ++ b).
Proof. destruct a; simpl; [congruence | auto]. Qed.

Lemma rstrip_by_head_ok s : head_ok s -> head_ok (rstrip_by p s).
Proof.
  destruct (rstrip_by_split s) as [w Hw]. intros H. rewrite Hw in H.
  eapply head_ok_prefix; exact H.
Qed.

Lemma strip_by_tight s : tight (strip_by p s).
Proof.
  split.
  - apply rstrip_by_head_ok, lstrip_by_head_ok.
  - unfold strip_by, rstrip_by. rewrite rev_involutive. apply lstrip_by_head_ok.
Qed.

Lemma strip_by_id s : tight s -> strip_by p s = s.
Proof.
  intros [H1 H2]. unfold strip_by, rstrip_by.
  rewrite (lstrip_by_id _ H1), (lstrip_by_id _ H2). apply rev_involutive.
Qed.

Lemma strip_by_idem s : strip_by p (strip_by p s) = strip_by p s.
Proof. apply strip_by_id, strip_by_tight. Qed.

Lemma lstrip_by_In c s : In c (lstrip_by p s) -> In c s.
Proof.
  destruct (lstrip_by_split s) as [w Hw]. intros H. rewrite Hw.
  apply in_or_app. right. exact H.
Qed.

Lemma strip_by_In c s : In c (strip_by p s) -> In c s.
Proof.
  unfold strip_by, rstrip_by. intros H.
  apply in_rev, lstrip_by_In, in_rev in H. apply lstrip_by_In. exact H.
Qed.

Lemma tight_glue a c b :
  a <> [] -> b <> [] -> tight a -> tight b -> tight (a ++ c :: b).
Proof.
  intros Ha Hb [Ha1 _] [_ Hb2]. split.
  - apply head_ok_app; assumption.
  - rewrite rev_app_distr. simpl. rewrite <- app_assoc.
    apply head_ok_app; [|exact Hb2].
    intros E. apply Hb. rewrite <- (rev_involutive b), E. reflexivity.
Qed.

Lemma lstrip_by_all s : forallb p s = true -> lstrip_by p s = [].
Proof.
  induction s as [|c r IH]; simpl; [reflexivity|].
  intros [Hc Hr]%andb_prop. rewrite Hc. auto.
Qed.

Lemma strip_by_all s : forallb p s = true -> strip_by p s = [].
Proof. intros H. unfold strip_by. rewrite lstrip_by_all by exact H. reflexivity. Qed.
End StripFacts.

Section SplitFacts.
Variable sep : N.

Lemma split_nonempty s : split sep s <> [].
Proof.
  destruct s as [|c r]; simpl; [discriminate|].
  destruct (c =? sep); [discriminate|]. destruct (split sep r); discriminate.
Qed.

Lemma split_app a b : split sep (a ++ sep :: b) = split sep a ++ split sep b.
Proof.
  induction a as [|c r IH]; simpl.
  - rewrite N.eqb_refl. reflexivity.
  - destruct (c =? sep); [rewrite IH; reflexivity|].
    rewrite IH. destruct (split sep r) eqn:E; [|reflexivity].
    exfalso. exact (split_nonempty _ E).
Qed.

Lemma split_no_sep s : ~ In sep s -> split sep s = [s].
Proof.
  induction s as [|c r IH]; simpl; [reflexivity|]. intros H.
  destruct (N.eqb_spec c sep) as [->|Hne]; [exfalso; apply H; left; reflexivity|].
  rewrite IH; [reflexivity|]. intros Hr. apply H. right. exact Hr.
Qed.

Lemma split_piece_no_sep s q : In q (split sep s) -> ~ In sep q.
Proof.
  revert q. induction s as [|c r IH]; simpl; intros q.
  - intros [<-|[]]. intros [].
  - destruct (N.eqb_spec c sep) as [->|Hne].
    + intros [<-|H]; [intros []|apply IH; exact H].
    + destruct (split sep r) as [|h t] eqn:E.
      * exfalso. exact (split_nonempty _ E).
      * intros [<-|H].
        -- intros [Hc|Hh]; [congruence|]. apply (IH h); [left; reflexivity|exact Hh].
        -- apply IH. right. exact H.
Qed.
End SplitFacts.

Lemma truthy_true (s : str) : truthy s = true <-> s <> [].
Proof. destruct s; simpl; split; congruence. Qed.

(** Every paragraph is non-empty, stripped, and free of newlines. *)
Lemma paragraphs_clean text q :
  In q (paragraphs text) -> q <> [] /\ tight isspace q /\ ~ In nl q.
Proof.
  unfold paragraphs. rewrite in_map_iff. intros (x & <- & Hx).
  apply filter_In in Hx as [Hx Ht]. apply truthy_true in Ht.
  split; [exact Ht|]. split; [apply strip_by_tight|].
  intros H. apply strip_by_In in H. exact (split_piece_no_sep _ _ _ Hx H).
Qed.

(** The lines a buffer stands for: none while it is empty. *)
Definition lines_of (buffer : str) : list str :=
  if truthy buffer then split nl buffer else [].

Lemma lines_of_single q : q <> [] -> ~ In nl q -> lines_of q = [q].
Proof.
  intros Hq Hnl. unfold lines_of.
  destruct q; [congruence|]. simpl truthy. cbv iota. apply split_no_sep. exact Hnl.
Qed.

Lemma chunk_loop_lines n ps :
  (forall q, In q ps -> q <> [] /\ tight isspace q /\ ~ In nl q) ->
  forall chunks buffer, tight isspace buffer ->
    let '(chunks', buffer') := chunk_loop n ps (chunks, buffer) in
    concat (map (split nl) chunks') ++ lines_of buffer'
    = (concat (map (split nl) chunks) ++ lines_of buffer) ++ ps
    /\ tight isspace buffer'.
Proof.
  unfold chunk_loop. induction ps as [|q ps IH]; intros Hps chunks buffer Hb.
  - simpl. rewrite app_nil_r. auto.
  - destruct (Hps q (or_introl eq_refl)) as (Hq & Htq & Hnl).
    assert (Hps' : forall r, In r ps -> r <> [] /\ tight isspace r /\ ~ In nl r)
      by (intros r Hr; apply Hps; right; exact Hr).
    cbn [fold_left]. unfold chunk_step at 2.
    destruct (truthy buffer) eqn:Etb.
    + apply truthy_true in Etb.
      assert (Hglue : tight isspace (buffer ++ nl :: q)) by (apply tight_glue; assumption).
      change (buffer ++ [nl] ++ q) with (buffer ++ nl :: q).
      unfold strip. rewrite (strip_by_id _ _ Hglue).
      assert (Hlb : lines_of buffer = split nl buffer).
      { unfold lines_of. destruct buffer; [congruence|reflexivity]. }
      destruct (len (buffer ++ nl :: q) <=? n)%Z.
      * specialize (IH Hps' chunks (buffer ++ nl :: q) Hglue).
        destruct (fold_left (chunk_step n) ps (chunks, buffer ++ nl :: q)) as [c' b'].
        destruct IH as [IH1 IH2]. split; [|exact IH2]. rewrite IH1.
        assert (Hl : lines_of (buffer ++ nl :: q) = lines_of buffer ++ [q]).
        { unfold lines_of at 1. destruct buffer; [congruence|]. simpl truthy. cbv iota.
          rewrite split_app, Hlb, (split_no_sep _ _ Hnl). reflexivity. }
        rewrite Hl. rewrite <- !app_assoc. reflexivity.
      * specialize (IH Hps' (chunks ++ [buffer]) q Htq).
        destruct (fold_left (chunk_step n) ps (chunks ++ [buffer], q)) as [c' b'].
        destruct IH as [IH1 IH2]. split; [|exact IH2]. rewrite IH1.
        rewrite map_app, concat_app. simpl. rewrite app_nil_r.
        rewrite (lines_of_single _ Hq Hnl), Hlb. rewrite <- !app_assoc. reflexivity.
    + assert (buffer = []) as -> by (destruct buffer; [reflexivity|discriminate]).
      assert (Hgoal :
        let '(c', b') := fold_left (chunk_step n) ps (chunks, q) in
        concat (map (split nl) c') ++ lines_of b'
        = (concat (map (split nl) chunks) ++ lines_of []) ++ q :: ps
        /\ tight isspace b').
      { specialize (IH Hps' chunks q Htq).
        destruct (fold_left (chunk_step n) ps (chunks, q)) as [c' b'].
        destruct IH as [IH1 IH2]. split; [|exact IH2]. rewrite IH1.
        rewrite (lines_of_single _ Hq Hnl). unfold lines_of. simpl.
        rewrite app_nil_r, <- app_assoc. reflexivity. }
      destruct (len q <=? n)%Z; exact Hgoal.
Qed.

Lemma chunk_loop_bound n (ok : str -> Prop) ps :
  (forall c, (len c <= n)%Z -> ok c) ->
  (forall q, In q ps -> ok q) ->
  forall chunks buffer, Forall ok chunks -> (buffer = [] \/ ok buffer) ->
    let '(chunks', buffer') := chunk_loop n ps (chunks, buffer) in
    Forall ok chunks' /\ (buffer' = [] \/ ok buffer').
Proof.
  intros Hle. unfold chunk_loop.
  induction ps as [|q ps IH]; intros Hps chunks buffer Hc Hb.
  - simpl. auto.
  - assert (Hps' : forall r, In r ps -> ok r) by (intros r Hr; apply Hps; right; exact Hr).
    assert (Hq : ok q) by (apply Hps; left; reflexivity).
    cbn [fold_left]. unfold chunk_step at 2.
    destruct (len (if truthy buffer then strip (buffer ++ [nl] ++ q) else q) <=? n)%Z eqn:E.
    + apply IH; auto. right. apply Hle. apply Z.leb_le. exact E.
    + apply IH; auto. destruct (truthy buffer) eqn:Etb; [|exact Hc].
      apply Forall_app. split; [exact Hc|]. constructor; [|constructor].
      destruct Hb as [->|Hb]; [discriminate|exact Hb].
Qed.

Lemma isspace_not_semicolon s : forallb isspace s = true -> ~ In semicolon s.
Proof.
  intros H Hin. rewrite forallb_forall in H. specialize (H _ Hin). discriminate.
Qed.

(** ** Chunking: the claims *)

(** C1 (as stated, refuted): a paragraph longer than the budget is emitted as a
    chunk of its own, so a chunk can exceed [target_chars]. *)
Lemma chunk_text_exceeds_budget :
  chunk_text (py "ab
abcdefgh
cd") 5 = [py "ab"; py "abcdefgh"; py "cd"]
  /\ In (py "abcdefgh") (chunk_text (py "ab
abcdefgh
cd") 5)
  /\ ~ (len (py "abcdefgh") <= 5)%Z.
Proof.
  split; [vm_compute; reflexivity|]. split.
  - vm_compute. right. left. reflexivity.
  - vm_compute. intros H. apply H. reflexivity.
Qed.

(** C1 (amended): every chunk returned by [chunk_text] either has length at most
    [target_chars] or is one single paragraph of the text (a stripped non-blank
    line) standing alone; a chunk that joins paragraphs with a newline never
    exceeds the budget. *)
Theorem chunk_text_budget_or_single_paragraph (text : str) (target_chars : Z) :
  Forall (fun c => ((len c <= target_chars)%Z \/ In c (paragraphs text))
                   /\ (In nl c -> (len c <= target_chars)%Z))
         (chunk_text text target_chars).
Proof.
  eapply Forall_impl with
    (P := fun c => (len c <= target_chars)%Z \/ In c (paragraphs text)).
  2: { intros c Hc. split; [exact Hc|]. intros Hnl. destruct Hc as [Hc|Hc]; [exact Hc|].
       exfalso. apply paragraphs_clean in Hc as (_ & _ & Hc). exact (Hc Hnl). }
  unfold chunk_text. destruct (negb (truthy text)); [constructor|].
  pose proof (chunk_loop_bound target_chars
    (fun c => (len c <= target_chars)%Z \/ In c (paragraphs text)) (paragraphs text)
    (fun c H => or_introl H) (fun q H => or_intror H) [] []
    (List.Forall_nil _) (or_introl eq_refl)) as H.
  destruct (chunk_loop target_chars (paragraphs text) ([], [])) as [chunks buffer].
  destruct H as [Hc Hb]. destruct (truthy buffer) eqn:E; [|exact Hc].
  apply Forall_app. split; [exact Hc|]. constructor; [|constructor].
  destruct Hb as [->|Hb]; [discriminate|exact Hb].
Qed.

(** C2: splitting every chunk at its newlines and concatenating the pieces gives
    back, in order, exactly the stripped non-blank lines of the text; the empty
    text gives no chunk. *)
Theorem chunk_text_reproduces_paragraphs (text : str) (target_chars : Z) :
  concat (map (split nl) (chunk_text text target_chars))
  = map strip (List.filter (fun p => truthy (strip p)) (split nl text))
  /\ chunk_text [] target_chars = [].
Proof.
  split; [|reflexivity].
  fold (paragraphs text). unfold chunk_text.
  destruct (truthy text) eqn:Et; simpl negb; cbv iota.
  - pose proof (chunk_loop_lines target_chars (paragraphs text)
      (paragraphs_clean text) [] [] (conj I I)) as H.
    destruct (chunk_loop target_chars (paragraphs text) ([], [])) as [chunks buffer].
    destruct H as [H _]. simpl in H. rewrite <- H. unfold lines_of.
    destruct (truthy buffer).
    + rewrite map_app, concat_app. simpl. rewrite app_nil_r. reflexivity.
    + rewrite app_nil_r. reflexivity.
  - destruct text; [reflexivity|discriminate].
Qed.

(** ** Semicolon lists: the claim *)

(** C4: [parse_semicolon_list] applied to "A;B ;;C" returns the list of "A",
    "B" and "C"; applied to the empty string or to any string of whitespace
    only it returns the empty list; and for every input, every element of the
    result is a non-empty string equal to its own stripping. *)
Theorem parse_semicolon_list_spec :
  parse_semicolon_list (py "A;B ;;C") = [py "A"; py "B"; py "C"]
  /\ (forall value, forallb isspace value = true -> parse_semicolon_list value = [])
  /\ (forall value item, In item (parse_semicolon_list value) ->
        item <> [] /\ strip item = item).
Proof.
  split; [vm_compute; reflexivity|]. split.
  - intros value Hws. unfold parse_semicolon_list.
    destruct (truthy value); [|reflexivity]. simpl negb. cbv iota.
    rewrite (split_no_sep _ _ (isspace_not_semicolon _ Hws)). simpl.
    unfold strip. rewrite (strip_by_all _ _ Hws). reflexivity.
  - intros value item. unfold parse_semicolon_list.
    destruct (truthy value); simpl negb; cbv iota; [|intros []].
    rewrite in_map_iff. intros (x & <- & Hx). apply filter_In in Hx as [_ Ht].
    split; [apply truthy_true; exact Ht|]. apply strip_by_idem.
Qed.

(** ** Metadata round trip: the claim *)

(** What [x or None] makes of an optional text field. *)
Definition drop_empty (o : option str) : option str :=
  match o with Some [] => None | _ => o end.

Definition normalize_optionals (m : MeetingMetadata) : MeetingMetadata :=
  mkMeta (titel m) (drop_empty (datum m)) (drop_empty (ort m))
         (drop_empty (startzeit m)) (drop_empty (endzeit m))
         (drop_empty (moderation m)) (drop_empty (protokoll m))
         (teilnehmer m) (gaeste m) (agenda m) (ziele m) (hinweise m).

Definition no_empty_optional (m : MeetingMetadata) : Prop :=
  datum m <> Some [] /\ ort m <> Some [] /\ startzeit m <> Some []
  /\ endzeit m <> Some [] /\ moderation m <> Some [] /\ protokoll m <> Some [].

Lemma or_none_of_opt o : or_none (of_opt o) = of_opt (drop_empty o).
Proof. destruct o as [[|c s]|]; reflexivity. Qed.

Lemma of_opt_inj o o' : of_opt o = of_opt o' -> o = o'.
Proof. destruct o, o'; simpl; congruence. Qed.

Lemma unchecked_inj m m' : unchecked m = unchecked m' -> m = m'.
Proof.
  destruct m, m'. unfold unchecked. simpl. intros H. injection H as -> H2 H3 H4 H5 H6 H7 -> -> -> -> ->.
  apply of_opt_inj in H2, H3, H4, H5, H6, H7. subst. reflexivity.
Qed.

Lemma drop_empty_id o : drop_empty o = o <-> o <> Some [].
Proof. destruct o as [[|c s]|]; simpl; split; congruence. Qed.

Lemma from_dict_to_dict m : from_dict (to_dict m) = unchecked (normalize_optionals m).
Proof.
  destruct m as [t d o s e mo p te g a z h].
  unfold from_dict, to_dict, dict_get. cbn [list_to_map foldr titel datum ort startzeit endzeit
    moderation protokoll teilnehmer gaeste agenda ziele hinweise].
  simplify_map_eq.
  rewrite !or_none_of_opt. reflexivity.
Qed.

(** C3 (as stated, refuted): an optional field holding the empty string, as
    the interactive prompts leave it when the user just presses return, comes
    back as [None]: the default record with an empty start time comes back as
    the default record. *)
Lemma metadata_round_trip_loses_empty_string :
  startzeit (set_startzeit (Some []) default_metadata) = Some []
  /\ from_dict (to_dict (set_startzeit (Some []) default_metadata))
     = unchecked default_metadata
  /\ from_dict (to_dict (set_startzeit (Some []) default_metadata))
     <> unchecked (set_startzeit (Some []) default_metadata).
Proof.
  rewrite from_dict_to_dict. split; [reflexivity|]. split; [reflexivity|].
  intros H. discriminate H.
Qed.

(** C3 (amended): [from_dict (to_dict m)] has the same values as [m] in all
    twelve fields, except that an optional text field (datum, ort, startzeit,
    endzeit, moderation, protokoll) holding the empty string comes back as
    [None]; the round trip is the identity exactly on the records none of whose
    optional text fields is the empty string. *)
Theorem metadata_round_trip (m : MeetingMetadata) :
  from_dict (to_dict m) = unchecked (normalize_optionals m)
  /\ (from_dict (to_dict m) = unchecked m <-> no_empty_optional m).
Proof.
  split; [apply from_dict_to_dict|]. rewrite from_dict_to_dict.
  destruct m as [t d o s e mo p te g a z h]. unfold normalize_optionals, no_empty_optional.
  cbn [titel datum ort startzeit endzeit moderation protokoll teilnehmer gaeste agenda
       ziele hinweise].
  rewrite <- !drop_empty_id. split.
  - intros H. apply unchecked_inj in H. injection H as -> -> -> -> -> ->.
    repeat split; apply drop_empty_id; rewrite <- drop_empty_id; reflexivity.
  - intros (-> & -> & -> & -> & -> & ->). reflexivity.
Qed.

(** ** The document writer: rendering of one line *)

(** A paragraph is bold when one of its runs is. *)
Definition bold (p : paragraph) : bool := existsb run_bold (par_runs p).

(** The heuristics, in the words of the specification: a heading starts with
    a hash sign, a label ends with a colon and is shorter than 120 characters. *)
Definition heading_line (stripped : str) : Prop :=
  startswith stripped (py "#") = true.

Definition label_line (stripped : str) : Prop :=
  endswith stripped (py ":") = true /\ (len stripped < 120)%Z.

Definition line_rendering (line : str) (p : paragraph) : Prop :=
  let stripped := strip line in
  (bold p = true <-> heading_line stripped \/ label_line stripped)
  /\ (heading_line stripped ->
      par_runs p =
        [mkRun (strip (lstrip_chars (py "#") stripped)) true
               (Some (if Nat.eqb (count_char hash stripped) 1 then 14 else 12))])
  /\ (~ heading_line stripped -> label_line stripped ->
      par_runs p = [mkRun stripped true None])
  /\ (~ heading_line stripped -> ~ label_line stripped ->
      Forall (fun r => run_bold r = false) (par_runs p)
      /\ p = (if is_bullet stripped
              then add_paragraph (strip (lstrip_chars (py "-*• ") stripped))
                                 (Some (py "List Bullet"))
              else add_paragraph line None)).

Lemma is_heading_hash s : is_heading s = startswith s (py "#").
Proof.
  unfold is_heading. destruct s as [|c s]; [reflexivity|].
  change (py "#") with [35]. change (py "##") with [35; 35].
  change (py "###") with [35; 35; 35]. cbn [existsb startswith].
  destruct (35 =? c); [reflexivity|]. reflexivity.
Qed.

Lemma is_label_iff s : is_label s = true <-> label_line s.
Proof.
  unfold is_label, label_line. rewrite andb_true_iff, Z.ltb_lt. reflexivity.
Qed.

Lemma add_paragraph_plain text style :
  Forall (fun r => run_bold r = false) (par_runs (add_paragraph text style)).
Proof.
  unfold add_paragraph. destruct (truthy text); simpl; repeat constructor.
Qed.

Lemma body_paragraph_rendering line : line_rendering line (body_paragraph line).
Proof.
  unfold line_rendering, body_paragraph. cbv zeta.
  set (stripped := strip line). unfold heading_line.
  rewrite is_heading_hash.
  destruct (startswith stripped (py "#")) eqn:Eh.
  - split; [simpl; tauto|]. split; [intros _; reflexivity|].
    split; intros H; exfalso; apply H; reflexivity.
  - destruct (is_label stripped) eqn:El.
    + apply is_label_iff in El.
      split; [simpl; tauto|]. split; [intros H; discriminate H|].
      split; [intros _ _; reflexivity|]. intros _ H. exfalso. exact (H El).
    + assert (Hl : ~ label_line stripped).
      { intros H. apply is_label_iff in H. congruence. }
      assert (Hplain : forall p, Forall (fun r => run_bold r = false) (par_runs p) ->
                bold p = true <-> false = true \/ label_line stripped).
      { intros p Hp. split; [|intros [H|H]; [discriminate H|exfalso; exact (Hl H)]].
        unfold bold. rewrite existsb_exists. intros (r & Hr & Hb).
        rewrite List.Forall_forall in Hp. rewrite (Hp r Hr) in Hb. discriminate Hb. }
      destruct (is_bullet stripped) eqn:Eb.
      * split; [apply Hplain, add_paragraph_plain|].
        split; [intros H; discriminate H|]. split; [intros _ H; exfalso; exact (Hl H)|].
        intros _ _. split; [apply add_paragraph_plain|]. reflexivity.
      * split; [apply Hplain, add_paragraph_plain|].
        split; [intros H; discriminate H|]. split; [intros _ H; exfalso; exact (Hl H)|].
        intros _ _. split; [apply add_paragraph_plain|]. reflexivity.
Qed.
(** ** File operations: what a step does *)

Definition raised {A} (r : answer A) : result A :=
  match r with Done a => Ok a | Failed e => Raise (IOFailed e) end.

Lemma io_step_outcome {A} (ask : environment -> list io_event -> answer A)
    (event : answer A -> io_event) w :
  io_step ask event w
  = (raised (ask (env w) (io w)), with_io (io w ++ [event (ask (env w) (io w))]) w).
Proof. unfold io_step, raised. cbv zeta. destruct (ask (env w) (io w)); reflexivity. Qed.

Lemma write_file_outcome p content w :
  write_file p content w
  = (raised (os_write (env w) (io w) p content),
     with_io (io w ++ [IoWrite p content (os_write (env w) (io w) p content)]) w).
Proof. apply io_step_outcome. Qed.

Lemma path_exists_outcome p w :
  path_exists p w
  = (raised (os_exists (env w) (io w) p),
     with_io (io w ++ [IoExists p (os_exists (env w) (io w) p)]) w).
Proof. apply io_step_outcome. Qed.

Lemma open_rb_outcome p w :
  open_rb p w
  = (raised (os_read (env w) (io w) p),
     with_io (io w ++ [IoRead p (os_read (env w) (io w) p)]) w).
Proof. apply io_step_outcome. Qed.

Lemma mkdir_outcome p w :
  mkdir p w
  = (raised (os_mkdir (env w) (io w) p),
     with_io (io w ++ [IoMkdir p (os_mkdir (env w) (io w) p)]) w).
Proof. apply io_step_outcome. Qed.

(** ** The dashboard: counting markup *)

Local Open Scope nat_scope.

(** The number of positions of [s] at which [pat] occurs.  For the patterns
    below, which cannot overlap themselves, this is [s.count(pat)]. *)
Fixpoint count_sub (pat s : str) : nat :=
  match s with
  | [] => 0
  | _ :: r => (if startswith s pat then 1 else 0) + count_sub pat r
  end.

Definition contains (pat s : str) : Prop := exists a b, s = a ++ pat ++ b.

(** No proper non-empty suffix of [piece] begins an occurrence of [pat] that
    would have to be completed by what follows. *)
Fixpoint no_dangling (pat piece : str) : bool :=
  match piece with
  | [] => true
  | _ :: r => (startswith piece pat || negb (startswith pat piece)) && no_dangling pat r
  end.

(** What follows starts with a character that occurs nowhere in [pat] after
    its first character: no occurrence can run into it. *)
Definition starts_clean (pat piece : str) : bool :=
  match piece with
  | [] => false
  | b :: _ => negb (existsb (N.eqb b) (tail pat))
  end.

Lemma startswith_app_l pat x b :
  startswith x pat = true -> startswith (x ++ b) pat = true.
Proof.
  revert x. induction pat as [|a p IH]; intros x; [reflexivity|].
  destruct x as [|c x]; simpl; [discriminate|].
  intros [H1 H2]%andb_prop. rewrite H1. simpl. apply IH. exact H2.
Qed.

Lemma startswith_cross pat x b :
  startswith (x ++ b) pat = true -> startswith x pat = true \/ startswith pat x = true.
Proof.
  revert x. induction pat as [|a p IH]; intros x; [left; reflexivity|].
  destruct x as [|c x]; [right; reflexivity|]. simpl.
  intros [H1 H2]%andb_prop. apply N.eqb_eq in H1. subst c.
  rewrite N.eqb_refl. simpl. apply IH. exact H2.
Qed.

Lemma startswith_cross_char pat x c rest :
  startswith (x ++ c :: rest) pat = true ->
  startswith x pat = true \/ In c (skipn (length x) pat).
Proof.
  revert x. induction pat as [|a p IH]; intros x; [left; reflexivity|].
  destruct x as [|d x]; simpl.
  - intros [H1 _]%andb_prop. apply N.eqb_eq in H1. right. left. exact H1.
  - intros [H1 H2]%andb_prop. rewrite H1. simpl. apply IH. exact H2.
Qed.

Lemma count_sub_piece pat piece rest :
  no_dangling pat piece = true ->
  count_sub pat (piece ++ rest) = count_sub pat piece + count_sub pat rest.
Proof.
  induction piece as [|c r IH]; [reflexivity|].
  cbn [no_dangling]. intros [H1 H2]%andb_prop.
  change ((c :: r) ++ rest) with (c :: (r ++ rest)). cbn [count_sub].
  rewrite (IH H2).
  assert (E : startswith (c :: r ++ rest) pat = startswith (c :: r) pat).
  { destruct (startswith (c :: r) pat) eqn:Es.
    - apply (startswith_app_l pat (c :: r) rest Es).
    - destruct (startswith (c :: r ++ rest) pat) eqn:Ea; [|reflexivity].
      destruct (startswith_cross pat (c :: r) rest Ea) as [H|H]; [congruence|].
      rewrite H in H1. discriminate H1. }
  rewrite E. lia.
Qed.

Lemma count_sub_field pat field piece :
  starts_clean pat piece = true ->
  count_sub pat (field ++ piece) = count_sub pat field + count_sub pat piece.
Proof.
  destruct piece as [|b rest]; [discriminate|]. cbn [starts_clean].
  intros Hb. apply negb_true_iff in Hb.
  induction field as [|c r IH]; [reflexivity|].
  change ((c :: r) ++ b :: rest) with (c :: (r ++ b :: rest)). cbn [count_sub].
  rewrite IH.
  assert (E : startswith (c :: r ++ b :: rest) pat = startswith (c :: r) pat).
  { destruct (startswith (c :: r) pat) eqn:Es.
    - apply (startswith_app_l pat (c :: r) (b :: rest) Es).
    - destruct (startswith (c :: r ++ b :: rest) pat) eqn:Ea; [|reflexivity].
      destruct (startswith_cross_char pat (c :: r) b rest Ea) as [H|H]; [congruence|].
      exfalso. assert (Hin : In b (tail pat)).
      { destruct pat as [|a p]; [destruct H|]. simpl in H. simpl.
        clear -H. revert H. generalize (length r). intros n.
        revert p. induction n as [|n IHn]; intros p; [simpl; auto|].
        destruct p as [|q p]; simpl; [intros []|]. intros H. right. apply IHn. exact H. }
      assert (Hex : existsb (N.eqb b) (tail pat) = true).
      { apply existsb_exists. exists b. split; [exact Hin|apply N.eqb_refl]. }
      congruence. }
  rewrite E. cbn [count_sub]. lia.
Qed.

Lemma count_sub_app_ge pat a b : count_sub pat b <= count_sub pat (a ++ b).
Proof. induction a as [|c r IH]; simpl; lia. Qed.

Lemma count_sub_at pat rest : pat <> [] -> 0 < count_sub pat (pat ++ rest).
Proof.
  destruct pat as [|c p]; [congruence|]. intros _.
  change ((c :: p) ++ rest) with (c :: (p ++ rest)). cbn [count_sub].
  assert (E : startswith (c :: p ++ rest) (c :: p) = true).
  { apply (startswith_app_l (c :: p) (c :: p) rest).
    clear. generalize (c :: p). intros l. induction l as [|x l IH]; [reflexivity|].
    simpl. rewrite N.eqb_refl. exact IH. }
  rewrite E. lia.
Qed.

(** The markers counted in the page: the opening tag of a card and the opening
    of a documentation link; and the fixed pieces of a card. *)
Definition article_open : str := py "<article>".
Definition link_open : str := py "<a class=" ++ dq ++ py "button" ++ dq ++ py " href=" ++ dq.
Definition link_close : str := dq ++ py ">Dokumentation</a>".
Definition card_1 : str := py "
      <article>
        <h2>".
Definition card_2 : str := py "</h2>
        <p>".
Definition card_3 : str := py "</p>
        <div class=" ++ dq ++ py "actions" ++ dq ++ py ">".
Definition code_open : str := py "<code>".
Definition code_close : str := py "</code>".
Definition card_4 : str := py "</div>
      </article>
    ".

Lemma render_card_with_doc t d c x doc :
  _render_card t d c (Some (x :: doc))
  = card_1 ++ t ++ card_2 ++ d ++ card_3 ++ link_open ++ (x :: doc) ++ link_close
    ++ py " " ++ code_open ++ c ++ code_close ++ card_4.
Proof.
  unfold _render_card, card_1, card_2, card_3, card_4, link_open, link_close, code_open, code_close.
  cbn [truthy_opt truthy or_str].
  change (List.filter truthy [py "<a class=" ++ dq ++ py "button" ++ dq ++ py " href=" ++ dq ++ (x :: doc) ++ dq ++ py ">Dokumentation</a>"; py "<code>" ++ c ++ py "</code>"]) with [py "<a class=" ++ dq ++ py "button" ++ dq ++ py " href=" ++ dq ++ (x :: doc) ++ dq ++ py ">Dokumentation</a>"; py "<code>" ++ c ++ py "</code>"].
  cbn [join]. rewrite <- !app_assoc. reflexivity.
Qed.

Lemma render_card_without_doc t d c doc :
  truthy_opt doc = false ->
  _render_card t d c doc
  = card_1 ++ t ++ card_2 ++ d ++ card_3 ++ code_open ++ c ++ code_close ++ card_4.
Proof.
  intros H. unfold _render_card, card_1, card_2, card_3, card_4, code_open, code_close. rewrite H.
  change (List.filter truthy [[]; py "<code>" ++ c ++ py "</code>"]) with [py "<code>" ++ c ++ py "</code>"].
  cbn [join]. rewrite <- !app_assoc. reflexivity.
Qed.

Ltac count_split :=
  repeat first
    [ rewrite count_sub_piece by (vm_compute; reflexivity)
    | rewrite count_sub_field by (vm_compute; reflexivity) ].


Definition card_of (m : ModuleEntry) : str :=
  _render_card (name m) (description m) (command m) (documentation m).

Lemma card_article_count t d c doc :
  count_sub article_open t = 0 -> count_sub article_open d = 0 ->
  count_sub article_open c = 0 -> count_sub article_open (or_str doc []) = 0 ->
  count_sub article_open (_render_card t d c doc) = 1.
Proof.
  intros Ht Hd Hc Hdoc.
  destruct doc as [[|x doc]|].
  - rewrite render_card_without_doc by reflexivity.
    count_split. rewrite Ht, Hd, Hc. vm_compute. reflexivity.
  - rewrite render_card_with_doc. cbn [or_str] in Hdoc.
    count_split. rewrite Ht, Hd, Hc, Hdoc. vm_compute. reflexivity.
  - rewrite render_card_without_doc by reflexivity.
    count_split. rewrite Ht, Hd, Hc. vm_compute. reflexivity.
Qed.

Lemma card_link_count_without t d c doc :
  truthy_opt doc = false ->
  count_sub link_open t = 0 -> count_sub link_open d = 0 -> count_sub link_open c = 0 ->
  count_sub link_open (_render_card t d c doc) = 0.
Proof.
  intros H Ht Hd Hc. rewrite (render_card_without_doc _ _ _ _ H).
  count_split. rewrite Ht, Hd, Hc. vm_compute. reflexivity.
Qed.

Lemma card_link_count_with t d c x doc :
  0 < count_sub link_open (_render_card t d c (Some (x :: doc))).
Proof.
  rewrite render_card_with_doc.
  do 5 (eapply Nat.lt_le_trans; [|apply count_sub_app_ge]).
  apply count_sub_at. vm_compute. discriminate.
Qed.

Lemma contains_here pat b : contains pat (pat ++ b).
Proof. exists [], b. reflexivity. Qed.

Lemma contains_app_r pat a s : contains pat s -> contains pat (a ++ s).
Proof.
  intros (x & y & ->). exists (a ++ x), y. rewrite <- app_assoc. reflexivity.
Qed.

Lemma contains_app_l pat s b : contains pat s -> contains pat (s ++ b).
Proof.
  intros (x & y & ->). exists x, (y ++ b). rewrite <- !app_assoc. reflexivity.
Qed.

Lemma contains_join sep x xs : In x xs -> contains x (join sep xs).
Proof.
  induction xs as [|y ys IH]; [intros []|].
  intros [->|Hin].
  - destruct ys; [exists [], []; simpl; rewrite app_nil_r; reflexivity|].
    cbn [join]. apply contains_here.
  - destruct ys as [|z zs]; [destruct Hin|].
    cbn [join]. do 2 apply contains_app_r. exact (IH Hin).
Qed.

Lemma contains_three (a b c r : str) : contains (a ++ b ++ c) (a ++ b ++ c ++ r).
Proof. exists [], r. simpl. rewrite <- !app_assoc. reflexivity. Qed.

Ltac find_piece :=
  repeat first [ apply contains_here | apply contains_app_r ].

Lemma card_contains_fields t d c doc :
  contains t (_render_card t d c doc) /\ contains d (_render_card t d c doc)
  /\ contains c (_render_card t d c doc).
Proof.
  destruct (truthy_opt doc) eqn:E.
  - destruct doc as [[|x doc]|]; try discriminate E.
    rewrite render_card_with_doc. repeat split; find_piece.
  - rewrite (render_card_without_doc _ _ _ _ E). repeat split; find_piece.
Qed.

Lemma card_contains_link t d c x doc :
  contains (link_open ++ (x :: doc) ++ link_close) (_render_card t d c (Some (x :: doc))).
Proof.
  rewrite render_card_with_doc. do 5 apply contains_app_r.
  apply contains_three.
Qed.

Lemma count_join_cards (ms : list ModuleEntry) :
  (forall m, In m ms -> count_sub article_open (card_of m) = 1) ->
  count_sub article_open (join [nl] (map card_of ms)) = length ms.
Proof.
  induction ms as [|m ms IH]; intros H; [reflexivity|].
  destruct ms as [|m' ms].
  - simpl. apply H. left. reflexivity.
  - change (join [nl] (map card_of (m :: m' :: ms)))
      with (card_of m ++ [nl] ++ join [nl] (map card_of (m' :: ms))).
    rewrite count_sub_field by (vm_compute; reflexivity).
    rewrite count_sub_piece by (vm_compute; reflexivity).
    rewrite IH by (intros k Hk; apply H; right; exact Hk).
    rewrite (H m) by (left; reflexivity). simpl. reflexivity.
Qed.

Lemma render_dashboard_unfold m ms :
  render_dashboard (Some (m :: ms))
  = dashboard_head ++ join [nl] (map card_of (m :: ms)) ++ dashboard_tail.
Proof. unfold render_dashboard, card_of. cbv zeta. reflexivity. Qed.

Lemma render_dashboard_default :
  render_dashboard (Some []) = render_dashboard (Some default_modules)
  /\ render_dashboard None = render_dashboard (Some default_modules).
Proof. unfold render_dashboard, default_modules. cbv zeta. split; reflexivity. Qed.

(** The fields of a module hold neither marker. *)
Definition plain_module (m : ModuleEntry) : Prop :=
  count_sub article_open (name m) = 0
  /\ count_sub article_open (description m) = 0
  /\ count_sub article_open (command m) = 0
  /\ count_sub article_open (or_str (documentation m) []) = 0
  /\ count_sub link_open (name m) = 0
  /\ count_sub link_open (description m) = 0
  /\ count_sub link_open (command m) = 0.

(** What the specification asks of the card of a module inside a page. *)
Definition card_in_page (page : str) (m : ModuleEntry) : Prop :=
  contains (card_of m) page
  /\ count_sub article_open (card_of m) = 1
  /\ contains (name m) (card_of m)
  /\ contains (description m) (card_of m)
  /\ contains (command m) (card_of m)
  /\ (0 < count_sub link_open (card_of m) <-> truthy_opt (documentation m) = true)
  /\ (truthy_opt (documentation m) = true ->
      contains (link_open ++ or_str (documentation m) [] ++ link_close) (card_of m)).

Lemma plain_card_in_page page m :
  contains (card_of m) page -> plain_module m -> card_in_page page m.
Proof.
  intros Hpage (H1 & H2 & H3 & H4 & H5 & H6 & H7).
  destruct (card_contains_fields (name m) (description m) (command m) (documentation m))
    as (C1 & C2 & C3).
  split; [exact Hpage|]. split; [apply card_article_count; assumption|].
  split; [exact C1|]. split; [exact C2|]. split; [exact C3|].
  unfold card_of. destruct (documentation m) as [[|x doc]|] eqn:E.
  - split; [|intros H; discriminate H].
    rewrite card_link_count_without by (reflexivity || assumption).
    split; [lia|intros H; discriminate H].
  - split; [split; [reflexivity|intros _; apply card_link_count_with]|].
    intros _. apply card_contains_link.
  - split; [|intros H; discriminate H].
    rewrite card_link_count_without by (reflexivity || assumption).
    split; [lia|intros H; discriminate H].
Qed.

Lemma plain_modules_page m ms :
  Forall plain_module (m :: ms) ->
  count_sub article_open (render_dashboard (Some (m :: ms))) = length (m :: ms)
  /\ Forall (card_in_page (render_dashboard (Some (m :: ms)))) (m :: ms).
Proof.
  intros Hplain.
  rewrite render_dashboard_unfold. rewrite List.Forall_forall in Hplain.
  split.
  - rewrite count_sub_piece by (vm_compute; reflexivity).
    rewrite count_sub_field by (vm_compute; reflexivity).
    rewrite count_join_cards.
    + replace (count_sub article_open dashboard_head) with 0 by (vm_compute; reflexivity).
      replace (count_sub article_open dashboard_tail) with 0 by (vm_compute; reflexivity).
      lia.
    + intros k Hk. destruct (Hplain k Hk) as (H1 & H2 & H3 & H4 & _).
      apply card_article_count; assumption.
  - apply List.Forall_forall. intros k Hk. apply plain_card_in_page; [|apply Hplain, Hk].
    apply contains_app_r, contains_app_l, contains_join, in_map. exact Hk.
Qed.


Lemma write_dashboard_page resolve output ms w :
  write_dashboard resolve output ms w
  = (write_file (Path (resolve output)) (Text (render_dashboard ms));;
     mret (resolve output)) w.
Proof.
  destruct render_dashboard_default as [E E'].
  destruct ms as [[|m l]|]; unfold write_dashboard; cbv zeta; [|reflexivity..].
  rewrite E, E'. reflexivity.
Qed.

Lemma write_dashboard_outcome resolve output ms w :
  let r := os_write (env w) (io w) (Path (resolve output)) (Text (render_dashboard ms)) in
  write_dashboard resolve output ms w
  = (match r with Done _ => Ok (resolve output) | Failed e => Raise (IOFailed e) end,
     with_io (io w ++ [IoWrite (Path (resolve output)) (Text (render_dashboard ms)) r]) w).
Proof.
  cbv zeta. rewrite write_dashboard_page. unfold mbind, M_bind.
  rewrite write_file_outcome.
  destruct (os_write (env w) (io w) (Path (resolve output)) (Text (render_dashboard ms)));
    reflexivity.
Qed.

Lemma default_modules_plain : Forall plain_module default_modules.
Proof. repeat constructor; vm_compute; reflexivity. Qed.

(** ** The dashboard: the claims *)

(** C6 (as stated, refuted): the empty list is rendered with the one built-in
    card; a field holding markup adds to the card sections of the page; an
    empty documentation string gives no link. *)
Lemma render_dashboard_cards_differ :
  count_sub article_open (render_dashboard (Some [])) = 1
  /\ length (@nil ModuleEntry) = 0
  /\ count_sub article_open
       (render_dashboard (Some [mkModule (py "<article>") (py "d") (py "c") None])) = 2
  /\ count_sub link_open (card_of (mkModule (py "n") (py "d") (py "c") (Some []))) = 0.
Proof. repeat split; vm_compute; reflexivity. Qed.

(** C6 (amended): for every non-empty list of module descriptors whose text
    fields contain neither the card tag nor the opening of a documentation
    link, the page holds exactly one card section per module of the list; each
    card holds its module's name, description and command text, and holds a
    documentation link, to the module's documentation, exactly when the
    documentation field is a non-empty string. *)
Theorem render_dashboard_one_card_per_module (modules : list ModuleEntry) :
  modules <> [] ->
  Forall plain_module modules ->
  count_sub article_open (render_dashboard (Some modules)) = length modules
  /\ Forall (card_in_page (render_dashboard (Some modules))) modules.
Proof.
  intros Hne Hplain. destruct modules as [|m ms]; [congruence|].
  apply plain_modules_page. exact Hplain.
Qed.

Lemma render_dashboard_one_card_per_module_witness :
  count_sub article_open (render_dashboard (Some default_modules)) = length default_modules
  /\ Forall (card_in_page (render_dashboard (Some default_modules))) default_modules.
Proof.
  apply (render_dashboard_one_card_per_module default_modules).
  - discriminate.
  - repeat constructor; vm_compute; reflexivity.
Defined.

(** C9: an empty sequence of modules, like no sequence at all, is replaced by
    the built-in list, which is not empty: the page is the page of the default
    modules, it is not the page without cards, it holds one card per default
    module and so at least one; and that page is what [write_dashboard] asks
    the operating system to write to the resolved target, its one write,
    returning the target when the write succeeds and raising the error of the
    write otherwise. *)
Theorem render_dashboard_empty_uses_defaults :
  default_modules <> []
  /\ render_dashboard (Some []) = render_dashboard (Some default_modules)
  /\ render_dashboard None = render_dashboard (Some default_modules)
  /\ render_dashboard (Some []) <> dashboard_head ++ dashboard_tail
  /\ count_sub article_open (render_dashboard (Some [])) = length default_modules
  /\ 1 <= count_sub article_open (render_dashboard (Some []))
  /\ Forall (card_in_page (render_dashboard (Some []))) default_modules
  /\ (forall resolve output w,
        let page := render_dashboard (Some default_modules) in
        let answered := os_write (env w) (io w) (Path (resolve output)) (Text page) in
        write_dashboard resolve output (Some []) w
        = write_dashboard resolve output (Some default_modules) w
        /\ write_dashboard resolve output (Some []) w
           = (match answered with
              | Done _ => Ok (resolve output)
              | Failed e => Raise (IOFailed e)
              end,
              with_io (io w ++ [IoWrite (Path (resolve output)) (Text page) answered]) w)).
Proof.
  destruct render_dashboard_default as [E E'].
  assert (C : count_sub article_open (render_dashboard (Some [])) = 1)
    by (vm_compute; reflexivity).
  split; [discriminate|]. split; [exact E|]. split; [exact E'|].
  split.
  { intros H. apply (f_equal (count_sub article_open)) in H. rewrite C in H.
    vm_compute in H. discriminate H. }
  split; [rewrite C; reflexivity|]. split; [rewrite C; lia|]. split.
  - rewrite E. apply (plain_modules_page _ _ default_modules_plain).
  - intros resolve output w. cbv zeta.
    pose proof (write_dashboard_outcome resolve output (Some []) w) as H.
    cbv zeta in H. rewrite E in H. rewrite H.
    pose proof (write_dashboard_outcome resolve output (Some default_modules) w) as H'.
    cbv zeta in H'. rewrite H'. split; reflexivity.
Qed.

(** ** Reasoning about runs

    [keeps n w post x] says of the outcome [x] of a run started in [w]: the
    first [n] objects of the store are as they were, the store has not shrunk,
    no input has been given back, the fuel of a loop was not used up, and a
    returned value satisfies [post]. *)

Definition keeps {A} (n : nat) (w : world) (post : A -> world -> Prop)
    (x : result A * world) : Prop :=
  take n (heap x.2) = take n (heap w)
  /\ length (heap w) <= length (heap x.2)
  /\ length (stdin x.2) <= length (stdin w)
  /\ match x.1 with
     | Ok a => post a x.2
     | Raise e => e <> OutOfFuel
     end.

Definition anything {A} : A -> world -> Prop := fun _ _ => True.

Section Keeps.
Variable n : nat.

Lemma keeps_bind {A B} (m : M A) (f : A -> M B) w post post' :
  n <= length (heap w) ->
  keeps n w post (m w) ->
  (forall a w1, n <= length (heap w1) -> length (stdin w1) <= length (stdin w) ->
     post a w1 -> keeps n w1 post' (f a w1)) ->
  keeps n w post' ((m ≫= f) w).
Proof.
  intros Hn (Ht & Hh & Hs & Hr) Hf. unfold mbind, M_bind.
  destruct (m w) as [[a|e] w1]; simpl in *.
  - destruct (Hf a w1) as (Ht' & Hh' & Hs' & Hr'); [lia|lia|exact Hr|].
    repeat split; [congruence|lia|lia|exact Hr'].
  - repeat split; assumption.
Qed.

Lemma keeps_weaken {A} w (post post' : A -> world -> Prop) x :
  keeps n w post x ->
  (forall a w', length (stdin w') <= length (stdin w) -> post a w' -> post' a w') ->
  keeps n w post' x.
Proof.
  intros (Ht & Hh & Hs & Hr) H. repeat split; try assumption.
  destruct x.1; [apply H; assumption|exact Hr].
Qed.

Lemma keeps_ret {A} w (post : A -> world -> Prop) a : post a w -> keeps n w post ((mret a : M A) w).
Proof. intros H. repeat split; simpl; auto. Qed.

Lemma keeps_raise {A} w (post : A -> world -> Prop) e :
  e <> OutOfFuel -> keeps n w post (raise e w).
Proof. intros H. repeat split; simpl; auto. Qed.

Lemma keeps_gets {A} w (f : world -> A) : keeps n w (fun a w' => a = f w /\ w' = w) (gets f w).
Proof. repeat split; simpl; auto. Qed.

Lemma keeps_alloc w o : n <= length (heap w) -> keeps n w (fun l _ => n <= l) (alloc o w).
Proof.
  intros Hn. unfold alloc, keeps. simpl.
  rewrite take_app_le by exact Hn. rewrite length_app. simpl. repeat split; lia.
Qed.

Lemma keeps_load_list w l : keeps n w anything (load_list l w).
Proof.
  unfold load_list, keeps, anything. destruct (heap w !! l) as [[items|m]|]; simpl;
    repeat split; auto; discriminate.
Qed.

Lemma keeps_load_meta w l : keeps n w anything (load_meta l w).
Proof.
  unfold load_meta, keeps, anything. destruct (heap w !! l) as [[items|m]|]; simpl;
    repeat split; auto; discriminate.
Qed.

Lemma keeps_read_metadata w l : keeps n w anything (read_metadata l w).
Proof.
  unfold read_metadata, keeps, anything. destruct (snapshot (heap w) l); simpl;
    repeat split; auto; discriminate.
Qed.

Lemma keeps_store w l o : n <= l -> keeps n w anything (store l o w).
Proof.
  intros Hl. unfold store, modify, keeps, anything. simpl.
  rewrite take_insert_ge by exact Hl. rewrite length_insert. repeat split; lia.
Qed.

Lemma keeps_print w s : keeps n w anything (print s w).
Proof. unfold print, modify, keeps, anything. simpl. repeat split; lia. Qed.

Lemma keeps_input w prompt :
  keeps n w (fun _ w' => length (stdin w') < length (stdin w)) (input prompt w).
Proof.
  unfold input, keeps. simpl. destruct (stdin w) as [|line rest] eqn:E; simpl;
    rewrite ?E; simpl; repeat split; auto; try lia; discriminate.
Qed.

Lemma keeps_io_step {A} w (ask : environment -> list io_event -> answer A) event :
  keeps n w anything (io_step ask event w).
Proof.
  rewrite io_step_outcome. unfold keeps, anything, raised.
  destruct (ask (env w) (io w)); simpl; repeat split; auto; discriminate.
Qed.

Lemma keeps_path_exists w p : keeps n w anything (path_exists p w).
Proof. apply keeps_io_step. Qed.

Lemma keeps_open_rb w p : keeps n w anything (open_rb p w).
Proof. apply keeps_io_step. Qed.

Lemma keeps_write_file w p content : keeps n w anything (write_file p content w).
Proof. apply keeps_io_step. Qed.

Lemma keeps_mkdir w p : keeps n w anything (mkdir p w).
Proof. apply keeps_io_step. Qed.

Lemma keeps_log_call w c : keeps n w anything (log_call c w).
Proof. unfold log_call, modify, keeps, anything. simpl. repeat split; lia. Qed.

End Keeps.

Create HintDb keeps discriminated.
#[global] Hint Resolve keeps_load_list keeps_load_meta keeps_read_metadata keeps_print
  keeps_input keeps_path_exists keeps_open_rb keeps_write_file keeps_mkdir keeps_log_call
  keeps_gets : keeps.

(** One step through a bind: the first computation by a known fact, then on
    with the continuation. *)
Ltac keeps_step :=
  eapply keeps_bind; [ lia | solve [ eauto with keeps ] | cbv beta; intros ].

(** ** The store under the operations of the pipeline *)

Section KeepsPipeline.
Variable n : nat.

Lemma keeps_list_append w l v :
  n <= l -> n <= length (heap w) -> keeps n w anything (list_append l v w).
Proof.
  intros Hl Hn. unfold list_append. keeps_step. apply keeps_store. exact Hl.
Qed.

Lemma keeps_update_meta w l f :
  n <= l -> n <= length (heap w) -> keeps n w anything (update_meta l f w).
Proof.
  intros Hl Hn. unfold update_meta. keeps_step. apply keeps_store. exact Hl.
Qed.

Lemma keeps_deepcopy_list w memo l :
  n <= length (heap w) -> keeps n w anything (deepcopy_list memo l w).
Proof.
  intros Hn. unfold deepcopy_list.
  match goal with |- context [List.find ?f memo] => destruct (List.find f memo) end;
    [apply keeps_ret; exact I|].
  keeps_step. eapply keeps_bind; [lia|apply keeps_alloc; lia|]. cbv beta. intros.
  apply keeps_ret. exact I.
Qed.

Lemma keeps_deepcopy w x :
  n <= length (heap w) -> keeps n w (fun l _ => n <= l) (deepcopy x w).
Proof.
  intros Hn. unfold deepcopy. keeps_step.
  do 5 (eapply keeps_bind; [lia|apply keeps_deepcopy_list; lia|];
        cbv beta; intros [? ?] ? ? ? _).
  eapply keeps_weaken; [apply keeps_alloc; lia|]. cbv beta. intros. assumption.
Qed.

Lemma keeps_prompt_with_default w prompt dflt :
  n <= length (heap w) ->
  keeps n w (fun _ w' => length (stdin w') < length (stdin w))
        (prompt_with_default prompt dflt w).
Proof.
  intros Hn. unfold prompt_with_default. cbv zeta. keeps_step.
  apply keeps_ret. lia.
Qed.

Lemma keeps_print_numbered items : forall idx w,
  n <= length (heap w) -> keeps n w anything (print_numbered idx items w).
Proof.
  induction items as [|item rest IH]; intros idx w Hn; simpl.
  - apply keeps_ret. exact I.
  - keeps_step. apply IH. lia.
Qed.

Lemma keeps_read_entries entries : forall fuel counter w,
  n <= entries -> n <= length (heap w) -> length (stdin w) < fuel ->
  keeps n w anything (read_entries fuel entries counter w).
Proof.
  induction fuel as [|fuel IH]; intros counter w He Hn Hfuel; [lia|].
  simpl. keeps_step. cbv zeta.
  match goal with |- context [negb ?b] => destruct (negb b) end;
    [apply keeps_ret; exact I|].
  eapply keeps_bind; [lia|apply keeps_list_append; lia|]. cbv beta. intros.
  apply IH; lia.
Qed.

Lemma keeps_prompt_list w prompt dflt :
  n <= length (heap w) -> keeps n w anything (prompt_list prompt dflt w).
Proof.
  intros Hn. unfold prompt_list. keeps_step.
  eapply keeps_bind; [lia|apply keeps_load_list|]. cbv beta. intros current w2 Hn2 Hs2 _.
  eapply keeps_bind with (post := anything); [lia| |cbv beta; intros].
  { unfold when_. destruct current; [apply keeps_ret; exact I|].
    keeps_step. apply keeps_print_numbered. lia. }
  keeps_step.
  eapply keeps_bind; [lia|apply keeps_alloc; lia|]. cbv beta. intros.
  keeps_step.
  match goal with H : _ = S _ /\ _ = _ |- _ => destruct H as [-> ->] end.
  eapply keeps_bind; [lia|apply keeps_read_entries; lia|]. cbv beta. intros.
  keeps_step. apply keeps_ret. exact I.
Qed.


Ltac keeps_chain :=
  repeat (eapply keeps_bind;
          [ lia
          | first [ solve [ eauto with keeps ]
                  | apply keeps_prompt_with_default; lia
                  | apply keeps_prompt_list; lia
                  | apply keeps_update_meta; lia
                  | apply keeps_print_numbered; lia ]
          | cbv beta; intros ]).

Lemma keeps_collect_round w meta :
  n <= meta -> n <= length (heap w) ->
  keeps n w (fun _ w' => length (stdin w') < length (stdin w)) (collect_round meta w).
Proof.
  intros Hm Hn. unfold collect_round. keeps_chain.
  eapply keeps_bind with (post := anything); [lia| |cbv beta; intros].
  { unfold when_. destruct (agenda _); [apply keeps_ret; exact I|]. keeps_chain.
    apply keeps_print_numbered. lia. }
  keeps_chain. cbv zeta. apply keeps_ret. lia.
Qed.

Lemma keeps_collect_loop meta : forall fuel w,
  n <= meta -> n <= length (heap w) -> length (stdin w) < fuel ->
  keeps n w (fun l _ => n <= l) (collect_loop fuel meta w).
Proof.
  induction fuel as [|fuel IH]; intros w Hm Hn Hfuel; [lia|].
  simpl. eapply keeps_bind; [lia|apply keeps_collect_round; lia|]. cbv beta.
  intros confirmed w1 Hn1 Hs1 Hlt.
  destruct confirmed; [apply keeps_ret; exact Hm|].
  keeps_chain. apply IH; lia.
Qed.

Lemma keeps_collect_meeting_metadata w base_meta :
  n <= length (heap w) ->
  keeps n w (fun l _ => n <= l) (collect_meeting_metadata base_meta w).
Proof.
  intros Hn. unfold collect_meeting_metadata.
  eapply keeps_bind; [lia|apply keeps_deepcopy; lia|]. cbv beta. intros.
  keeps_chain.
  match goal with H : _ = S _ /\ _ = _ |- _ => destruct H as [-> ->] end.
  apply keeps_collect_loop; lia.
Qed.

Lemma keeps_prepare_metadata w metadata prompt_for_metadata :
  n <= length (heap w) ->
  keeps n w (fun l _ => n <= l) (prepare_metadata metadata prompt_for_metadata w).
Proof.
  intros Hn. unfold prepare_metadata.
  eapply keeps_bind; [lia|apply keeps_deepcopy; lia|]. cbv beta. intros.
  destruct prompt_for_metadata; [apply keeps_collect_meeting_metadata; lia|].
  apply keeps_ret. assumption.
Qed.

Lemma keeps_transcribe_audio w client audio_path language_hint :
  n <= length (heap w) ->
  keeps n w anything (transcribe_audio client audio_path language_hint w).
Proof.
  intros Hn. unfold transcribe_audio. keeps_chain.
  match goal with |- context [negb ?b] => destruct (negb b) end;
    [apply keeps_raise; discriminate|].
  keeps_chain. apply keeps_ret. exact I.
Qed.

Lemma keeps_chat w client system_prompt user_prompt :
  n <= length (heap w) -> keeps n w anything (chat client system_prompt user_prompt w).
Proof. intros Hn. unfold chat. cbv zeta. keeps_chain. apply keeps_ret. exact I. Qed.

Lemma keeps_summarize_chunks client partial_dir chunks : forall index partial_summaries w,
  n <= length (heap w) ->
  keeps n w anything (summarize_chunks client partial_dir index chunks partial_summaries w).
Proof.
  induction chunks as [|chunk rest IH]; intros index partial_summaries w Hn; simpl.
  - apply keeps_ret. exact I.
  - eapply keeps_bind; [lia|apply keeps_chat; lia|]. cbv beta. intros.
    eapply keeps_bind with (post := anything); [lia| |cbv beta; intros].
    { destruct partial_dir; [apply keeps_write_file|apply keeps_ret; exact I]. }
    apply IH. lia.
Qed.

Lemma keeps_consolidate_summaries w client summaries meta :
  n <= length (heap w) ->
  keeps n w anything (consolidate_summaries client summaries meta w).
Proof.
  intros Hn. unfold consolidate_summaries. keeps_chain. apply keeps_chat. lia.
Qed.

Lemma keeps_build_docx w text out_path meta :
  n <= length (heap w) -> keeps n w anything (build_docx text out_path meta w).
Proof.
  intros Hn. unfold build_docx. keeps_chain. cbv zeta.
  match goal with |- context [docx_accepted ?ok ?d] => destruct (docx_accepted ok d) end;
    [apply keeps_write_file|apply keeps_raise; discriminate].
Qed.

Lemma keeps_minutes_from_transcript w client transcript output_path meta
    save_transcript save_partials :
  n <= length (heap w) ->
  keeps n w anything
    (minutes_from_transcript client transcript output_path meta save_transcript
       save_partials w).
Proof.
  intros Hn. unfold minutes_from_transcript. cbv zeta.
  eapply keeps_bind with (post := anything); [lia| |cbv beta; intros].
  { unfold when_. destruct (truthy_opt save_transcript);
      [apply keeps_write_file|apply keeps_ret; exact I]. }
  eapply keeps_bind with (post := anything); [lia| |].
  { destruct (chunk_text transcript 7000); [apply keeps_ret; exact I|].
    eapply keeps_bind with (post := anything); [lia| |cbv beta; intros].
    { destruct (truthy_opt save_partials); [|apply keeps_ret; exact I].
      keeps_chain. unfold when_. destruct (negb _);
        [apply keeps_mkdir|apply keeps_ret; exact I]. }
    apply keeps_summarize_chunks. lia. }
  cbv beta. intros partial_summaries w2 Hn2 Hs2 _.
  eapply keeps_bind with (post := anything); [lia| |cbv beta; intros].
  { destruct partial_summaries; apply keeps_consolidate_summaries; lia. }
  eapply keeps_bind; [lia|apply keeps_build_docx; lia|]. cbv beta. intros.
  apply keeps_ret. exact I.
Qed.

Lemma keeps_generate w client audio_path output_path metadata language_hint
    save_transcript save_partials prompt_for_metadata :
  n <= length (heap w) ->
  keeps n w anything
    (generate client audio_path output_path metadata language_hint save_transcript
       save_partials prompt_for_metadata w).
Proof.
  intros Hn. unfold generate.
  eapply keeps_bind; [lia|apply keeps_prepare_metadata; lia|]. cbv beta. intros.
  eapply keeps_bind; [lia|apply keeps_transcribe_audio; lia|]. cbv beta. intros.
  cbv zeta. apply keeps_minutes_from_transcript. lia.
Qed.

End KeepsPipeline.

(** ** Exact outcomes of single steps *)

Lemma bind_ok {A B} (m : M A) (f : A -> M B) w a w1 :
  m w = (Ok a, w1) -> (m ≫= f) w = f a w1.
Proof. unfold mbind, M_bind. intros ->. reflexivity. Qed.

Lemma bind_raise {A B} (m : M A) (f : A -> M B) w e w1 :
  m w = (Raise e, w1) -> (m ≫= f) w = (Raise e, w1).
Proof. unfold mbind, M_bind. intros ->. reflexivity. Qed.

Lemma ret_bind' {A B} (a : A) (f : A -> M B) w : (mret a ≫= f) w = f a w.
Proof. reflexivity. Qed.

Definition whisper_request (content : blob) (language_hint : str) : transcription_request :=
  mkTranscription (py "whisper-1") content language_hint (py "text").

(** The two file operations of [transcribe_audio] and their answers. *)
Definition audio_found (w : world) (audio_path : str) : answer bool :=
  os_exists (env w) (io w) (Path audio_path).

Definition audio_opened (w : world) (audio_path : str) : answer blob :=
  os_read (env w) (io w ++ [IoExists (Path audio_path) (audio_found w audio_path)])
          (Path audio_path).

Definition audio_checked (w : world) (audio_path : str) : world :=
  with_io (io w ++ [IoExists (Path audio_path) (audio_found w audio_path)]) w.

Definition audio_read (w : world) (audio_path : str) : world :=
  with_io (io w ++ [IoExists (Path audio_path) (audio_found w audio_path);
                    IoRead (Path audio_path) (audio_opened w audio_path)]) w.

Lemma transcribe_audio_cases client audio_path language_hint w :
  transcribe_audio client audio_path language_hint w
  = match audio_found w audio_path with
    | Failed e => (Raise (IOFailed e), audio_checked w audio_path)
    | Done false =>
        (Raise (FileNotFoundError (py "Audiodatei nicht gefunden: " ++ audio_path)),
         audio_checked w audio_path)
    | Done true =>
        match audio_opened w audio_path with
        | Failed e => (Raise (IOFailed e), audio_read w audio_path)
        | Done content =>
            (Ok (transcription_text
                   (transcriptions_create client (whisper_request content language_hint))),
             with_calls (calls w ++ [CallTranscription (whisper_request content language_hint)])
                        (audio_read w audio_path))
        end
    end.
Proof.
  unfold transcribe_audio, audio_checked, audio_read, audio_opened, audio_found. cbv zeta.
  pose proof (path_exists_outcome (Path audio_path) w) as Hx.
  destruct (os_exists (env w) (io w) (Path audio_path)) as [[|]|e]; simpl raised in Hx.
  - rewrite (bind_ok _ _ _ _ _ Hx). change (negb true) with false. cbv iota.
    pose proof (open_rb_outcome (Path audio_path)
                  (with_io (io w ++ [IoExists (Path audio_path) (Done true)]) w)) as Ho.
    simpl io in Ho. simpl env in Ho.
    destruct (os_read (env w) (io w ++ [IoExists (Path audio_path) (Done true)])
                      (Path audio_path)) as [content|e]; simpl raised in Ho.
    + rewrite (bind_ok _ _ _ _ _ Ho). unfold log_call, modify, mbind, M_bind. simpl.
      rewrite <- app_assoc. reflexivity.
    + rewrite (bind_raise _ _ _ _ _ Ho). simpl. rewrite <- app_assoc. reflexivity.
  - rewrite (bind_ok _ _ _ _ _ Hx). reflexivity.
  - rewrite (bind_raise _ _ _ _ _ Hx). reflexivity.
Qed.

Lemma read_metadata_ok l w m :
  snapshot (heap w) l = Some m -> read_metadata l w = (Ok m, w).
Proof. intros H. unfold read_metadata. rewrite H. reflexivity. Qed.

Definition chat_request_of (system_prompt user_prompt : str) : chat_request :=
  mkChat (py "gpt-4o-mini")
         [mkMsg (py "system") system_prompt; mkMsg (py "user") user_prompt] temperature.

Lemma chat_outcome client system_prompt user_prompt w :
  chat client system_prompt user_prompt w
  = (Ok (strip (chat_completions_create client (chat_request_of system_prompt user_prompt))),
     with_calls (calls w ++ [CallChat (chat_request_of system_prompt user_prompt)]) w).
Proof. reflexivity. Qed.

(** The request [consolidate_summaries] sends for the given summaries. *)
Definition consolidation_request (summaries : list str) (m : MeetingMetadata) : chat_request :=
  chat_request_of consolidate_system_prompt (consolidate_user_prompt summaries m).

Lemma consolidate_summaries_outcome client summaries meta w m :
  snapshot (heap w) meta = Some m ->
  consolidate_summaries client summaries meta w
  = (Ok (strip (chat_completions_create client (consolidation_request summaries m))),
     with_calls (calls w ++ [CallChat (consolidation_request summaries m)]) w).
Proof.
  intros H. unfold consolidate_summaries.
  rewrite (bind_ok _ _ _ _ _ (read_metadata_ok _ _ _ H)). apply chat_outcome.
Qed.

Lemma build_docx_outcome text out_path meta w m :
  snapshot (heap w) meta = Some m ->
  build_docx text out_path meta w
  = if docx_accepted (xml_ok (env w)) (docx_document text m (now_minute w))
    then write_file (PathStr out_path) (Docx (docx_document text m (now_minute w))) w
    else (Raise ValueError, w).
Proof.
  intros H. unfold build_docx.
  rewrite (bind_ok _ _ _ _ _ (read_metadata_ok _ _ _ H)).
  unfold gets, mbind, M_bind. cbv zeta.
  destruct (docx_accepted _ _); reflexivity.
Qed.

Lemma snapshot_prefix h h' l m :
  take (length h) h' = h -> snapshot h l = Some m -> snapshot h' l = Some m.
Proof.
  intros Ht.
  assert (P : forall (i : loc) o, h !! i = Some o -> h' !! i = Some o).
  { intros i o Hi. rewrite <- Ht in Hi. apply lookup_take_Some in Hi as [Hi _]. exact Hi. }
  unfold snapshot. destruct (h !! l) as [[items|mo]|] eqn:E; try discriminate.
  rewrite (P _ _ E).
  destruct (h !! teilnehmer mo) as [[i1|]|] eqn:E1; try discriminate. rewrite (P _ _ E1).
  destruct (h !! gaeste mo) as [[i2|]|] eqn:E2; try discriminate. rewrite (P _ _ E2).
  destruct (h !! agenda mo) as [[i3|]|] eqn:E3; try discriminate. rewrite (P _ _ E3).
  destruct (h !! ziele mo) as [[i4|]|] eqn:E4; try discriminate. rewrite (P _ _ E4).
  destruct (h !! hinweise mo) as [[i5|]|] eqn:E5; try discriminate. rewrite (P _ _ E5).
  trivial.
Qed.

Lemma keeps_all {A} w (post : A -> world -> Prop) x :
  keeps (length (heap w)) w post x ->
  take (length (heap w)) (heap x.2) = heap w
  /\ (forall l m, snapshot (heap w) l = Some m -> snapshot (heap x.2) l = Some m)
  /\ x.1 <> Raise OutOfFuel
  /\ (forall a, x.1 = Ok a -> post a x.2).
Proof.
  intros (Ht & _ & _ & Hr). rewrite firstn_all in Ht.
  split; [exact Ht|]. split; [intros l m; apply snapshot_prefix; exact Ht|].
  destruct x.1 as [a|e]; split.
  - discriminate.
  - intros b [= <-]. exact Hr.
  - intros [= ->]. apply Hr. reflexivity.
  - intros b. discriminate.
Qed.

(** ** [copy.deepcopy] gives an equal record made of new objects *)

(** Every list the memo knows has a copy with the same items, allocated after
    the first [n] objects. *)
Definition memo_ok (n : nat) (h : list obj) (memo : list (loc * loc)) : Prop :=
  forall o c, In (o, c) memo ->
    n <= c /\ exists items, h !! o = Some (OList items) /\ h !! c = Some (OList items).

Lemma lookup_extend (h ext : list obj) (l : loc) o :
  h !! l = Some o -> (h ++ ext) !! l = Some o.
Proof. intros H. rewrite lookup_app_l; [exact H|]. eapply lookup_lt_Some, H. Qed.

Lemma memo_ok_extend n h ext memo : memo_ok n h memo -> memo_ok n (h ++ ext) memo.
Proof.
  intros H o c Hin. destruct (H o c Hin) as (Hc & items & H1 & H2).
  split; [exact Hc|]. exists items. split; apply lookup_extend; assumption.
Qed.

Lemma deepcopy_list_outcome n memo l w items :
  n <= length (heap w) ->
  memo_ok n (heap w) memo ->
  heap w !! l = Some (OList items) ->
  exists l' memo' w',
    deepcopy_list memo l w = (Ok (l', memo'), w')
    /\ (exists ext, heap w' = heap w ++ ext)
    /\ memo_ok n (heap w') memo'
    /\ heap w' !! l' = Some (OList items)
    /\ n <= l'.
Proof.
  intros Hn Hmemo Hl. unfold deepcopy_list.
  destruct (List.find (fun e => Nat.eqb e.1 l) memo) as [[o c]|] eqn:F.
  - apply find_some in F as [Hin Ho]. simpl in Ho. apply Nat.eqb_eq in Ho. subst o.
    destruct (Hmemo l c Hin) as (Hc & items' & H1 & H2).
    assert (items' = items) by congruence. subst items'.
    exists c, memo, w. split; [reflexivity|].
    split; [exists []; rewrite app_nil_r; reflexivity|].
    split; [exact Hmemo|]. split; [exact H2|exact Hc].
  - exists (length (heap w)), ((l, length (heap w)) :: memo),
      (with_heap (heap w ++ [OList items]) w).
    split.
    { unfold mbind, M_bind, load_list. rewrite Hl. reflexivity. }
    split; [exists [OList items]; reflexivity|]. simpl.
    assert (Hnew : (heap w ++ [OList items]) !! length (heap w) = Some (OList items))
      by apply list_lookup_middle, eq_refl.
    split; [|split; [exact Hnew|exact Hn]].
    intros o c [[= <- <-]|Hin].
    + split; [exact Hn|]. exists items. split; [apply lookup_extend; exact Hl|exact Hnew].
    + exact (memo_ok_extend _ _ _ _ Hmemo o c Hin).
Qed.

Lemma deepcopy_outcome x w m :
  snapshot (heap w) x = Some m ->
  exists l w',
    deepcopy x w = (Ok l, w')
    /\ length (heap w) <= l
    /\ (exists ext, heap w' = heap w ++ ext)
    /\ snapshot (heap w') l = Some m
    /\ exists copied,
         heap w' !! l = Some (OMeta copied)
         /\ Forall (fun r => length (heap w) <= r)
                   [teilnehmer copied; gaeste copied; agenda copied; ziele copied;
                    hinweise copied].
Proof.
  unfold snapshot. destruct (heap w !! x) as [[|mo]|] eqn:Ex; try discriminate.
  destruct (heap w !! teilnehmer mo) as [[i1|]|] eqn:E1; try discriminate.
  destruct (heap w !! gaeste mo) as [[i2|]|] eqn:E2; try discriminate.
  destruct (heap w !! agenda mo) as [[i3|]|] eqn:E3; try discriminate.
  destruct (heap w !! ziele mo) as [[i4|]|] eqn:E4; try discriminate.
  destruct (heap w !! hinweise mo) as [[i5|]|] eqn:E5; try discriminate.
  simpl. intros [= <-].
  set (n := length (heap w)).
  assert (M0 : memo_ok n (heap w) []) by (intros o c []).
  destruct (deepcopy_list_outcome n [] _ w i1 (le_n _) M0 E1)
    as (l1 & memo1 & w1 & R1 & [x1 X1] & M1 & L1 & F1).
  assert (N1 : n <= length (heap w1)) by (rewrite X1, length_app; unfold n; lia).
  assert (E2' : heap w1 !! gaeste mo = Some (OList i2))
    by (rewrite X1; apply lookup_extend; exact E2).
  destruct (deepcopy_list_outcome n memo1 _ w1 i2 N1 M1 E2')
    as (l2 & memo2 & w2 & R2 & [x2 X2] & M2 & L2 & F2).
  assert (N2 : n <= length (heap w2)) by (rewrite X2, length_app; lia).
  assert (E3' : heap w2 !! agenda mo = Some (OList i3))
    by (rewrite X2, X1; do 2 apply lookup_extend; exact E3).
  destruct (deepcopy_list_outcome n memo2 _ w2 i3 N2 M2 E3')
    as (l3 & memo3 & w3 & R3 & [x3 X3] & M3 & L3 & F3).
  assert (N3 : n <= length (heap w3)) by (rewrite X3, length_app; lia).
  assert (E4' : heap w3 !! ziele mo = Some (OList i4))
    by (rewrite X3, X2, X1; do 3 apply lookup_extend; exact E4).
  destruct (deepcopy_list_outcome n memo3 _ w3 i4 N3 M3 E4')
    as (l4 & memo4 & w4 & R4 & [x4 X4] & M4 & L4 & F4).
  assert (N4 : n <= length (heap w4)) by (rewrite X4, length_app; lia).
  assert (E5' : heap w4 !! hinweise mo = Some (OList i5))
    by (rewrite X4, X3, X2, X1; do 4 apply lookup_extend; exact E5).
  destruct (deepcopy_list_outcome n memo4 _ w4 i5 N4 M4 E5')
    as (l5 & memo5 & w5 & R5 & [x5 X5] & M5 & L5 & F5).
  exists (length (heap w5)), (with_heap (heap w5 ++ [OMeta
    (mkMeta (titel mo) (datum mo) (ort mo) (startzeit mo) (endzeit mo) (moderation mo)
            (protokoll mo) l1 l2 l3 l4 l5)]) w5).
  split.
  { unfold deepcopy.
    assert (Hx : load_meta x w = (Ok mo, w)) by (unfold load_meta; rewrite Ex; reflexivity).
    rewrite (bind_ok _ _ _ _ _ Hx), (bind_ok _ _ _ _ _ R1), (bind_ok _ _ _ _ _ R2),
      (bind_ok _ _ _ _ _ R3), (bind_ok _ _ _ _ _ R4), (bind_ok _ _ _ _ _ R5).
    reflexivity. }
  assert (Hext : exists ext, heap w5 = heap w ++ ext).
  { exists (x1 ++ x2 ++ x3 ++ x4 ++ x5). rewrite X5, X4, X3, X2, X1.
    rewrite <- !app_assoc. reflexivity. }
  split; [destruct Hext as [ext ->]; rewrite length_app; lia|].
  split.
  { destruct Hext as [ext ->]. eexists. simpl. rewrite <- app_assoc. reflexivity. }
  split.
  2: { eexists. split; [simpl; apply list_lookup_middle; reflexivity|].
       repeat constructor; assumption. }
  simpl.
  rewrite (list_lookup_middle (heap w5) [] _ (length (heap w5)) eq_refl).
  cbn [teilnehmer gaeste agenda ziele hinweise titel datum ort startzeit endzeit
       moderation protokoll].
  assert (L1' : heap w5 !! l1 = Some (OList i1))
    by (rewrite X5, X4, X3, X2; do 4 apply lookup_extend; exact L1).
  assert (L2' : heap w5 !! l2 = Some (OList i2))
    by (rewrite X5, X4, X3; do 3 apply lookup_extend; exact L2).
  assert (L3' : heap w5 !! l3 = Some (OList i3))
    by (rewrite X5, X4; do 2 apply lookup_extend; exact L3).
  assert (L4' : heap w5 !! l4 = Some (OList i4))
    by (rewrite X5; apply lookup_extend; exact L4).
  rewrite (lookup_extend _ _ _ _ L1'), (lookup_extend _ _ _ _ L2'),
    (lookup_extend _ _ _ _ L3'), (lookup_extend _ _ _ _ L4'), (lookup_extend _ _ _ _ L5).
  destruct mo; reflexivity.
Qed.

(** ** The pipeline after the transcription: requests and file operations *)

(** The request [summarize_chunk] sends for a chunk, and the summary it
    returns. *)
Definition summarize_request (chunk : str) : chat_request :=
  chat_request_of summarize_system_prompt (py "Textauszug:" ++ [nl; nl] ++ chunk).

Definition summary_of (client : OpenAI) (chunk : str) : str :=
  strip (chat_completions_create client (summarize_request chunk)).

Lemma summarize_chunk_outcome client chunk w :
  summarize_chunk client chunk w
  = (Ok (summary_of client chunk),
     with_calls (calls w ++ [CallChat (summarize_request chunk)]) w).
Proof. unfold summarize_chunk. cbv zeta. apply chat_outcome. Qed.

(** What [generate] hands to [consolidate_summaries]: the summaries of the
    chunks, or the transcript itself when there is no chunk. *)
Definition summaries_of (client : OpenAI) (transcript : str) : list str :=
  match chunk_text transcript 7000 with
  | [] => [transcript]
  | chunks => map (summary_of client) chunks
  end.

(** The requests sent after the transcription, in order. *)
Definition chat_calls (client : OpenAI) (transcript : str) (m : MeetingMetadata)
  : list call :=
  map (fun chunk => CallChat (summarize_request chunk)) (chunk_text transcript 7000)
  ++ [CallChat (consolidation_request (summaries_of client transcript) m)].

(** The text of the minutes: the stripped answer to the consolidation. *)
Definition final_minutes (client : OpenAI) (transcript : str) (m : MeetingMetadata) : str :=
  strip (chat_completions_create client
           (consolidation_request (summaries_of client transcript) m)).

Definition partial_name (index : nat) : str := py "teil_" ++ dec02 index ++ py ".md".

(** The file operations of [generate] after the transcription: the transcript
    file is written, the directory of the partial summaries is looked for and
    made, the numbered files in it are written, the document is saved. *)
Definition named (output_path : str) (save_transcript save_partials : option str)
    (ev : io_event) : Prop :=
  (exists content r, ev = IoWrite (PathStr output_path) content r)
  \/ (exists p content r, save_transcript = Some p /\ ev = IoWrite (Path p) content r)
  \/ (exists d, save_partials = Some d
                /\ ((exists r, ev = IoExists (Path d) r)
                    \/ (exists r, ev = IoMkdir (Path d) r)
                    \/ (exists index content r,
                          ev = IoWrite (PathDiv (Path d) (partial_name index)) content r))).

(** [proceeds allowed w post x]: the run from [w] to [x] left the store, the
    console, the clock and the environment alone, added [allowed] file
    operations and calls to those on record, and ended with [post], or with
    the failure of a file operation, the [ValueError] of python-docx, or a
    [TypeError]. *)
Definition proceeds {A} (allowed : io_event -> Prop) (w : world)
    (post : A -> world -> Prop) (x : result A * world) : Prop :=
  heap x.2 = heap w /\ stdin x.2 = stdin w /\ stdout x.2 = stdout w
  /\ now_date x.2 = now_date w /\ now_minute x.2 = now_minute w /\ env x.2 = env w
  /\ (exists done, io x.2 = io w ++ done /\ Forall allowed done)
  /\ (exists made, calls x.2 = calls w ++ made)
  /\ match x.1 with
     | Ok a => post a x.2
     | Raise e => (exists f, e = IOFailed f) \/ e = ValueError \/ e = TypeError
     end.

Section Proceeds.
Variable allowed : io_event -> Prop.

Lemma proceeds_bind {A B} (m : M A) (f : A -> M B) w post post' :
  proceeds allowed w post (m w) ->
  (forall a w1, heap w1 = heap w -> now_minute w1 = now_minute w -> env w1 = env w ->
     post a w1 -> proceeds allowed w1 post' (f a w1)) ->
  proceeds allowed w post' ((m ≫= f) w).
Proof.
  unfold proceeds, mbind, M_bind.
  intros (Hh & Hi & Ho & Hd & Hm & He & (done & Hio & Hal) & [made Hc] & Hr) H.
  destruct (m w) as [[a|e] w1]; simpl in *.
  - destruct (H a w1 Hh Hm He Hr)
      as (Hh' & Hi' & Ho' & Hd' & Hm' & He' & (done' & Hio' & Hal') & [made' Hc'] & Hr').
    repeat split; try congruence.
    + exists (done ++ done'). rewrite Hio', Hio, app_assoc. split; [reflexivity|].
      apply Forall_app; split; assumption.
    + exists (made ++ made'). rewrite Hc', Hc, app_assoc. reflexivity.
  - repeat split; try assumption; [exists done; auto|exists made; exact Hc].
Qed.

Lemma proceeds_weaken {A} w (post post' : A -> world -> Prop) x :
  proceeds allowed w post x ->
  (forall a, heap x.2 = heap w -> post a x.2 -> post' a x.2) ->
  proceeds allowed w post' x.
Proof.
  unfold proceeds. intros (Hh & Hi & Ho & Hd & Hm & He & Hio & Hc & Hr) H.
  repeat split; try assumption. destruct x.1; [apply H; assumption|exact Hr].
Qed.

Lemma proceeds_same {A} w (post : A -> world -> Prop) (a : A) :
  post a w -> proceeds allowed w post (Ok a, w).
Proof.
  intros H. unfold proceeds. simpl. repeat split; auto.
  - exists []. split; [symmetry; apply app_nil_r|constructor].
  - exists []. symmetry. apply app_nil_r.
Qed.

Lemma proceeds_ret {A} w (post : A -> world -> Prop) (a : A) :
  post a w -> proceeds allowed w post ((mret a : M A) w).
Proof. apply proceeds_same. Qed.

Lemma proceeds_raise {A} w (post : A -> world -> Prop) e :
  (exists f, e = IOFailed f) \/ e = ValueError \/ e = TypeError ->
  proceeds allowed w post (raise e w).
Proof.
  intros H. unfold proceeds, raise. simpl. repeat split; auto.
  - exists []. split; [symmetry; apply app_nil_r|constructor].
  - exists []. symmetry. apply app_nil_r.
Qed.

Lemma proceeds_io_step {A} w (ask : environment -> list io_event -> answer A) event :
  (forall r, allowed (event r)) ->
  proceeds allowed w
    (fun a w' => calls w' = calls w /\ io w' = io w ++ [event (Done a)]
                 /\ ask (env w) (io w) = Done a)
    (io_step ask event w).
Proof.
  intros Hal. rewrite io_step_outcome. unfold proceeds, raised.
  assert (Hio : exists done,
            io w ++ [event (ask (env w) (io w))] = io w ++ done /\ Forall allowed done).
  { eexists. split; [reflexivity|].
    apply List.Forall_cons; [apply Hal|apply List.Forall_nil]. }
  assert (Hc : exists made, calls w = calls w ++ made)
    by (exists []; symmetry; apply app_nil_r).
  destruct (ask (env w) (io w)) as [a|e] eqn:E; simpl.
  - repeat split; auto.
  - repeat split; auto. left. eauto.
Qed.

Lemma proceeds_write_file w p content :
  (forall r, allowed (IoWrite p content r)) ->
  proceeds allowed w
    (fun _ w' => calls w' = calls w /\ io w' = io w ++ [IoWrite p content (Done tt)])
    (write_file p content w).
Proof.
  intros Hal. eapply proceeds_weaken; [apply proceeds_io_step; exact Hal|].
  cbv beta. intros [] _ (H1 & H2 & _). auto.
Qed.

Lemma proceeds_mkdir_missing w p :
  (forall r, allowed (IoExists p r)) -> (forall r, allowed (IoMkdir p r)) ->
  proceeds allowed w (fun _ w' => calls w' = calls w)
           ((found ← path_exists p; when_ (negb found) (mkdir p)) w).
Proof.
  intros H1 H2. eapply proceeds_bind; [apply proceeds_io_step; exact H1|].
  cbv beta. intros found w1 _ _ _ (Hc & _). unfold when_.
  destruct (negb found); [|apply proceeds_ret; exact Hc].
  eapply proceeds_weaken; [apply proceeds_io_step; exact H2|].
  cbv beta. intros _ _ (Hc' & _). congruence.
Qed.

Lemma proceeds_chat client system_prompt user_prompt w :
  proceeds allowed w
    (fun a w' =>
       a = strip (chat_completions_create client (chat_request_of system_prompt user_prompt))
       /\ calls w' = calls w ++ [CallChat (chat_request_of system_prompt user_prompt)]
       /\ io w' = io w)
    (chat client system_prompt user_prompt w).
Proof.
  rewrite chat_outcome. unfold proceeds. simpl. repeat split; auto.
  - exists []. split; [symmetry; apply app_nil_r|constructor].
  - eexists. reflexivity.
Qed.

Lemma proceeds_read_metadata w l :
  proceeds allowed w (fun m w' => w' = w /\ snapshot (heap w) l = Some m) (read_metadata l w).
Proof.
  unfold proceeds, read_metadata. destruct (snapshot (heap w) l) as [m|]; simpl;
    (repeat split; auto;
     [exists []; split; [symmetry; apply app_nil_r|constructor]
     |exists []; symmetry; apply app_nil_r]).
Qed.

End Proceeds.

Lemma proceeds_allowed {A} (allowed allowed' : io_event -> Prop) w
    (post : A -> world -> Prop) x :
  (forall ev, allowed ev -> allowed' ev) ->
  proceeds allowed w post x -> proceeds allowed' w post x.
Proof.
  unfold proceeds. intros Hal (Hh & Hi & Ho & Hd & Hm & He & (done & Hio & Hf) & Hc & Hr).
  repeat split; try assumption. exists done. split; [exact Hio|].
  eapply Forall_impl; [exact Hf|exact Hal].
Qed.

(** The writes of the partial summaries. *)
Definition partial_files (partial_dir : option path) (ev : io_event) : Prop :=
  exists d index content r,
    partial_dir = Some d /\ ev = IoWrite (PathDiv d (partial_name index)) content r.

Lemma proceeds_summarize_chunks client partial_dir chunks :
  forall index partial_summaries w,
  proceeds (partial_files partial_dir) w
    (fun summaries w' =>
       summaries = partial_summaries ++ map (summary_of client) chunks
       /\ calls w' = calls w ++ map (fun chunk => CallChat (summarize_request chunk)) chunks)
    (summarize_chunks client partial_dir index chunks partial_summaries w).
Proof.
  induction chunks as [|chunk rest IH]; intros index partial_summaries w; simpl.
  - apply proceeds_ret. rewrite !app_nil_r. auto.
  - eapply proceeds_bind
      with (post := fun summary w' =>
              summary = summary_of client chunk
              /\ calls w' = calls w ++ [CallChat (summarize_request chunk)]).
    { rewrite summarize_chunk_outcome. unfold proceeds. simpl. repeat split; auto.
      - exists []. split; [symmetry; apply app_nil_r|constructor].
      - eexists. reflexivity. }
    cbv beta. intros summary w1 Hh Hm He [-> Hc].
    eapply proceeds_bind
      with (post := fun _ w' => calls w' = calls w ++ [CallChat (summarize_request chunk)]).
    + destruct partial_dir as [d|].
      * eapply proceeds_weaken.
        -- apply proceeds_write_file. intros r. exists d, index, (Text (summary_of client chunk)), r.
           auto.
        -- cbv beta. intros _ _ [E _]. rewrite E. exact Hc.
      * apply proceeds_ret. exact Hc.
    + cbv beta. intros _ w2 Hh2 Hm2 He2 Hc2.
      eapply proceeds_weaken; [apply IH|]. cbv beta. intros summaries _ [-> E].
      rewrite E, Hc2, <- !app_assoc. auto.
Qed.

Lemma proceeds_consolidate_summaries allowed client summaries meta w :
  proceeds allowed w
    (fun final w' =>
       exists m, snapshot (heap w) meta = Some m
                 /\ final = strip (chat_completions_create client
                                     (consolidation_request summaries m))
                 /\ calls w' = calls w ++ [CallChat (consolidation_request summaries m)])
    (consolidate_summaries client summaries meta w).
Proof.
  unfold consolidate_summaries.
  eapply proceeds_bind; [apply proceeds_read_metadata|].
  cbv beta. intros m w1 _ _ _ [-> Hm].
  eapply proceeds_weaken; [apply proceeds_chat|]. cbv beta.
  intros final _ (-> & Hc & Hf). exists m. auto.
Qed.

Lemma proceeds_build_docx allowed text out_path meta w :
  (forall content r, allowed (IoWrite (PathStr out_path) content r)) ->
  proceeds allowed w
    (fun _ w' =>
       calls w' = calls w
       /\ exists m, snapshot (heap w) meta = Some m
                    /\ docx_accepted (xml_ok (env w)) (docx_document text m (now_minute w))
                       = true
                    /\ io w'
                       = io w ++ [IoWrite (PathStr out_path)
                                          (Docx (docx_document text m (now_minute w)))
                                          (Done tt)])
    (build_docx text out_path meta w).
Proof.
  intros Hal. destruct (snapshot (heap w) meta) as [m|] eqn:Hm.
  - rewrite (build_docx_outcome text out_path meta w m Hm).
    destruct (docx_accepted _ _) eqn:Ea.
    + eapply proceeds_weaken; [apply proceeds_write_file; intros r; apply Hal|].
      cbv beta. intros _ _ [Hc Hio]. split; [exact Hc|]. exists m. auto.
    + apply (proceeds_raise allowed w _ ValueError). auto.
  - unfold build_docx.
    eapply proceeds_bind; [apply proceeds_read_metadata|].
    cbv beta. intros m w1 _ _ _ [_ H]. congruence.
Qed.

Lemma proceeds_minutes_from_transcript client transcript output_path meta
    save_transcript save_partials w :
  proceeds (named output_path save_transcript save_partials) w
    (fun returned w' =>
       returned = output_path
       /\ exists m before,
            snapshot (heap w) meta = Some m
            /\ calls w' = calls w ++ chat_calls client transcript m
            /\ docx_accepted (xml_ok (env w))
                 (docx_document (final_minutes client transcript m) m (now_minute w)) = true
            /\ io w'
               = before ++ [IoWrite (PathStr output_path)
                                    (Docx (docx_document (final_minutes client transcript m)
                                                         m (now_minute w)))
                                    (Done tt)])
    (minutes_from_transcript client transcript output_path meta save_transcript
       save_partials w).
Proof.
  unfold minutes_from_transcript. cbv zeta.
  eapply proceeds_bind with (post := fun _ w' => calls w' = calls w).
  { unfold when_. destruct save_transcript as [[|c s]|]; simpl;
      try (apply proceeds_ret; reflexivity).
    eapply proceeds_weaken; [apply proceeds_write_file|].
    - intros r. right. left. exists (c :: s), (Text transcript), r. auto.
    - cbv beta. intros _ _ [E _]. exact E. }
  cbv beta. intros _ w1 Hh1 Hn1 He1 Hc1.
  eapply proceeds_bind
    with (post := fun l w' =>
            l = map (summary_of client) (chunk_text transcript 7000)
            /\ calls w' = calls w
                          ++ map (fun chunk => CallChat (summarize_request chunk))
                                 (chunk_text transcript 7000)).
  { destruct (chunk_text transcript 7000) as [|c cs] eqn:Ec.
    { apply proceeds_ret. simpl. rewrite app_nil_r. auto. }
    eapply proceeds_bind with (post := fun _ w' => calls w' = calls w).
    - destruct save_partials as [[|c' s']|]; simpl; try (apply proceeds_ret; exact Hc1).
      eapply proceeds_weaken; [apply proceeds_mkdir_missing|].
      + intros r. right. right. exists (c' :: s'). split; [reflexivity|]. left. eauto.
      + intros r. right. right. exists (c' :: s'). split; [reflexivity|]. right. left. eauto.
      + cbv beta. intros _ _ E. rewrite E. exact Hc1.
    - cbv beta. intros _ w2 Hh2 Hn2 He2 Hc2.
      eapply proceeds_weaken.
      + eapply proceeds_allowed; [|apply proceeds_summarize_chunks].
        intros ev (d & index & content & r & Hd & ->).
        destruct save_partials as [[|c' s']|]; simpl in Hd; try discriminate Hd.
        injection Hd as <-. right. right. exists (c' :: s'). split; [reflexivity|].
        right. right. eauto.
      + cbv beta. intros summaries _ [-> E]. rewrite E, Hc2. auto. }
  cbv beta. intros partial_summaries w2 Hh2 Hn2 He2 [-> Hc2].
  eapply proceeds_bind
    with (post := fun final w' =>
            exists m, snapshot (heap w) meta = Some m
                      /\ final = final_minutes client transcript m
                      /\ calls w' = calls w ++ chat_calls client transcript m).
  { assert (E : match map (summary_of client) (chunk_text transcript 7000) with
                | [] => consolidate_summaries client [transcript] meta
                | _ :: _ => consolidate_summaries client
                              (map (summary_of client) (chunk_text transcript 7000)) meta
                end = consolidate_summaries client (summaries_of client transcript) meta).
    { unfold summaries_of. destruct (chunk_text transcript 7000); reflexivity. }
    rewrite E. eapply proceeds_weaken; [apply proceeds_consolidate_summaries|].
    cbv beta. intros final _ (m & Hm & -> & Hc). exists m.
    split; [rewrite <- Hh1, <- Hh2; exact Hm|]. split; [reflexivity|].
    rewrite Hc, Hc2. unfold chat_calls. rewrite app_assoc. reflexivity. }
  cbv beta. intros final w3 Hh3 Hn3 He3 (m & Hm & -> & Hc3).
  eapply proceeds_bind
    with (post := fun _ w' =>
            calls w' = calls w ++ chat_calls client transcript m
            /\ docx_accepted (xml_ok (env w))
                 (docx_document (final_minutes client transcript m) m (now_minute w)) = true
            /\ exists before,
                 io w'
                 = before ++ [IoWrite (PathStr output_path)
                                      (Docx (docx_document
                                               (final_minutes client transcript m) m
                                               (now_minute w)))
                                      (Done tt)]).
  { eapply proceeds_weaken.
    - apply proceeds_build_docx. intros content r. left. eauto.
    - cbv beta. intros _ _ (Hc & m' & Hm' & Ha & Hio).
      rewrite Hh3, Hh2, Hh1, Hm in Hm'. injection Hm' as <-.
      rewrite He3, He2, He1, Hn3, Hn2, Hn1 in Ha. rewrite Hn3, Hn2, Hn1 in Hio.
      rewrite Hc, Hc3. split; [reflexivity|]. split; [exact Ha|]. eauto. }
  cbv beta. intros _ w4 Hh4 Hn4 He4 (Hc4 & Ha4 & before & Hio4).
  apply proceeds_ret. split; [reflexivity|]. exists m, before. auto.
Qed.

(** ** The document writer: the claim *)

(** Example environments.  [xml_compatible] is the rule of lxml: no NUL and no
    control character but tab, newline and carriage return, no surrogate, not
    U+FFFE or U+FFFF. *)
Definition xml_char (c : N) : bool :=
  ((c =? 9) || (c =? 10) || (c =? 13) || (32 <=? c))%N
  && negb ((55296 <=? c) && (c <=? 57343))%N
  && negb ((c =? 65534) || (c =? 65535))%N.

Definition xml_compatible (s : str) : bool := forallb xml_char s.

(** Every path exists and reads as [content], every write succeeds. *)
Definition obliging (content : blob) : environment :=
  mkEnv (fun _ _ => Done true) (fun _ _ => Done content) (fun _ _ _ => Done tt)
        (fun _ _ => Done tt) xml_compatible.

(** Every path is an existing directory. *)
Definition directories : environment :=
  mkEnv (fun _ _ => Done true) (fun _ _ => Failed EISDIR) (fun _ _ _ => Failed EISDIR)
        (fun _ _ => Done tt) xml_compatible.

Definition record_world (e : environment) : world :=
  mkWorld [OList []; OMeta (mkMeta (py "Sitzung") None None None None None None 0 0 0 0 0)]
          [] [] [] [] (py "2025-10-01") (py "2025-10-01 09:00") e.

(** C7 (as stated, refuted): a bullet line that ends with a colon is a bold
    label; a heading with one leading hash sign and another hash sign further
    on is set in 12pt; and for a text with a control character (here a
    vertical tab) python-docx raises [ValueError], so that no document is
    written at all. *)
Lemma build_docx_bold_bullet_and_rejected_text :
  (is_bullet (py "- x:") = true
   /\ body_paragraph (py "- x:") = mkPar [mkRun (py "- x:") true None] None None)
  /\ body_paragraph (py "# Punkt #1")
     = mkPar [mkRun (py "Punkt #1") true (Some 12%N)] None None
  /\ build_docx (py "a" ++ [11%N] ++ py "b") (py "Protokoll.docx") 1
                (record_world (obliging (Raw [])))
     = (Raise ValueError, record_world (obliging (Raw []))).
Proof. repeat split; vm_compute; reflexivity. Qed.

(** C7 (amended): the document [build_docx] builds is the front matter, then
    exactly one paragraph per line of the text, in order, then the footer.  A
    body paragraph is bold exactly when its stripped line starts with a hash
    sign (a bold run of 14pt when the stripped line holds exactly one hash
    sign, of 12pt otherwise) or, failing that, ends with a colon and is
    shorter than 120 characters (a bold run of the stripped line), bullet
    lines included; every other line, a bullet line or not, gives a paragraph
    without a bold run.  When python-docx accepts every string of the
    document, [build_docx] asks the operating system to save it at the output
    path, its one file operation, and returns if that succeeds; otherwise it
    raises [ValueError] and no file operation takes place. *)
Theorem build_docx_one_paragraph_per_line (text : str) (meta : MeetingMetadata)
    (stamp : str) :
  exists body : list paragraph,
    docx_document text meta stamp = docx_front meta ++ body ++ docx_back stamp
    /\ length body = length (split nl text)
    /\ Forall2 line_rendering (split nl text) body
    /\ (forall (w : world) (out_path : str) (record : loc),
          snapshot (heap w) record = Some meta ->
          let document := docx_document text meta (now_minute w) in
          let answered := os_write (env w) (io w) (PathStr out_path) (Docx document) in
          build_docx text out_path record w
          = if docx_accepted (xml_ok (env w)) document
            then (match answered with
                  | Done _ => Ok tt
                  | Failed e => Raise (IOFailed e)
                  end,
                  with_io (io w ++ [IoWrite (PathStr out_path) (Docx document) answered]) w)
            else (Raise ValueError, w)).
Proof.
  exists (map body_paragraph (split nl text)).
  split; [reflexivity|]. split; [apply length_map|]. split.
  - induction (split nl text) as [|line lines IH]; simpl; constructor.
    + apply body_paragraph_rendering.
    + exact IH.
  - intros w out_path record Hs. cbv zeta.
    rewrite (build_docx_outcome text out_path record w meta Hs), write_file_outcome.
    destruct (docx_accepted _ _); [|reflexivity].
    destruct (os_write _ _ _ _) as [[]|e]; reflexivity.
Qed.

(** ** The transcription adapter: the claim *)

Definition silent_client : OpenAI := mkClient (fun _ => TrStr []) (fun _ => []).

Definition directory_world : world :=
  mkWorld [] [] [] [] [] (py "2025-10-01") (py "2025-10-01 09:00") directories.

(** C5 (as stated, refuted): a path that exists but names a directory passes the
    existence check, and opening it raises. *)
Lemma transcribe_audio_raises_on_directory :
  audio_found directory_world (py "/tmp") = Done true
  /\ (transcribe_audio silent_client (py "/tmp") (py "de") directory_world).1
     = Raise (IOFailed EISDIR).
Proof. split; vm_compute; reflexivity. Qed.

(** C5 (amended): [transcribe_audio] raises its [FileNotFoundError] exactly when
    the existence check of the audio path answers no, and then nothing is
    opened and nothing is sent; a path that exists can still fail to open (a
    directory, say), and then the error of the opening is raised and nothing
    is sent; when the path exists and is opened and read, the transcription
    request is sent and the text of the answer is returned, and the text
    [generate] passes on to the rest of the pipeline is that text with leading
    and trailing whitespace removed. *)
Theorem transcribe_audio_errors_and_text (client : OpenAI)
    (audio_path language_hint : str) (w : world) :
  let x := transcribe_audio client audio_path language_hint w in
  ((exists msg, x.1 = Raise (FileNotFoundError msg))
   <-> audio_found w audio_path = Done false)
  /\ (audio_found w audio_path = Done false ->
      x = (Raise (FileNotFoundError (py "Audiodatei nicht gefunden: " ++ audio_path)),
           audio_checked w audio_path))
  /\ (forall e, audio_found w audio_path = Done true ->
                audio_opened w audio_path = Failed e ->
      x = (Raise (IOFailed e), audio_read w audio_path))
  /\ (forall content, audio_found w audio_path = Done true ->
                      audio_opened w audio_path = Done content ->
      x = (Ok (transcription_text
                 (transcriptions_create client (whisper_request content language_hint))),
           with_calls (calls w ++ [CallTranscription (whisper_request content language_hint)])
                      (audio_read w audio_path)))
  /\ (forall content output_path metadata save_transcript save_partials
             prompt_for_metadata w0 meta,
      prepare_metadata metadata prompt_for_metadata w0 = (Ok meta, w) ->
      audio_found w audio_path = Done true ->
      audio_opened w audio_path = Done content ->
      generate client audio_path output_path metadata language_hint save_transcript
               save_partials prompt_for_metadata w0
      = minutes_from_transcript client
          (strip (transcription_text
                    (transcriptions_create client (whisper_request content language_hint))))
          output_path meta save_transcript save_partials
          (with_calls (calls w ++ [CallTranscription (whisper_request content language_hint)])
                      (audio_read w audio_path))).
Proof.
  cbv zeta.
  pose proof (transcribe_audio_cases client audio_path language_hint w) as Hc.
  split; [split|split; [|split; [|split]]].
  - intros [msg H]. rewrite Hc in H.
    destruct (audio_found w audio_path) as [[|]|e]; [|reflexivity|discriminate H].
    destruct (audio_opened w audio_path); discriminate H.
  - intros H. rewrite Hc, H. eexists. reflexivity.
  - intros H. rewrite Hc, H. reflexivity.
  - intros e H1 H2. rewrite Hc, H1, H2. reflexivity.
  - intros content H1 H2. rewrite Hc, H1, H2. reflexivity.
  - intros content output_path metadata save_transcript save_partials
           prompt_for_metadata w0 meta Hp H1 H2.
    unfold generate. rewrite (bind_ok _ _ _ _ _ Hp).
    rewrite H1, H2 in Hc. rewrite (bind_ok _ _ _ _ _ Hc). reflexivity.
Qed.

(** ** The caller's metadata record: the claim *)

(** C8: whatever [generate] and [collect_meeting_metadata] do, and however they
    end, every object that was in the store before the call is unchanged
    afterwards; in particular the caller's record reads as before in all its
    fields.  Both work on a deep copy: [deepcopy] returns a new record object
    that reads like the original and shares no list with it, and the record
    [collect_meeting_metadata] returns did not exist before the call.  (The
    loops of the model never run out of fuel.) *)
Theorem caller_metadata_unchanged (client : OpenAI)
    (audio_path output_path language_hint : str) (metadata base_meta : loc)
    (save_transcript save_partials : option str) (prompt_for_metadata : bool)
    (w : world) :
  let generated :=
    generate client audio_path output_path metadata language_hint save_transcript
             save_partials prompt_for_metadata w in
  let collected := collect_meeting_metadata base_meta w in
  (take (length (heap w)) (heap generated.2) = heap w
   /\ (forall m, snapshot (heap w) metadata = Some m ->
                 snapshot (heap generated.2) metadata = Some m)
   /\ generated.1 <> Raise OutOfFuel)
  /\ (take (length (heap w)) (heap collected.2) = heap w
      /\ (forall m, snapshot (heap w) base_meta = Some m ->
                    snapshot (heap collected.2) base_meta = Some m)
      /\ (forall meta, collected.1 = Ok meta -> length (heap w) <= meta)
      /\ collected.1 <> Raise OutOfFuel)
  /\ (forall x m, snapshot (heap w) x = Some m ->
        exists copy w',
          deepcopy x w = (Ok copy, w')
          /\ length (heap w) <= copy
          /\ snapshot (heap w') copy = Some m
          /\ take (length (heap w)) (heap w') = heap w
          /\ exists copied,
               heap w' !! copy = Some (OMeta copied)
               /\ Forall (fun r => length (heap w) <= r)
                         [teilnehmer copied; gaeste copied; agenda copied; ziele copied;
                          hinweise copied]).
Proof.
  cbv zeta. split; [|split].
  3: { intros x m Hm.
       destruct (deepcopy_outcome x w m Hm) as (l & w' & H1 & H2 & [ext H3] & H4 & H5).
       exists l, w'. split; [exact H1|]. split; [exact H2|]. split; [exact H4|].
       split; [rewrite H3; apply take_app_length|exact H5]. }
  - destruct (keeps_all w _ _ (keeps_generate (length (heap w)) w client audio_path
      output_path metadata language_hint save_transcript save_partials
      prompt_for_metadata (le_n _))) as (H1 & H2 & H3 & _).
    split; [exact H1|]. split; [intros m; apply H2|exact H3].
  - destruct (keeps_all w _ _ (keeps_collect_meeting_metadata (length (heap w)) w
      base_meta (le_n _))) as (H1 & H2 & H3 & H4).
    split; [exact H1|]. split; [intros m; apply H2|]. split; [exact H4|exact H3].
Qed.

(** ** The empty transcript: the claim *)




(** A run with the input mask: the user names the meeting, accepts every other
    default and confirms; the recording transcribes to blanks. *)
Definition blank_client : OpenAI :=
  mkClient (fun _ => TrStr (py "  ")) (fun _ => py " # Protokoll ").

Definition example_world : world :=
  mkWorld
    [OList [py "Anna"; py "Bert"]; OList [];
     OMeta (mkMeta (py "Sitzungsprotokoll") None None None None None None
                   0 1 1 1 1)]
    [py "Vorstand"; []; []; []; []; []; []; []; []; []; []; []; py "ja"]
    []
    []
    []
    (py "2025-10-01") (py "2025-10-01 09:00")
    (obliging (Raw [82%N; 73%N; 70%N; 70%N])).

Definition example_record : MeetingMetadata :=
  mkMeta (py "Vorstand") (Some (py "2025-10-01")) (Some []) (Some []) (Some []) (Some [])
         (Some []) [py "Anna"; py "Bert"] [] [] [] [].


(** ** More about stripping and splitting *)

Lemma lstrip_by_nil_all p s : lstrip_by p s = [] -> forallb p s = true.
Proof.
  induction s as [|c r IH]; simpl; [reflexivity|].
  destruct (p c); [exact IH|discriminate].
Qed.

Lemma strip_by_nil_all p s : strip_by p s = [] -> forallb p s = true.
Proof.
  unfold strip_by, rstrip_by. intros H.
  assert (Hr : lstrip_by p (rev (lstrip_by p s)) = []).
  { rewrite <- (rev_involutive (lstrip_by p (rev (lstrip_by p s)))), H. reflexivity. }
  apply lstrip_by_nil_all in Hr. rewrite forallb_forall in Hr.
  assert (Ht : lstrip_by p s = []).
  { pose proof (lstrip_by_head_ok p s) as Hh.
    destruct (lstrip_by p s) as [|c t] eqn:E; [reflexivity|].
    simpl in Hh. rewrite (Hr c) in Hh; [discriminate|].
    apply in_rev. rewrite rev_involutive. left. reflexivity. }
  apply lstrip_by_nil_all. exact Ht.
Qed.

Lemma strip_nil_iff s : strip s = [] <-> forallb isspace s = true.
Proof. split; [apply strip_by_nil_all|apply strip_by_all]. Qed.

Lemma split_covers sep s c : In c s -> c <> sep -> exists q, In q (split sep s) /\ In c q.
Proof.
  induction s as [|d r IH]; [intros []|]. intros Hin Hc. simpl.
  destruct (N.eqb_spec d sep) as [->|Hd].
  - destruct Hin as [->|Hin]; [congruence|].
    destruct (IH Hin Hc) as (q & Hq & Hcq). exists q. split; [right; exact Hq|exact Hcq].
  - destruct (split sep r) as [|h t] eqn:E; [exfalso; exact (split_nonempty _ _ E)|].
    destruct Hin as [->|Hin].
    + exists (c :: h). split; left; reflexivity.
    + destruct (IH Hin Hc) as (q & [<-|Hq] & Hcq).
      * exists (d :: h). split; [left; reflexivity|right; exact Hcq].
      * exists q. split; [right; exact Hq|exact Hcq].
Qed.

Lemma split_pieces_in sep s q c : In q (split sep s) -> In c q -> In c s.
Proof.
  revert q. induction s as [|d r IH]; simpl; intros q.
  - intros [<-|[]] [].
  - destruct (N.eqb_spec d sep) as [->|Hd].
    + intros [<-|Hq]; [intros []|]. intros Hc. right. exact (IH q Hq Hc).
    + destruct (split sep r) as [|h t] eqn:E; [exfalso; exact (split_nonempty _ _ E)|].
      intros [<-|Hq] Hc.
      * destruct Hc as [->|Hc]; [left; reflexivity|right].
        apply (IH h); [left; reflexivity|exact Hc].
      * right. apply (IH q); [right; exact Hq|exact Hc].
Qed.

Lemma split_join sep items :
  items <> [] -> Forall (fun x => ~ In sep x) items -> split sep (join [sep] items) = items.
Proof.
  induction items as [|x rest IH]; [congruence|]. intros _ Hall.
  apply Forall_cons in Hall as [Hx Hrest].
  destruct rest as [|y rest'].
  - simpl. apply split_no_sep. exact Hx.
  - change (join [sep] (x :: y :: rest')) with (x ++ sep :: join [sep] (y :: rest')).
    rewrite split_app, (split_no_sep _ _ Hx), IH; [reflexivity|discriminate|exact Hrest].
Qed.

Lemma filter_all_false {A} (f : A -> bool) l :
  (forall x, In x l -> f x = false) -> List.filter f l = [].
Proof.
  induction l as [|x l IH]; [reflexivity|]. intros H. simpl.
  rewrite (H x (or_introl eq_refl)). apply IH. intros y Hy. apply H. right. exact Hy.
Qed.

Lemma filter_all_true {A} (f : A -> bool) l :
  (forall x, In x l -> f x = true) -> List.filter f l = l.
Proof.
  induction l as [|x l IH]; [reflexivity|]. intros H. simpl.
  rewrite (H x (or_introl eq_refl)). f_equal. apply IH. intros y Hy. apply H. right. exact Hy.
Qed.

Lemma map_strip_clean items :
  Forall (fun x => strip x = x) items -> map strip items = items.
Proof. induction 1 as [|x l Hx _ IH]; simpl; [reflexivity|]. rewrite Hx, IH. reflexivity. Qed.

Lemma paragraphs_nil_iff text : paragraphs text = [] <-> forallb isspace text = true.
Proof.
  split.
  - intros H. apply forallb_forall. intros c Hc.
    destruct (N.eqb_spec c nl) as [->|Hnl]; [reflexivity|].
    destruct (split_covers nl text c Hc Hnl) as (q & Hq & Hcq).
    destruct (truthy (strip q)) eqn:Et.
    + exfalso. assert (Hin : In (strip q) (paragraphs text)).
      { unfold paragraphs. apply in_map. apply filter_In. split; assumption. }
      rewrite H in Hin. destruct Hin.
    + assert (Hs : strip q = []) by (destruct (strip q); [reflexivity|discriminate]).
      apply strip_nil_iff in Hs. rewrite forallb_forall in Hs. exact (Hs c Hcq).
  - intros H. unfold paragraphs. rewrite filter_all_false; [reflexivity|].
    intros q Hq. assert (Hs : strip q = []).
    { apply strip_nil_iff, forallb_forall. intros c Hc.
      rewrite forallb_forall in H. apply H. exact (split_pieces_in _ _ _ _ Hq Hc). }
    rewrite Hs. reflexivity.
Qed.

(** The chunks are decided by the paragraphs alone. *)
Definition chunks_of (target_chars : Z) (ps : list str) : list str :=
  let '(chunks, buffer) := chunk_loop target_chars ps ([], []) in
  if truthy buffer then chunks ++ [buffer] else chunks.

Lemma chunk_text_chunks_of text n : chunk_text text n = chunks_of n (paragraphs text).
Proof.
  unfold chunk_text, chunks_of. destruct text as [|c t]; [reflexivity|]. reflexivity.
Qed.

(** The loop keeps every finished chunk and the buffer non-empty and stripped,
    and keeps the buffer empty only as long as nothing has been read. *)
Definition clean (s : str) : Prop := s <> [] /\ tight isspace s.

Lemma chunk_loop_clean n ps :
  Forall clean ps ->
  forall chunks buffer, Forall clean chunks -> (buffer = [] \/ clean buffer) ->
    Forall clean (chunk_loop n ps (chunks, buffer)).1
    /\ ((chunk_loop n ps (chunks, buffer)).2 = [] \/ clean (chunk_loop n ps (chunks, buffer)).2).
Proof.
  unfold chunk_loop. induction 1 as [|q ps Hq _ IH]; intros chunks buffer Hc Hb.
  - simpl. auto.
  - cbn [fold_left]. unfold chunk_step at 2 4 6.
    destruct buffer as [|b0 bt].
    + simpl truthy. cbv iota. destruct (len q <=? n)%Z; apply IH; auto.
    + simpl truthy. cbv iota.
      destruct Hb as [Hb|Hb]; [discriminate|].
      assert (Hg : clean ((b0 :: bt) ++ nl :: q)).
      { destruct Hb as [Hb1 Hb2], Hq as [Hq1 Hq2]. split; [discriminate|].
        apply tight_glue; assumption. }
      change ((b0 :: bt) ++ [nl] ++ q) with ((b0 :: bt) ++ nl :: q).
      unfold strip. rewrite (strip_by_id _ _ (proj2 Hg)).
      destruct (len ((b0 :: bt) ++ nl :: q) <=? n)%Z; apply IH; auto.
      apply Forall_app. split; [exact Hc|]. constructor; [exact Hb|constructor].
Qed.

Lemma paragraphs_all_clean text : Forall clean (paragraphs text).
Proof.
  apply List.Forall_forall. intros q Hq.
  destruct (paragraphs_clean text q Hq) as (H1 & H2 & _). split; assumption.
Qed.

Lemma chunks_of_clean n ps : Forall clean ps -> Forall clean (chunks_of n ps).
Proof.
  intros Hps. unfold chunks_of.
  pose proof (chunk_loop_clean n ps Hps [] [] (List.Forall_nil _) (or_introl eq_refl)) as H.
  destruct (chunk_loop n ps ([], [])) as [chunks buffer]. simpl in H.
  destruct H as [Hc Hb]. destruct (truthy buffer) eqn:E; [|exact Hc].
  apply Forall_app. split; [exact Hc|]. constructor; [|constructor].
  destruct Hb as [->|Hb]; [discriminate|exact Hb].
Qed.

Lemma split_join_concat sep items :
  items <> [] -> split sep (join [sep] items) = concat (map (split sep) items).
Proof.
  induction items as [|x rest IH]; [congruence|]. intros _.
  destruct rest as [|y rest'].
  - simpl. rewrite app_nil_r. reflexivity.
  - change (join [sep] (x :: y :: rest')) with (x ++ sep :: join [sep] (y :: rest')).
    rewrite split_app, IH by discriminate. reflexivity.
Qed.

Lemma chunks_of_lines n ps :
  Forall (fun q => clean q /\ ~ In nl q) ps ->
  concat (map (split nl) (chunks_of n ps)) = ps.
Proof.
  intros Hps. unfold chunks_of.
  assert (H : forall q, In q ps -> q <> [] /\ tight isspace q /\ ~ In nl q).
  { rewrite List.Forall_forall in Hps. intros q Hq.
    destruct (Hps q Hq) as [[H1 H2] H3]. auto. }
  pose proof (chunk_loop_lines n ps H [] [] (conj I I)) as Hl.
  destruct (chunk_loop n ps ([], [])) as [chunks buffer].
  destruct Hl as [Hl _]. simpl in Hl. rewrite <- Hl. unfold lines_of.
  destruct (truthy buffer).
  - rewrite map_app, concat_app. simpl. rewrite app_nil_r. reflexivity.
  - rewrite app_nil_r. reflexivity.
Qed.

Lemma paragraphs_lines text : Forall (fun q => clean q /\ ~ In nl q) (paragraphs text).
Proof.
  apply List.Forall_forall. intros q Hq.
  destruct (paragraphs_clean text q Hq) as (H1 & H2 & H3).
  split; [split; assumption|assumption].
Qed.

Lemma clean_strip q : clean q -> strip q = q.
Proof. intros [_ H]. apply strip_by_id. exact H. Qed.

(** Reading back paragraphs that are already clean. *)
Lemma paragraphs_of_clean_lines ls :
  Forall clean ls -> map strip (List.filter (fun p => truthy (strip p)) ls) = ls.
Proof.
  intros H. rewrite filter_all_true.
  - apply map_strip_clean. eapply Forall_impl; [exact H|]. intros q. apply clean_strip.
  - rewrite List.Forall_forall in H. intros q Hq. rewrite (clean_strip q (H q Hq)).
    apply truthy_true. exact (proj1 (H q Hq)).
Qed.

Lemma paragraphs_join_chunks text n :
  paragraphs (join [nl] (chunk_text text n)) = paragraphs text.
Proof.
  rewrite chunk_text_chunks_of.
  destruct (chunks_of n (paragraphs text)) as [|c cs] eqn:E.
  - pose proof (chunks_of_lines n _ (paragraphs_lines text)) as H. rewrite E in H.
    simpl in H. rewrite <- H. reflexivity.
  - unfold paragraphs at 1. rewrite split_join_concat by discriminate.
    rewrite <- E, (chunks_of_lines n _ (paragraphs_lines text)).
    apply paragraphs_of_clean_lines, paragraphs_all_clean.
Qed.

(** *** Greedy merging *)

Definition first_line (s : str) : str := hd [] (split nl s).

Section Greedy.
Variable n : Z.

(** The paragraph that opens [b] did not fit behind [a]. *)
Definition full (a b : str) : Prop := (n < len a + 1 + len (first_line b))%Z.

Fixpoint adjacent_full (l : list str) : Prop :=
  match l with
  | a :: ((b :: _) as t) => full a b /\ adjacent_full t
  | _ => True
  end.

Lemma adjacent_full_push l b q :
  adjacent_full (l ++ [b]) -> full b q -> adjacent_full (l ++ [b; q]).
Proof.
  induction l as [|a l IH]; simpl.
  - intros _ H. auto.
  - destruct l as [|a' l']; simpl in *.
    + intros [H1 _] H2. auto.
    + intros [H1 H2] H3. split; [exact H1|]. apply IH; assumption.
Qed.

Lemma adjacent_full_grow l b c :
  adjacent_full (l ++ [b]) -> first_line c = first_line b -> adjacent_full (l ++ [c]).
Proof.
  intros H E. induction l as [|a l IH]; simpl in *; [exact I|].
  destruct l as [|a' l']; simpl in *.
  - destruct H as [H _]. split; [|exact I]. unfold full in *. rewrite E. exact H.
  - destruct H as [H1 H2]. split; [exact H1|]. apply IH. exact H2.
Qed.

Lemma adjacent_full_lookup l : adjacent_full l ->
  forall i a b, l !! i = Some a -> l !! S i = Some b -> full a b.
Proof.
  induction l as [|x l IH]; intros H i a b Ha Hb; [discriminate|].
  destruct l as [|y l']; [destruct i; discriminate|].
  destruct H as [H1 H2]. destruct i as [|i].
  - simpl in Ha, Hb. congruence.
  - exact (IH H2 i a b Ha Hb).
Qed.

Lemma first_line_glue b q : b <> [] -> first_line (b ++ nl :: q) = first_line b.
Proof.
  intros _. unfold first_line. rewrite split_app.
  destruct (split nl b) eqn:E; [exfalso; exact (split_nonempty _ _ E)|reflexivity].
Qed.

Lemma first_line_single q : ~ In nl q -> first_line q = q.
Proof. intros H. unfold first_line. rewrite split_no_sep by exact H. reflexivity. Qed.

Definition pending (chunks : list str) (buffer : str) : list str :=
  if truthy buffer then chunks ++ [buffer] else chunks.

Lemma chunk_loop_greedy ps :
  Forall (fun q => clean q /\ ~ In nl q) ps ->
  forall chunks buffer,
    (buffer = [] -> chunks = []) -> (buffer = [] \/ clean buffer) ->
    adjacent_full (pending chunks buffer) ->
    adjacent_full (pending (chunk_loop n ps (chunks, buffer)).1
                           (chunk_loop n ps (chunks, buffer)).2).
Proof.
  unfold chunk_loop. induction 1 as [|q ps [Hq Hnl] _ IH]; intros chunks buffer He Hb Ha.
  - exact Ha.
  - cbn [fold_left]. unfold chunk_step at 2 4.
    assert (Hqt : truthy q = true) by (apply truthy_true, Hq).
    destruct buffer as [|b0 bt].
    + rewrite (He eq_refl). simpl truthy. cbv iota.
      destruct (len q <=? n)%Z; apply IH; auto;
        try (intros ->; discriminate); unfold pending; rewrite Hqt; exact I.
    + simpl truthy. cbv iota. destruct Hb as [Hb|Hb]; [discriminate|].
      assert (Hg : clean ((b0 :: bt) ++ nl :: q)).
      { destruct Hb as [Hb1 Hb2], Hq as [Hq1 Hq2]. split; [discriminate|].
        apply tight_glue; assumption. }
      change ((b0 :: bt) ++ [nl] ++ q) with ((b0 :: bt) ++ nl :: q).
      unfold strip. rewrite (strip_by_id _ _ (proj2 Hg)).
      unfold pending in Ha. simpl truthy in Ha. cbv iota in Ha.
      destruct (len ((b0 :: bt) ++ nl :: q) <=? n)%Z eqn:El.
      * apply IH; [intros H; discriminate H|right; exact Hg|].
        unfold pending. simpl truthy. cbv iota.
        eapply adjacent_full_grow; [exact Ha|]. apply first_line_glue. discriminate.
      * apply IH; [intros ->; discriminate|right; exact Hq|].
        unfold pending. rewrite Hqt. rewrite <- app_assoc. simpl.
        apply adjacent_full_push; [exact Ha|].
        unfold full. rewrite (first_line_single _ Hnl).
        apply Z.leb_gt in El. unfold len in *. rewrite length_app in El.
        cbn [length] in *. lia.
Qed.

Lemma chunks_of_greedy ps :
  Forall (fun q => clean q /\ ~ In nl q) ps -> adjacent_full (chunks_of n ps).
Proof.
  intros Hps.
  pose proof (chunk_loop_greedy ps Hps [] [] (fun _ => eq_refl) (or_introl eq_refl) I) as H.
  unfold chunks_of. destruct (chunk_loop n ps ([], [])) as [chunks buffer]. exact H.
Qed.

(** *** Everything fits *)

Definition with_buffer (buffer : str) (ps : list str) : list str :=
  if truthy buffer then buffer :: ps else ps.

Lemma length_join_head sep q ps : length q <= length (join sep (q :: ps)).
Proof. destruct ps; simpl; [lia|]. rewrite !length_app. lia. Qed.

Lemma chunk_loop_fits ps :
  Forall clean ps ->
  forall buffer, (buffer = [] \/ clean buffer) ->
    (len (join [nl] (with_buffer buffer ps)) <= n)%Z ->
    chunk_loop n ps ([], buffer) = ([], join [nl] (with_buffer buffer ps)).
Proof.
  unfold chunk_loop. induction 1 as [|q ps Hq _ IH]; intros buffer Hb Hlen.
  - simpl. unfold with_buffer. destruct buffer; reflexivity.
  - cbn [fold_left]. unfold chunk_step at 2.
    assert (Hqt : truthy q = true) by (apply truthy_true, Hq).
    destruct buffer as [|b0 bt].
    + simpl truthy. cbv iota. unfold with_buffer in Hlen. simpl truthy in Hlen. cbv iota in Hlen.
      assert (Hfit : (len q <=? n)%Z = true).
      { apply Z.leb_le. pose proof (length_join_head [nl] q ps). unfold len in *. lia. }
      rewrite Hfit. rewrite IH; [|right; exact Hq|unfold with_buffer; rewrite Hqt; exact Hlen].
      unfold with_buffer. rewrite Hqt. reflexivity.
    + simpl truthy. cbv iota. destruct Hb as [Hb|Hb]; [discriminate|].
      assert (Hg : clean ((b0 :: bt) ++ nl :: q)).
      { destruct Hb as [Hb1 Hb2], Hq as [Hq1 Hq2]. split; [discriminate|].
        apply tight_glue; assumption. }
      change ((b0 :: bt) ++ [nl] ++ q) with ((b0 :: bt) ++ nl :: q).
      unfold strip. rewrite (strip_by_id _ _ (proj2 Hg)).
      unfold with_buffer in Hlen. simpl truthy in Hlen. cbv iota in Hlen.
      assert (E : join [nl] ((b0 :: bt) :: q :: ps)
                  = join [nl] (with_buffer ((b0 :: bt) ++ nl :: q) ps)).
      { unfold with_buffer. simpl truthy. cbv iota.
        destruct ps as [|p ps']; simpl; [reflexivity|].
        rewrite <- !app_assoc. reflexivity. }
      assert (Hfit : (len ((b0 :: bt) ++ nl :: q) <=? n)%Z = true).
      { apply Z.leb_le. rewrite E in Hlen.
        pose proof (length_join_head [nl] ((b0 :: bt) ++ nl :: q) ps) as Hh.
        unfold with_buffer in Hlen. simpl truthy in Hlen. cbv iota in Hlen.
        unfold len in *. lia. }
      rewrite Hfit. rewrite IH; [|right; exact Hg|rewrite <- E; exact Hlen].
      rewrite <- E. reflexivity.
Qed.

End Greedy.

Lemma length_concat_nonempty {A B} (f : A -> list B) l :
  (forall x, f x <> []) -> length l <= length (concat (map f l)).
Proof.
  intros Hf. induction l as [|x l IH]; simpl; [lia|].
  rewrite length_app. specialize (Hf x). destruct (f x); [congruence|]. simpl. lia.
Qed.

Lemma parse_semicolon_list_unguarded value :
  parse_semicolon_list value
  = map strip (List.filter (fun item => truthy (strip item)) (split semicolon value)).
Proof. destruct value; reflexivity. Qed.

Lemma parse_join_clean items :
  Forall (fun x => x <> [] /\ strip x = x /\ ~ In semicolon x) items ->
  parse_semicolon_list (join [semicolon] items) = items.
Proof.
  intros H. rewrite parse_semicolon_list_unguarded.
  destruct items as [|x rest]; [reflexivity|].
  rewrite split_join; [|discriminate|eapply Forall_impl; [exact H|]; cbv beta; tauto].
  rewrite filter_all_true.
  - apply map_strip_clean. eapply Forall_impl; [exact H|]. cbv beta. tauto.
  - rewrite List.Forall_forall in H. intros q Hq. destruct (H q Hq) as (H1 & H2 & _).
    rewrite H2. apply truthy_true. exact H1.
Qed.

Lemma parse_items_clean value :
  Forall (fun x => x <> [] /\ strip x = x /\ ~ In semicolon x) (parse_semicolon_list value).
Proof.
  rewrite parse_semicolon_list_unguarded. apply List.Forall_forall. intros x.
  rewrite in_map_iff. intros (q & <- & Hq). apply filter_In in Hq as [Hq Ht].
  split; [apply truthy_true; exact Ht|]. split; [apply strip_by_idem|].
  intros Hin. apply strip_by_In in Hin. exact (split_piece_no_sep _ _ _ Hq Hin).
Qed.

(** ** Chunking: further properties *)

(** X1: every chunk is non-empty, carries no leading or trailing whitespace, and
    is made of paragraphs of the text, one per line; there are never more
    chunks than paragraphs. *)
Theorem chunk_text_chunks_are_paragraph_blocks (text : str) (target_chars : Z) :
  Forall (fun c => c <> [] /\ strip c = c
                   /\ Forall (fun line => In line (paragraphs text)) (split nl c))
         (chunk_text text target_chars)
  /\ length (chunk_text text target_chars) <= length (paragraphs text).
Proof.
  rewrite chunk_text_chunks_of.
  pose proof (chunks_of_lines target_chars _ (paragraphs_lines text)) as Hl.
  pose proof (chunks_of_clean target_chars _ (paragraphs_all_clean text)) as Hc.
  split.
  - apply List.Forall_forall. intros c Hin. rewrite List.Forall_forall in Hc.
    destruct (Hc c Hin) as [H1 H2]. split; [exact H1|]. split; [apply clean_strip; split; assumption|].
    apply List.Forall_forall. intros line Hline. rewrite <- Hl.
    apply in_concat. exists (split nl c). split; [apply in_map; exact Hin|exact Hline].
  - rewrite <- Hl at 2. apply length_concat_nonempty. intros c. apply split_nonempty.
Qed.

(** X2: no chunk is returned exactly for the texts that hold nothing but
    whitespace (the empty text included). *)
Theorem chunk_text_empty_iff_blank (text : str) (target_chars : Z) :
  chunk_text text target_chars = [] <-> forallb isspace text = true.
Proof.
  rewrite <- paragraphs_nil_iff, chunk_text_chunks_of. split.
  - intros H. pose proof (chunks_of_lines target_chars _ (paragraphs_lines text)) as Hl.
    rewrite H in Hl. simpl in Hl. symmetry. exact Hl.
  - intros ->. reflexivity.
Qed.

(** X3: chunking looks at the stripped non-blank lines only: two texts with the
    same paragraphs give the same chunks, and chunking the chunks, joined by
    newlines, gives the same chunks again. *)
Theorem chunk_text_rechunk_stable (text : str) (target_chars : Z) :
  chunk_text (join [nl] (chunk_text text target_chars)) target_chars
  = chunk_text text target_chars
  /\ (forall text', paragraphs text' = paragraphs text ->
        chunk_text text' target_chars = chunk_text text target_chars).
Proof.
  split.
  - rewrite (chunk_text_chunks_of (join _ _)), paragraphs_join_chunks.
    symmetry. apply chunk_text_chunks_of.
  - intros text' H. rewrite !chunk_text_chunks_of, H. reflexivity.
Qed.

(** X4: chunks are as large as the budget allows: for two chunks that follow
    one another, the first paragraph of the second did not fit behind the
    first within [target_chars]. *)
Theorem chunk_text_greedy (text : str) (target_chars : Z) (i : nat) (a b : str) :
  chunk_text text target_chars !! i = Some a ->
  chunk_text text target_chars !! S i = Some b ->
  (target_chars < len a + 1 + len (first_line b))%Z
  /\ In (first_line b) (paragraphs text).
Proof.
  intros Ha Hb. split.
  - rewrite chunk_text_chunks_of in Ha, Hb.
    exact (adjacent_full_lookup target_chars _
             (chunks_of_greedy target_chars _ (paragraphs_lines text)) i a b Ha Hb).
  - pose proof (chunks_of_lines target_chars _ (paragraphs_lines text)) as Hl.
    rewrite <- chunk_text_chunks_of in Hl. rewrite <- Hl.
    apply in_concat. exists (split nl b).
    split; [apply in_map, list_elem_of_In; eapply list_elem_of_lookup_2; exact Hb|].
    unfold first_line. destruct (split nl b) eqn:E; [exfalso; exact (split_nonempty _ _ E)|].
    left. reflexivity.
Qed.

Lemma chunk_text_greedy_witness :
  (5 < len (py "ab
cd") + 1 + len (first_line (py "efgh")))%Z
  /\ In (first_line (py "efgh")) (paragraphs (py "ab
cd

 efgh
i")).
Proof.
  apply (chunk_text_greedy (py "ab
cd

 efgh
i") 5 0 (py "ab
cd") (py "efgh")); vm_compute; reflexivity.
Defined.

(** X5: when all paragraphs, joined by newlines, fit into the budget, the
    result is that one chunk. *)
Theorem chunk_text_single_chunk (text : str) (target_chars : Z) :
  paragraphs text <> [] ->
  (len (join [nl] (paragraphs text)) <= target_chars)%Z ->
  chunk_text text target_chars = [join [nl] (paragraphs text)].
Proof.
  intros Hne Hlen. rewrite chunk_text_chunks_of. unfold chunks_of.
  rewrite (chunk_loop_fits target_chars _ (paragraphs_all_clean text) []
             (or_introl eq_refl) Hlen).
  unfold with_buffer. simpl truthy. cbv iota.
  destruct (paragraphs text) as [|q ps] eqn:E; [congruence|].
  assert (Hq : q <> []).
  { pose proof (paragraphs_all_clean text) as H. rewrite E in H.
    apply Forall_cons in H as [[H _] _]. exact H. }
  assert (Ht : truthy (join [nl] (q :: ps)) = true).
  { apply truthy_true. destruct q; [congruence|]. destruct ps; discriminate. }
  rewrite Ht. reflexivity.
Qed.

Lemma chunk_text_single_chunk_witness :
  chunk_text (py "  Punkt 1

Punkt 2  ") 7000 = [join [nl] (paragraphs (py "  Punkt 1

Punkt 2  "))].
Proof.
  apply chunk_text_single_chunk.
  - vm_compute. discriminate.
  - vm_compute. discriminate.
Defined.

(** ** Semicolon lists: further properties *)

(** X6: parsing undoes joining: a list of non-empty, stripped items without
    semicolons, joined by semicolons, parses back to the same list. *)
Theorem parse_semicolon_list_of_join (items : list str) :
  Forall (fun x => x <> [] /\ strip x = x /\ ~ In semicolon x) items ->
  parse_semicolon_list (join [semicolon] items) = items.
Proof. apply parse_join_clean. Qed.

Lemma parse_semicolon_list_of_join_witness :
  parse_semicolon_list (join [semicolon] [py "Anna Meier"; py "Bert"])
  = [py "Anna Meier"; py "Bert"].
Proof.
  apply parse_semicolon_list_of_join.
  repeat constructor; try (vm_compute; discriminate); try (vm_compute; reflexivity);
    vm_compute; intuition discriminate.
Defined.

(** X7: the parsed items never hold a semicolon, and parsing is stable:
    joining the result by semicolons and parsing again gives the same list. *)
Theorem parse_semicolon_list_stable (value : str) :
  Forall (fun item => ~ In semicolon item) (parse_semicolon_list value)
  /\ parse_semicolon_list (join [semicolon] (parse_semicolon_list value))
     = parse_semicolon_list value.
Proof.
  split.
  - eapply Forall_impl; [apply parse_items_clean|]. cbv beta. tauto.
  - apply parse_join_clean, parse_items_clean.
Qed.

(** X8: parsing distributes over a semicolon: the items of two values joined by
    a semicolon are the items of the first followed by the items of the
    second. *)
Theorem parse_semicolon_list_app (a b : str) :
  parse_semicolon_list (a ++ [semicolon] ++ b)
  = parse_semicolon_list a ++ parse_semicolon_list b.
Proof.
  rewrite !parse_semicolon_list_unguarded.
  change (a ++ [semicolon] ++ b) with (a ++ semicolon :: b).
  rewrite split_app, List.filter_app, map_app. reflexivity.
Qed.

(** ** Metadata: further properties *)

Lemma normalize_optionals_id m : no_empty_optional m -> normalize_optionals m = m.
Proof.
  destruct m as [t d o s e mo p te g a z h]. unfold no_empty_optional, normalize_optionals.
  cbn [titel datum ort startzeit endzeit moderation protokoll teilnehmer gaeste agenda
       ziele hinweise].
  rewrite <- !drop_empty_id. intros (-> & -> & -> & -> & -> & ->). reflexivity.
Qed.

Lemma or_None_not_empty s : or_None s <> Some [].
Proof. unfold or_None. destruct s; simpl; congruence. Qed.

Lemma or_None_strip s o : or_None (strip s) = Some o -> o <> [] /\ strip o = o.
Proof.
  unfold or_None. destruct (truthy (strip s)) eqn:E; [|discriminate].
  intros [= <-]. split; [apply truthy_true; exact E|apply strip_by_idem].
Qed.

(** A record as the command line and the dictionaries give it: text without
    surrounding whitespace, no empty optional field, lists of non-empty
    stripped items. *)
Definition trimmed_optional (o : option str) : Prop :=
  forall s, o = Some s -> s <> [] /\ strip s = s.

Definition trimmed_items (items : list str) : Prop :=
  Forall (fun x => x <> [] /\ strip x = x) items.

Lemma parse_items_trimmed value : trimmed_items (parse_semicolon_list value).
Proof.
  eapply Forall_impl; [apply parse_items_clean|]. cbv beta. tauto.
Qed.

(** X9: the metadata [main] builds from the command line is trimmed: the title
    and every optional field carry no surrounding whitespace, no optional
    field is the empty string, every list item is a non-empty stripped string;
    and such a record survives [to_dict] and [from_dict] unchanged. *)
Theorem metadata_of_args_trimmed (args : Namespace) :
  let m := metadata_of_args args in
  strip (titel m) = titel m
  /\ Forall trimmed_optional
            [datum m; ort m; startzeit m; endzeit m; moderation m; protokoll m]
  /\ Forall trimmed_items [teilnehmer m; gaeste m; agenda m; ziele m; hinweise m]
  /\ from_dict (to_dict m) = unchecked m.
Proof.
  cbv zeta. split; [apply strip_by_idem|]. split.
  { unfold metadata_of_args. cbn [datum ort startzeit endzeit moderation protokoll].
    repeat (apply List.Forall_cons; [intros s; apply or_None_strip|]). apply List.Forall_nil. }
  split.
  { repeat (apply List.Forall_cons; [apply parse_items_trimmed|]). apply List.Forall_nil. }
  rewrite from_dict_to_dict. f_equal. apply normalize_optionals_id.
  unfold no_empty_optional, metadata_of_args.
  cbn [datum ort startzeit endzeit moderation protokoll].
  repeat split; apply or_None_not_empty.
Qed.

(** The twelve keys [from_dict] reads. *)
Definition metadata_keys : list string :=
  ["titel"; "datum"; "ort"; "startzeit"; "endzeit"; "moderation"; "protokoll";
   "teilnehmer"; "gaeste"; "agenda"; "ziele"; "hinweise"]%string.

(** X10: [from_dict] reads the twelve metadata keys and nothing else: payloads
    that agree on them give the same object, so an entry under any other key
    is ignored, while each of the twelve keys is read (for each there are two
    values that give different objects on every payload); a key that is
    missing gets the dataclass default, the empty payload giving the default
    record. *)
Theorem from_dict_reads_only_metadata_keys (payload : gmap string pyval) :
  (forall payload' : gmap string pyval,
     (forall key, In key metadata_keys -> payload' !! key = payload !! key) ->
     from_dict payload' = from_dict payload)
  /\ (forall key v, ~ In key metadata_keys -> from_dict (<[key := v]> payload) = from_dict payload)
  /\ (forall key, In key metadata_keys ->
        from_dict (<[key := PStr (py "a")]> payload)
        <> from_dict (<[key := PStr (py "b")]> payload))
  /\ from_dict ∅ = unchecked default_metadata.
Proof.
  assert (H : forall payload' : gmap string pyval,
     (forall key, In key metadata_keys -> payload' !! key = payload !! key) ->
     from_dict payload' = from_dict payload).
  { intros payload' H. unfold from_dict, dict_get.
    rewrite !H by (unfold metadata_keys; simpl; tauto). reflexivity. }
  split; [exact H|]. split; [|split].
  - intros key v Hk. apply H. intros k Hin. apply lookup_insert_ne. congruence.
  - intros key Hk E. unfold metadata_keys in Hk. simpl in Hk.
    assert (P : forall (k : string) (field : UncheckedMetadata -> pyval) (dflt : pyval),
              key = k ->
              (forall p, field (from_dict p) = dict_get p k dflt
                         \/ field (from_dict p) = or_none (dict_get p k dflt)) -> False).
    { intros k field dflt -> Hfield. apply (f_equal field) in E.
      destruct (Hfield (<[k := PStr (py "a")]> payload)) as [Ea|Ea];
        destruct (Hfield (<[k := PStr (py "b")]> payload)) as [Eb|Eb];
        rewrite Ea, Eb in E; unfold dict_get in E; rewrite !lookup_insert_eq in E;
        vm_compute in E; discriminate E. }
    assert (Q : forall (k : string) (field : UncheckedMetadata -> list str),
              key = k ->
              (forall p, field (from_dict p) = list_or_empty (dict_get p k (PList []))) ->
              False).
    { intros k field -> Hfield. apply (f_equal field) in E.
      rewrite !Hfield in E. unfold dict_get in E. rewrite !lookup_insert_eq in E.
      vm_compute in E. discriminate E. }
    destruct Hk as [Hk|[Hk|[Hk|[Hk|[Hk|[Hk|[Hk|[Hk|[Hk|[Hk|[Hk|[Hk|[]]]]]]]]]]]]];
      symmetry in Hk.
    + apply (P _ held_titel (PStr (py "Sitzungsprotokoll")) Hk). intros p. left. reflexivity.
    + apply (P _ held_datum PNone Hk). intros p. right. reflexivity.
    + apply (P _ held_ort PNone Hk). intros p. right. reflexivity.
    + apply (P _ held_startzeit PNone Hk). intros p. right. reflexivity.
    + apply (P _ held_endzeit PNone Hk). intros p. right. reflexivity.
    + apply (P _ held_moderation PNone Hk). intros p. right. reflexivity.
    + apply (P _ held_protokoll PNone Hk). intros p. right. reflexivity.
    + apply (Q _ held_teilnehmer Hk). intros p. reflexivity.
    + apply (Q _ held_gaeste Hk). intros p. reflexivity.
    + apply (Q _ held_agenda Hk). intros p. reflexivity.
    + apply (Q _ held_ziele Hk). intros p. reflexivity.
    + apply (Q _ held_hinweise Hk). intros p. reflexivity.
  - reflexivity.
Qed.

Lemma or_none_normal v o : or_none v = of_opt o -> o <> Some [].
Proof.
  destruct v as [|[|c s]|[|x l]], o as [[|c' s']|]; cbn; intros H; congruence.
Qed.

(** X11: whatever record of the declared field types [from_dict] returns has
    no empty optional field and survives [to_dict] and [from_dict] unchanged:
    the normalisation is done once and for all. *)
Theorem from_dict_result_round_trips (payload : gmap string pyval) (m : MeetingMetadata) :
  from_dict payload = unchecked m ->
  no_empty_optional m /\ from_dict (to_dict m) = unchecked m.
Proof.
  intros H.
  assert (Hn : no_empty_optional m).
  { unfold from_dict, unchecked in H.
    injection H as _ H2 H3 H4 H5 H6 H7 _ _ _ _ _. unfold no_empty_optional.
    repeat split; eapply or_none_normal; eassumption. }
  split; [exact Hn|]. rewrite from_dict_to_dict, (normalize_optionals_id _ Hn). reflexivity.
Qed.

Lemma from_dict_result_round_trips_witness :
  no_empty_optional (mkMeta (py "Sitzung") (Some (py "2025-10-01")) None None None None None
                            [py "A"; py "B"] [] [] [] [])
  /\ from_dict (to_dict (mkMeta (py "Sitzung") (Some (py "2025-10-01")) None None None None
                                None [py "A"; py "B"] [] [] [] []))
     = unchecked (mkMeta (py "Sitzung") (Some (py "2025-10-01")) None None None None None
                         [py "A"; py "B"] [] [] [] []).
Proof.
  apply (from_dict_result_round_trips
           (<["datum"%string := PStr (py "2025-10-01")]>
              (<["ort"%string := PStr []]>
                 (<["teilnehmer"%string := PList [py "A"; py "B"]]>
                    {["titel"%string := PStr (py "Sitzung")]})))).
  vm_compute. reflexivity.
Defined.

Definition nonblank (item : str) : bool := truthy item && truthy (strip item).

(** X12: [human_join] skips blank entries and surrounding whitespace, so it
    gives the same text for a list and for its cleaned form, and on the items
    [parse_semicolon_list] returns it is the plain join with a comma and a
    space. *)
Theorem human_join_normal_form (items : list str) (value : str) :
  human_join (map strip (List.filter nonblank items)) = human_join items
  /\ human_join (parse_semicolon_list value) = join (py ", ") (parse_semicolon_list value).
Proof.
  assert (H : forall l, trimmed_items l ->
            map strip (List.filter (fun item => truthy item && truthy (strip item)) l) = l).
  { intros l Hl. rewrite filter_all_true.
    - apply map_strip_clean. eapply Forall_impl; [exact Hl|]. cbv beta. tauto.
    - unfold trimmed_items in Hl. rewrite List.Forall_forall in Hl. intros x Hx.
      destruct (Hl x Hx) as [H1 H2]. rewrite H2.
      apply truthy_true in H1. rewrite H1. reflexivity. }
  split.
  - unfold human_join at 1. cbv zeta. rewrite H; [reflexivity|].
    apply List.Forall_forall. intros x. rewrite in_map_iff.
    intros (q & <- & Hq). apply filter_In in Hq as [_ Hq]. unfold nonblank in Hq.
    apply andb_prop in Hq as [_ Hq]. split; [apply truthy_true; exact Hq|apply strip_by_idem].
  - unfold human_join. cbv zeta. rewrite H; [reflexivity|apply parse_items_trimmed].
Qed.

Lemma truthy_opt_drop_empty o : truthy_opt (drop_empty o) = truthy_opt o.
Proof. destruct o as [[|c s]|]; reflexivity. Qed.

Lemma or_str_drop_empty o d : or_str (drop_empty o) d = or_str o d.
Proof. destruct o as [[|c s]|]; reflexivity. Qed.

Lemma filter_none_drop_empty a b :
  filter_none [drop_empty a; drop_empty b] = filter_none [a; b].
Proof. destruct a as [[|c s]|], b as [[|c' s']|]; reflexivity. Qed.

Lemma to_prompt_header_normalize m :
  to_prompt_header (normalize_optionals m) = to_prompt_header m.
Proof.
  destruct m as [t d o s e mo p te g a z h].
  unfold to_prompt_header, normalize_optionals, time_slot.
  cbn [titel datum ort startzeit endzeit moderation protokoll teilnehmer gaeste agenda
       ziele hinweise].
  rewrite !truthy_opt_drop_empty, !or_str_drop_empty, filter_none_drop_empty. reflexivity.
Qed.

Lemma to_docx_header_fields_normalize m :
  to_docx_header_fields (normalize_optionals m) = to_docx_header_fields m.
Proof.
  destruct m as [t d o s e mo p te g a z h].
  unfold to_docx_header_fields, normalize_optionals, time_slot.
  cbn [titel datum ort startzeit endzeit moderation protokoll teilnehmer gaeste agenda
       ziele hinweise].
  rewrite !truthy_opt_drop_empty, !or_str_drop_empty, filter_none_drop_empty. reflexivity.
Qed.

(** X13: what the round trip through [to_dict] and [from_dict] changes in a
    record is invisible in everything made from it: the prompt header, the
    header fields of the document, and the document itself are the same for
    the record and for what comes back. *)
Theorem metadata_round_trip_keeps_outputs (m : MeetingMetadata) :
  exists m',
    from_dict (to_dict m) = unchecked m'
    /\ to_prompt_header m' = to_prompt_header m
    /\ to_docx_header_fields m' = to_docx_header_fields m
    /\ (forall summaries, consolidate_user_prompt summaries m'
                          = consolidate_user_prompt summaries m)
    /\ (forall text stamp, docx_document text m' stamp = docx_document text m stamp).
Proof.
  exists (normalize_optionals m). split; [apply from_dict_to_dict|].
  split; [apply to_prompt_header_normalize|].
  split; [apply to_docx_header_fields_normalize|]. split.
  - intros summaries. unfold consolidate_user_prompt.
    rewrite to_prompt_header_normalize. reflexivity.
  - intros text stamp. unfold docx_document, docx_front. cbv zeta.
    rewrite to_docx_header_fields_normalize. destruct m; reflexivity.
Qed.

Lemma length_snoc_if {A} (b : bool) (l : list A) x :
  length (if b then l ++ [x] else l) = length l + Nat.b2n b.
Proof. destruct b; rewrite ?length_app; simpl; lia. Qed.

Lemma length_snoc_list {A B} (items : list B) (l : list A) x :
  length (match items with [] => l | _ :: _ => l ++ [x] end)
  = length l + Nat.b2n (negb (bool_decide (items = []))).
Proof. destruct items; rewrite ?length_app; simpl; lia. Qed.

Lemma truthy_join_two sep a b :
  truthy (join sep (filter_none [a; b])) = truthy_opt a || truthy_opt b.
Proof. destruct a as [[|? ?]|], b as [[|? ?]|]; reflexivity. Qed.

(** X14: the header line under the title of the document has one field per
    item there is to show: the date, the time slot (one field for start and
    end together), the place, the moderator, the minute taker, the
    participants, the guests; so the line is missing exactly when none of them
    is given. *)
Theorem to_docx_header_fields_count (m : MeetingMetadata) :
  length (to_docx_header_fields m)
  = Nat.b2n (truthy_opt (datum m))
    + Nat.b2n (truthy_opt (startzeit m) || truthy_opt (endzeit m))
    + Nat.b2n (truthy_opt (ort m)) + Nat.b2n (truthy_opt (moderation m))
    + Nat.b2n (truthy_opt (protokoll m))
    + Nat.b2n (negb (bool_decide (teilnehmer m = [])))
    + Nat.b2n (negb (bool_decide (gaeste m = [])))
  /\ (to_docx_header_fields m = []
      <-> truthy_opt (datum m) = false /\ truthy_opt (startzeit m) = false
          /\ truthy_opt (endzeit m) = false /\ truthy_opt (ort m) = false
          /\ truthy_opt (moderation m) = false /\ truthy_opt (protokoll m) = false
          /\ teilnehmer m = [] /\ gaeste m = []).
Proof.
  assert (H : length (to_docx_header_fields m)
  = Nat.b2n (truthy_opt (datum m))
    + Nat.b2n (truthy_opt (startzeit m) || truthy_opt (endzeit m))
    + Nat.b2n (truthy_opt (ort m)) + Nat.b2n (truthy_opt (moderation m))
    + Nat.b2n (truthy_opt (protokoll m))
    + Nat.b2n (negb (bool_decide (teilnehmer m = [])))
    + Nat.b2n (negb (bool_decide (gaeste m = [])))).
  { unfold to_docx_header_fields, time_slot. cbv zeta.
    rewrite !length_snoc_list, !length_snoc_if, truthy_join_two. reflexivity. }
  split; [exact H|]. rewrite <- length_zero_iff_nil, H.
  destruct (truthy_opt (datum m)), (truthy_opt (startzeit m)), (truthy_opt (endzeit m)),
    (truthy_opt (ort m)), (truthy_opt (moderation m)), (truthy_opt (protokoll m));
    cbn [Nat.b2n orb Nat.add];
    try (split; [intros [=]|intros (? & ? & ? & ? & ? & ? & _); discriminate]).
  destruct (teilnehmer m), (gaeste m); simpl; split; try intros [=]; try tauto;
    intros (_ & _ & _ & _ & _ & _ & ? & ?); discriminate.
Qed.

(** ** The input mask: what it reads and what it leaves alone

    [asks k w x] says of the outcome [x] of a run started in [w]: no file
    operation took place, calls, clock and environment are as they were, the
    console output has only grown, the input left is a suffix of the input
    there was, and a run that returned has read at least [k] lines. *)

Definition asks {A} (k : nat) (w : world) (x : result A * world) : Prop :=
  io x.2 = io w /\ calls x.2 = calls w
  /\ now_date x.2 = now_date w /\ now_minute x.2 = now_minute w
  /\ env x.2 = env w
  /\ (exists out, stdout x.2 = stdout w ++ out)
  /\ exists used, stdin w = used ++ stdin x.2
                  /\ match x.1 with Ok _ => k <= length used | Raise _ => True end.

Lemma asks_bind {A B} j k (m : M A) (f : A -> M B) w :
  asks j w (m w) -> (forall a w1, asks k w1 (f a w1)) -> asks (j + k) w ((m ≫= f) w).
Proof.
  unfold asks, mbind, M_bind. intros (Hf & Hc & Hd & Hm & He & [o Ho] & u & Hu & Hk) H.
  destruct (m w) as [[a|e] w1]; simpl in *.
  - destruct (H a w1) as (Hf' & Hc' & Hd' & Hm' & He' & [o' Ho'] & u' & Hu' & Hk').
    repeat split; try congruence.
    + exists (o ++ o'). rewrite Ho', Ho, app_assoc. reflexivity.
    + exists (u ++ u'). rewrite Hu, Hu', app_assoc. split; [reflexivity|].
      destruct (f a w1).1; [rewrite length_app; lia|exact I].
  - repeat split; try assumption; [exists o; exact Ho|exists u; auto].
Qed.

Lemma asks_le {A} j k w (x : result A * world) : j <= k -> asks k w x -> asks j w x.
Proof.
  unfold asks. intros Hj (Hf & Hc & Hd & Hm & He & Ho & u & Hu & Hk).
  repeat split; try assumption. exists u. split; [exact Hu|].
  destruct x.1; [lia|exact I].
Qed.

Lemma asks_then {A B} k (m : M A) (f : A -> M B) w :
  asks 0 w (m w) -> (forall a w1, asks k w1 (f a w1)) -> asks k w ((m ≫= f) w).
Proof. intros H1 H2. apply (asks_bind 0 k); assumption. Qed.

Lemma asks_first {A B} k (m : M A) (f : A -> M B) w :
  asks 1 w (m w) -> (forall a w1, asks k w1 (f a w1)) -> asks (S k) w ((m ≫= f) w).
Proof. intros H1 H2. apply (asks_bind 1 k); assumption. Qed.

Lemma asks_still {A} w (r : result A) (h : list obj) : asks 0 w (r, with_heap h w).
Proof.
  unfold asks. simpl. repeat split; [exists []; symmetry; apply app_nil_r|].
  exists []. split; [reflexivity|]. destruct r; [lia|exact I].
Qed.

Lemma asks_same {A} w (r : result A) : asks 0 w (r, w).
Proof.
  unfold asks. simpl. repeat split; [exists []; symmetry; apply app_nil_r|].
  exists []. split; [reflexivity|]. destruct r; [lia|exact I].
Qed.

Lemma asks_ret {A} w (a : A) : asks 0 w ((mret a : M A) w).
Proof. apply asks_same. Qed.

Lemma asks_raise {A} w e : asks 0 w (raise (A := A) e w).
Proof. apply asks_same. Qed.

Lemma asks_gets {A} w (f : world -> A) : asks 0 w (gets f w).
Proof. apply asks_same. Qed.

Lemma asks_alloc w o : asks 0 w (alloc o w).
Proof. apply asks_still. Qed.

Lemma asks_load_list w l : asks 0 w (load_list l w).
Proof. unfold load_list. destruct (heap w !! l) as [[?|?]|]; apply asks_same. Qed.

Lemma asks_load_meta w l : asks 0 w (load_meta l w).
Proof. unfold load_meta. destruct (heap w !! l) as [[?|?]|]; apply asks_same. Qed.

Lemma asks_read_metadata w l : asks 0 w (read_metadata l w).
Proof. unfold read_metadata. destruct (snapshot (heap w) l); apply asks_same. Qed.

Lemma asks_store w l o : asks 0 w (store l o w).
Proof. apply asks_still. Qed.

Lemma asks_print w s : asks 0 w (print s w).
Proof.
  unfold asks, print, modify. simpl. repeat split; [eexists; reflexivity|].
  exists []. split; [reflexivity|lia].
Qed.

Lemma asks_input w prompt : asks 1 w (input prompt w).
Proof.
  unfold asks, input. cbv zeta. simpl. destruct (stdin w) as [|line rest] eqn:E; simpl;
    rewrite ?E; (repeat split; [eexists; reflexivity|]).
  - exists []. split; [reflexivity|exact I].
  - exists [line]. split; [reflexivity|simpl; lia].
Qed.

Create HintDb asks discriminated.
#[global] Hint Resolve asks_ret asks_raise asks_gets asks_alloc asks_load_list asks_load_meta
  asks_read_metadata asks_store asks_print : asks.

(** One step through a bind whose first computation reads nothing. *)
Ltac asks_skip := apply asks_then; [ solve [ eauto with asks ] | cbv beta; intros ].

Lemma asks_list_append w l v : asks 0 w (list_append l v w).
Proof. unfold list_append. asks_skip. apply asks_store. Qed.

Lemma asks_update_meta w l f : asks 0 w (update_meta l f w).
Proof. unfold update_meta. asks_skip. apply asks_store. Qed.

Lemma asks_deepcopy_list w memo l : asks 0 w (deepcopy_list memo l w).
Proof.
  unfold deepcopy_list.
  destruct (List.find (fun e => Nat.eqb e.1 l) memo); [apply asks_ret|].
  do 2 asks_skip. apply asks_ret.
Qed.

#[global] Hint Resolve asks_list_append asks_update_meta asks_deepcopy_list : asks.

Lemma asks_deepcopy w x : asks 0 w (deepcopy x w).
Proof.
  unfold deepcopy. asks_skip.
  do 5 (apply asks_then; [apply asks_deepcopy_list|]; cbv beta; intros [? ?] ?).
  apply asks_alloc.
Qed.

Lemma asks_prompt_with_default w prompt dflt : asks 1 w (prompt_with_default prompt dflt w).
Proof.
  unfold prompt_with_default. cbv zeta.
  apply (asks_bind 1 0); [apply asks_input|]. intros. apply asks_ret.
Qed.

Lemma asks_print_numbered items : forall idx w, asks 0 w (print_numbered idx items w).
Proof.
  induction items as [|item rest IH]; intros idx w; simpl; [apply asks_ret|].
  asks_skip. apply IH.
Qed.

Lemma asks_when w b (m : M unit) : asks 0 w (m w) -> asks 0 w (when_ b m w).
Proof. intros H. destruct b; [exact H|apply asks_ret]. Qed.

Lemma asks_read_entries entries : forall fuel counter w,
  asks 1 w (read_entries fuel entries counter w).
Proof.
  induction fuel as [|fuel IH]; intros counter w; simpl.
  - apply (asks_le 1 1); [lia|]. unfold asks, raise. simpl.
    repeat split; [exists []; symmetry; apply app_nil_r|]. exists []. auto.
  - apply (asks_bind 1 0); [apply asks_input|]. intros value w1. cbv zeta.
    destruct (negb (truthy (strip value))); [apply asks_ret|].
    asks_skip. eapply asks_le; [|apply IH]. lia.
Qed.

Lemma asks_prompt_list w prompt dflt : asks 1 w (prompt_list prompt dflt w).
Proof.
  unfold prompt_list. do 2 asks_skip.
  apply asks_then.
  { apply asks_when. asks_skip. apply asks_print_numbered. }
  intros _ ?. do 3 asks_skip.
  apply (asks_bind 1 0); [apply asks_read_entries|]. intros _ ?.
  asks_skip. apply asks_ret.
Qed.

Ltac asks_line :=
  apply asks_first;
  [ first [ apply asks_prompt_with_default | apply asks_prompt_list | apply asks_input ]
  | cbv beta; intros ].

Lemma asks_collect_round w meta : asks 13 w (collect_round meta w).
Proof.
  unfold collect_round.
  repeat first [ asks_line | asks_skip ].
  - apply asks_then.
    { apply asks_when. asks_skip. apply asks_print_numbered. }
    intros _ w'. apply (asks_bind 1 0); [apply asks_input|]. intros. apply asks_ret.
Qed.

Lemma asks_collect_loop meta : forall fuel w, asks 13 w (collect_loop fuel meta w).
Proof.
  induction fuel as [|fuel IH]; intros w; simpl.
  - unfold asks, raise. simpl.
    repeat split; [exists []; symmetry; apply app_nil_r|]. exists []. auto.
  - apply (asks_bind 13 0); [apply asks_collect_round|]. intros confirmed w1.
    destruct confirmed; [apply asks_ret|].
    asks_skip. eapply asks_le; [|apply IH]. lia.
Qed.

Lemma asks_collect_meeting_metadata w base_meta :
  asks 13 w (collect_meeting_metadata base_meta w).
Proof.
  unfold collect_meeting_metadata.
  apply asks_then; [apply asks_deepcopy|]. intros meta w1.
  asks_skip. apply asks_collect_loop.
Qed.

Lemma asks_prepare_metadata w metadata (prompt_for_metadata : bool) :
  asks (if prompt_for_metadata then 13 else 0) w
       (prepare_metadata metadata prompt_for_metadata w).
Proof.
  unfold prepare_metadata.
  apply asks_then; [apply asks_deepcopy|]. intros meta w1.
  destruct prompt_for_metadata; [apply asks_collect_meeting_metadata|apply asks_ret].
Qed.

(** X15: the input mask only talks: whatever [collect_meeting_metadata] does,
    and however it ends, no file operation takes place (nothing is looked up,
    read or written), no service is called, what was on the console stays
    there, and the input left over is the end of the input given. *)
Theorem collect_meeting_metadata_only_talks (base_meta : loc) (w : world) :
  let x := collect_meeting_metadata base_meta w in
  io x.2 = io w /\ calls x.2 = calls w
  /\ (exists out, stdout x.2 = stdout w ++ out)
  /\ (exists used, stdin w = used ++ stdin x.2).
Proof.
  cbv zeta.
  destruct (asks_collect_meeting_metadata w base_meta)
    as (Hf & Hc & _ & _ & _ & Ho & used & Hu & _).
  repeat split; try assumption. exists used. exact Hu.
Qed.

(** X16: the input mask asks seven single questions and five lists and then
    for a confirmation: [collect_meeting_metadata] returns only after it has
    read at least thirteen lines, so with fewer lines of input it ends with an
    exception (and not because a loop of the model ran out of fuel); thirteen
    lines can be enough. *)
Theorem collect_meeting_metadata_reads_thirteen_lines (base_meta : loc) (w : world) :
  let x := collect_meeting_metadata base_meta w in
  (forall meta, x.1 = Ok meta ->
     exists used, stdin w = used ++ stdin x.2 /\ 13 <= length used)
  /\ (length (stdin w) < 13 -> exists e, x.1 = Raise e /\ e <> OutOfFuel)
  /\ exists w0 base0 meta0,
       length (stdin w0) = 13 /\ (collect_meeting_metadata base0 w0).1 = Ok meta0.
Proof.
  cbv zeta.
  destruct (asks_collect_meeting_metadata w base_meta)
    as (_ & _ & _ & _ & _ & _ & used & Hu & Hk).
  pose proof (keeps_collect_meeting_metadata 0 w base_meta (Nat.le_0_l _))
    as (_ & _ & _ & Hr).
  split; [|split].
  - intros meta E. rewrite E in Hk. exists used. split; assumption.
  - intros Hlt. destruct (collect_meeting_metadata base_meta w) as [[meta|e] w']; simpl in *.
    + apply (f_equal (@length str)) in Hu. rewrite length_app in Hu. lia.
    + exists e. split; [reflexivity|exact Hr].
  - exists example_world, 2, 5. split; vm_compute; reflexivity.
Qed.

(** Nothing exists and nothing can be read. *)
Definition empty_disk : environment :=
  mkEnv (fun _ _ => Done false) (fun _ _ => Failed ENOENT) (fun _ _ _ => Done tt)
        (fun _ _ => Done tt) xml_compatible.

(** X17: an audio file that the file system reports as missing stops
    [generate] before anything is sent or written: the run ends with an
    exception, no service is called, and the only file operation, if the run
    gets that far, is the check whether the audio file exists, nothing being
    read or written; without the input mask the check takes place and the
    exception is the [FileNotFoundError] of [transcribe_audio]. *)
Theorem generate_missing_audio (client : OpenAI) (audio_path output_path : str)
    (metadata : loc) (language_hint : str) (save_transcript save_partials : option str)
    (prompt_for_metadata : bool) (w : world) :
  audio_found w audio_path = Done false ->
  let x := generate client audio_path output_path metadata language_hint save_transcript
             save_partials prompt_for_metadata w in
  (exists e, x.1 = Raise e)
  /\ (io x.2 = io w \/ io x.2 = io w ++ [IoExists (Path audio_path) (Done false)])
  /\ calls x.2 = calls w
  /\ (prompt_for_metadata = false -> is_Some (snapshot (heap w) metadata) ->
      x.1 = Raise (FileNotFoundError (py "Audiodatei nicht gefunden: " ++ audio_path))
      /\ io x.2 = io w ++ [IoExists (Path audio_path) (Done false)]).
Proof.
  intros Hmiss. cbv zeta. unfold generate.
  pose proof (asks_prepare_metadata w metadata prompt_for_metadata)
    as (Hf & Hc & _ & _ & He & _).
  assert (Hdone : prompt_for_metadata = false -> is_Some (snapshot (heap w) metadata) ->
                  exists meta w1, prepare_metadata metadata false w = (Ok meta, w1)).
  { intros _ [m Hm]. unfold prepare_metadata.
    destruct (deepcopy_outcome metadata w m Hm) as (l & w1 & E & _).
    exists l, w1. rewrite (bind_ok _ _ _ _ _ E). reflexivity. }
  destruct (prepare_metadata metadata prompt_for_metadata w) as [[meta|e] w1] eqn:E;
    simpl in Hf, Hc, He.
  - assert (Hmiss1 : audio_found w1 audio_path = Done false).
    { unfold audio_found in *. rewrite He, Hf. exact Hmiss. }
    rewrite (bind_ok _ _ _ _ _ E).
    rewrite (bind_raise _ _ w1
               (FileNotFoundError (py "Audiodatei nicht gefunden: " ++ audio_path))
               (audio_checked w1 audio_path)).
    + unfold audio_checked. rewrite Hmiss1, Hf. simpl.
      split; [eauto|]. split; [right; reflexivity|]. split; [exact Hc|].
      intros _ _. split; reflexivity.
    + rewrite transcribe_audio_cases, Hmiss1. reflexivity.
  - rewrite (bind_raise _ _ _ _ _ E).
    simpl. split; [eauto|]. split; [left; exact Hf|]. split; [exact Hc|].
    intros -> Hs. destruct (Hdone eq_refl Hs) as (meta & w2 & E2). congruence.
Qed.

Lemma generate_missing_audio_witness :
  audio_found (record_world empty_disk) (py "fehlt.mp3") = Done false
  /\ (generate blank_client (py "fehlt.mp3") (py "Protokoll.docx") 1 (py "de") None None
               false (record_world empty_disk)).1
     = Raise (FileNotFoundError (py "Audiodatei nicht gefunden: " ++ py "fehlt.mp3")).
Proof.
  assert (H : audio_found (record_world empty_disk) (py "fehlt.mp3") = Done false)
    by reflexivity.
  split; [exact H|].
  apply (generate_missing_audio blank_client (py "fehlt.mp3") (py "Protokoll.docx") 1
           (py "de") None None false (record_world empty_disk) H); [reflexivity|].
  vm_compute. eauto.
Defined.
(** ** The whole of [generate] *)

(** The transcript [generate] works on for the content of an audio file. *)
Definition transcript_of (client : OpenAI) (content : blob) (language_hint : str) : str :=
  strip (transcription_text (transcriptions_create client
                               (whisper_request content language_hint))).

Lemma audio_found_same w w1 p :
  io w1 = io w -> env w1 = env w -> audio_found w1 p = audio_found w p.
Proof. unfold audio_found. intros -> ->. reflexivity. Qed.

Lemma audio_opened_same w w1 p :
  io w1 = io w -> env w1 = env w -> audio_opened w1 p = audio_opened w p.
Proof. unfold audio_opened, audio_found. intros -> ->. reflexivity. Qed.

Lemma audio_read_io w w1 p content :
  io w1 = io w -> env w1 = env w ->
  audio_found w p = Done true -> audio_opened w p = Done content ->
  io (audio_read w1 p)
  = io w ++ [IoExists (Path p) (Done true); IoRead (Path p) (Done content)].
Proof.
  intros Hi He Hf Ho. unfold audio_read. cbn [io with_io].
  rewrite (audio_found_same w w1), (audio_opened_same w w1), Hf, Ho, Hi by assumption.
  reflexivity.
Qed.

(** [generate] in three phases: the record is prepared, the audio is
    transcribed, the minutes are made. *)
Lemma generate_phases client audio_path output_path metadata language_hint save_transcript
    save_partials prompt_for_metadata w :
  let x := generate client audio_path output_path metadata language_hint save_transcript
             save_partials prompt_for_metadata w in
  (exists e w1, prepare_metadata metadata prompt_for_metadata w = (Raise e, w1)
                /\ x = (Raise e, w1))
  \/ exists meta w1,
       prepare_metadata metadata prompt_for_metadata w = (Ok meta, w1)
       /\ match audio_found w audio_path with
          | Failed e => x = (Raise (IOFailed e), audio_checked w1 audio_path)
          | Done false =>
              x = (Raise (FileNotFoundError (py "Audiodatei nicht gefunden: " ++ audio_path)),
                   audio_checked w1 audio_path)
          | Done true =>
              match audio_opened w audio_path with
              | Failed e => x = (Raise (IOFailed e), audio_read w1 audio_path)
              | Done content =>
                  x = minutes_from_transcript client
                        (transcript_of client content language_hint) output_path meta
                        save_transcript save_partials
                        (with_calls (calls w1
                                     ++ [CallTranscription
                                           (whisper_request content language_hint)])
                                    (audio_read w1 audio_path))
              end
          end.
Proof.
  cbv zeta. unfold generate.
  pose proof (asks_prepare_metadata w metadata prompt_for_metadata)
    as (Hf & _ & _ & _ & He & _).
  destruct (prepare_metadata metadata prompt_for_metadata w) as [[meta|e] w1] eqn:E;
    simpl in Hf, He.
  - right. exists meta, w1. split; [reflexivity|].
    rewrite (bind_ok _ _ _ _ _ E).
    pose proof (transcribe_audio_cases client audio_path language_hint w1) as T.
    rewrite (audio_found_same w w1), (audio_opened_same w w1) in T by assumption.
    destruct (audio_found w audio_path) as [[|]|e].
    + destruct (audio_opened w audio_path) as [content|e].
      * rewrite (bind_ok _ _ _ _ _ T). reflexivity.
      * apply bind_raise. exact T.
    + apply bind_raise. exact T.
    + apply bind_raise. exact T.
  - left. exists e, w1. split; [reflexivity|]. apply bind_raise. exact E.
Qed.

(** X18: when [generate] returns, it returns the output path, the audio file
    was found and opened, and the calls it made are, in order: one
    transcription of that file, one summary request per chunk of the stripped
    transcript, one consolidation request over the summaries (over the
    transcript itself when there is no chunk) with the header of the record
    used; its file operations begin with the check and the read of the audio
    file and end with the save, answered with success, of the document made
    of the stripped answer and that record, which python-docx accepted and
    which without the input mask is made of the caller's record.  The loops
    of the model never run out of fuel. *)
Theorem generate_calls_in_order (client : OpenAI) (audio_path output_path : str)
    (metadata : loc) (language_hint : str) (save_transcript save_partials : option str)
    (prompt_for_metadata : bool) (w : world) :
  let x := generate client audio_path output_path metadata language_hint save_transcript
             save_partials prompt_for_metadata w in
  match x.1 with
  | Ok returned =>
      returned = output_path
      /\ exists content m later,
           audio_found w audio_path = Done true
           /\ audio_opened w audio_path = Done content
           /\ calls x.2
              = calls w
                ++ CallTranscription (whisper_request content language_hint)
                   :: chat_calls client (transcript_of client content language_hint) m
           /\ docx_accepted (xml_ok (env w))
                (docx_document
                   (final_minutes client (transcript_of client content language_hint) m)
                   m (now_minute w)) = true
           /\ io x.2
              = io w
                ++ IoExists (Path audio_path) (Done true)
                   :: IoRead (Path audio_path) (Done content)
                   :: later
                ++ [IoWrite (PathStr output_path)
                      (Docx (docx_document
                               (final_minutes client
                                  (transcript_of client content language_hint) m)
                               m (now_minute w)))
                      (Done tt)]
           /\ (prompt_for_metadata = false ->
               forall m0, snapshot (heap w) metadata = Some m0 -> m = m0)
  | Raise e => e <> OutOfFuel
  end.
Proof.
  cbv zeta.
  pose proof (keeps_generate 0 w client audio_path output_path metadata language_hint
                save_transcript save_partials prompt_for_metadata (Nat.le_0_l _))
    as (_ & _ & _ & Hfuel).
  pose proof (generate_phases client audio_path output_path metadata language_hint
                save_transcript save_partials prompt_for_metadata w) as H.
  cbv zeta in H.
  pose proof (asks_prepare_metadata w metadata prompt_for_metadata)
    as (Hio & Hc & _ & Hn & He & _).
  destruct H as [(e & w1 & E & X)|(meta & w1 & E & X)].
  { rewrite X in *. exact Hfuel. }
  rewrite E in Hio, Hc, Hn, He. simpl in Hio, Hc, Hn, He.
  destruct (audio_found w audio_path) as [[|]|e] eqn:Ef;
    try (rewrite X in *; exact Hfuel).
  destruct (audio_opened w audio_path) as [content|e] eqn:Eo;
    [|rewrite X in *; exact Hfuel].
  rewrite X in *. clear X.
  pose proof (audio_read_io w w1 audio_path content Hio He Ef Eo) as Hio2.
  remember (with_calls (calls w1
                        ++ [CallTranscription (whisper_request content language_hint)])
                       (audio_read w1 audio_path)) as w2 eqn:W2.
  assert (Hio2' : io w2 = io w ++ [IoExists (Path audio_path) (Done true);
                                  IoRead (Path audio_path) (Done content)])
    by (rewrite W2; exact Hio2).
  assert (Hc2 : calls w2
                = calls w ++ [CallTranscription (whisper_request content language_hint)])
    by (rewrite W2, <- Hc; reflexivity).
  assert (Hh2 : heap w2 = heap w1) by (rewrite W2; reflexivity).
  assert (Hn2 : now_minute w2 = now_minute w) by (rewrite W2; exact Hn).
  assert (He2 : env w2 = env w) by (rewrite W2; exact He).
  clear W2 Hio2.
  pose proof (proceeds_minutes_from_transcript client
                (transcript_of client content language_hint) output_path meta
                save_transcript save_partials w2)
    as (_ & _ & _ & _ & _ & _ & (done & Hdone & _) & _ & P).
  destruct (minutes_from_transcript _ _ _ _ _ _ w2) as [[returned|e] w3];
    cbn [fst snd] in *; [|exact Hfuel].
  destruct P as (-> & m & before & Hm & Hcalls & Hacc & Hio3).
  split; [reflexivity|].
  rewrite He2, Hn2 in Hacc. rewrite Hn2 in Hio3.
  assert (L : exists later,
            done = later ++ [IoWrite (PathStr output_path)
                               (Docx (docx_document
                                        (final_minutes client
                                           (transcript_of client content language_hint) m)
                                        m (now_minute w)))
                               (Done tt)]).
  { rewrite Hio3, Hio2' in Hdone.
    destruct done as [|d ds _] using rev_ind.
    - rewrite app_nil_r in Hdone.
      change (io w ++ [IoExists (Path audio_path) (Done true);
                       IoRead (Path audio_path) (Done content)])
        with (io w ++ [IoExists (Path audio_path) (Done true)]
              ++ [IoRead (Path audio_path) (Done content)]) in Hdone.
      rewrite app_assoc in Hdone. apply List.app_inj_tail in Hdone as [_ Hd].
      discriminate Hd.
    - rewrite app_assoc in Hdone. apply List.app_inj_tail in Hdone as [_ Hd].
      exists ds. rewrite Hd. reflexivity. }
  destruct L as [later ->].
  exists content, m, later. split; [reflexivity|]. split; [reflexivity|].
  split; [|split; [exact Hacc|split]].
  - rewrite Hcalls, Hc2, <- app_assoc. reflexivity.
  - rewrite Hdone, Hio2', <- app_assoc. reflexivity.
  - intros -> m0 Hm0. unfold prepare_metadata in E.
    destruct (deepcopy_outcome metadata w m0 Hm0) as (l & w' & D & _ & _ & Hs & _).
    rewrite (bind_ok _ _ _ _ _ D) in E. injection E as -> ->. congruence.
Qed.

(** The two file operations on the audio file. *)
Definition heard (audio_path : str) (ev : io_event) : Prop :=
  (exists r, ev = IoExists (Path audio_path) r)
  \/ (exists r, ev = IoRead (Path audio_path) r).

(** X19: however [generate] ends, the file operations it has asked for are, in
    order: at most two on the audio path (the check that it exists, then the
    read), and after them only operations on the paths it was given: saves at
    the output path as it was given, writes to the transcript path, the check
    for and the making of the directory of the partial summaries, and writes
    to the numbered files [teil_NN.md] in it; the operations and the calls on
    record before are still there, in front.  (What an operation does to the
    disk, such as the directories [mkdir] makes on the way, is the file
    system's business.) *)
Theorem generate_writes_only_named_paths (client : OpenAI) (audio_path output_path : str)
    (metadata : loc) (language_hint : str) (save_transcript save_partials : option str)
    (prompt_for_metadata : bool) (w : world) :
  let x := generate client audio_path output_path metadata language_hint save_transcript
             save_partials prompt_for_metadata w in
  exists listened rest made,
    io x.2 = io w ++ listened ++ rest
    /\ calls x.2 = calls w ++ made
    /\ Forall (heard audio_path) listened /\ length listened <= 2
    /\ Forall (named output_path save_transcript save_partials) rest
    /\ (rest <> [] ->
        exists content,
          listened = [IoExists (Path audio_path) (Done true);
                      IoRead (Path audio_path) (Done content)]).
Proof.
  cbv zeta.
  pose proof (generate_phases client audio_path output_path metadata language_hint
                save_transcript save_partials prompt_for_metadata w) as H.
  cbv zeta in H.
  pose proof (asks_prepare_metadata w metadata prompt_for_metadata)
    as (Hio & Hc & _ & _ & He & _).
  destruct H as [(e & w1 & E & X)|(meta & w1 & E & X)];
    rewrite E in Hio, Hc, He; simpl in Hio, Hc, He.
  { rewrite X. exists [], [], []. cbn [fst snd]. rewrite Hio, Hc, !app_nil_r.
    repeat split; auto; try apply List.Forall_nil. intros []. reflexivity. }
  assert (Hone : forall (r : result str) f,
            audio_found w audio_path = f ->
            exists listened rest made,
              io (r, audio_checked w1 audio_path).2 = io w ++ listened ++ rest
              /\ calls (r, audio_checked w1 audio_path).2 = calls w ++ made
              /\ Forall (heard audio_path) listened /\ length listened <= 2
              /\ Forall (named output_path save_transcript save_partials) rest
              /\ (rest <> [] ->
                  exists content,
                    listened = [IoExists (Path audio_path) (Done true);
                                IoRead (Path audio_path) (Done content)])).
  { intros r f Ef. exists [IoExists (Path audio_path) f], [], [].
    unfold audio_checked. cbn [fst snd io calls with_io].
    rewrite (audio_found_same w w1), Ef, Hio, Hc, !app_nil_r by assumption.
    repeat split; auto; try apply List.Forall_nil.
    - apply List.Forall_cons; [left; eauto|apply List.Forall_nil].
    - intros []. reflexivity. }
  destruct (audio_found w audio_path) as [[|]|e] eqn:Ef;
    try (rewrite X; apply (Hone _ _ eq_refl)).
  clear Hone.
  destruct (audio_opened w audio_path) as [content|e] eqn:Eo.
  - rewrite X, Hc. clear X.
    pose proof (audio_read_io w w1 audio_path content Hio He Ef Eo) as Hio2.
    pose proof (proceeds_minutes_from_transcript client
                  (transcript_of client content language_hint) output_path meta
                  save_transcript save_partials
                  (with_calls (calls w
                               ++ [CallTranscription (whisper_request content language_hint)])
                              (audio_read w1 audio_path)))
      as (_ & _ & _ & _ & _ & _ & (done & Hdone & Hall) & [made Hmade] & _).
    cbn [io calls with_calls] in Hdone, Hmade. rewrite Hio2 in Hdone.
    exists [IoExists (Path audio_path) (Done true); IoRead (Path audio_path) (Done content)],
      done, ([CallTranscription (whisper_request content language_hint)] ++ made).
    split; [rewrite Hdone, <- app_assoc; reflexivity|].
    split; [rewrite Hmade, <- app_assoc; reflexivity|].
    split; [apply List.Forall_cons; [left; eauto|];
            apply List.Forall_cons; [right; eauto|apply List.Forall_nil]|].
    split; [simpl; lia|]. split; [exact Hall|]. intros _. exists content. reflexivity.
  - rewrite X. clear X.
    exists [IoExists (Path audio_path) (Done true); IoRead (Path audio_path) (Failed e)],
      [], [].
    unfold audio_read. cbn [fst snd io calls with_io].
    rewrite (audio_found_same w w1), (audio_opened_same w w1), Ef, Eo, Hio, Hc, !app_nil_r
      by assumption.
    repeat split; auto; try apply List.Forall_nil.
    + apply List.Forall_cons; [left; eauto|].
      apply List.Forall_cons; [right; eauto|apply List.Forall_nil].
    + intros []. reflexivity.
Qed.

(** ** A run without questions and without extra files *)

Lemma summarize_chunks_plain client chunks : forall index partial_summaries w,
  summarize_chunks client None index chunks partial_summaries w
  = (Ok (partial_summaries ++ map (summary_of client) chunks),
     with_calls (calls w ++ map (fun chunk => CallChat (summarize_request chunk)) chunks) w).
Proof.
  induction chunks as [|chunk rest IH]; intros index partial_summaries w; simpl.
  - rewrite !app_nil_r. destruct w; reflexivity.
  - rewrite (bind_ok _ _ _ _ _ (summarize_chunk_outcome client chunk w)).
    rewrite ret_bind', IH. simpl.
    rewrite <- !app_assoc. reflexivity.
Qed.

Lemma minutes_from_transcript_plain client transcript output_path meta save_transcript
    save_partials w m :
  snapshot (heap w) meta = Some m ->
  truthy_opt save_transcript = false ->
  truthy_opt save_partials = false ->
  minutes_from_transcript client transcript output_path meta save_transcript save_partials w
  = if docx_accepted (xml_ok (env w))
         (docx_document (final_minutes client transcript m) m (now_minute w))
    then (match os_write (env w) (io w) (PathStr output_path)
                  (Docx (docx_document (final_minutes client transcript m) m (now_minute w)))
          with
          | Done _ => Ok output_path
          | Failed e => Raise (IOFailed e)
          end,
          with_io (io w ++ [IoWrite (PathStr output_path)
                              (Docx (docx_document (final_minutes client transcript m) m
                                                   (now_minute w)))
                              (os_write (env w) (io w) (PathStr output_path)
                                 (Docx (docx_document (final_minutes client transcript m) m
                                                      (now_minute w))))])
                  (with_calls (calls w ++ chat_calls client transcript m) w))
    else (Raise ValueError, with_calls (calls w ++ chat_calls client transcript m) w).
Proof.
  intros Hm Hst Hsp. unfold minutes_from_transcript. cbv zeta.
  rewrite Hst, Hsp. unfold when_. rewrite ret_bind'.
  assert (E : (match chunk_text transcript 7000 with
               | [] => mret []
               | _ :: _ =>
                   (mret tt : M unit);;
                   summarize_chunks client None 1 (chunk_text transcript 7000) []
               end) w
              = (Ok (map (summary_of client) (chunk_text transcript 7000)),
                 with_calls (calls w
                             ++ map (fun chunk => CallChat (summarize_request chunk))
                                    (chunk_text transcript 7000)) w)).
  { destruct (chunk_text transcript 7000) as [|c cs].
    - simpl. rewrite app_nil_r. destruct w; reflexivity.
    - rewrite ret_bind'. apply summarize_chunks_plain. }
  rewrite (bind_ok _ _ _ _ _ E). clear E.
  set (w1 := with_calls _ w).
  assert (C : (match map (summary_of client) (chunk_text transcript 7000) with
               | [] => consolidate_summaries client [transcript] meta
               | _ :: _ => consolidate_summaries client
                             (map (summary_of client) (chunk_text transcript 7000)) meta
               end) = consolidate_summaries client (summaries_of client transcript) meta).
  { unfold summaries_of. destruct (chunk_text transcript 7000); reflexivity. }
  rewrite C. clear C.
  rewrite (bind_ok _ _ _ _ _
             (consolidate_summaries_outcome client (summaries_of client transcript) meta w1 m
                Hm)).
  set (w2 := with_calls _ w1).
  pose proof (build_docx_outcome
                (strip (chat_completions_create client
                          (consolidation_request (summaries_of client transcript) m)))
                output_path meta w2 m Hm) as B.
  rewrite write_file_outcome in B.
  assert (Hw2 : w2 = with_calls (calls w ++ chat_calls client transcript m) w).
  { unfold w2, w1, chat_calls. cbn [with_calls calls heap stdin stdout io now_date
                                    now_minute env].
    rewrite <- app_assoc. reflexivity. }
  clearbody w2. subst w2. clear w1.
  cbn [env io now_minute with_calls] in B. fold (final_minutes client transcript m) in B.
  destruct (docx_accepted _ _).
  - destruct (os_write _ _ _ _) as [[]|e]; cbn [raised] in B.
    + rewrite (bind_ok _ _ _ _ _ B). reflexivity.
    + rewrite (bind_raise _ _ _ _ _ B). reflexivity.
  - rewrite (bind_raise _ _ _ _ _ B). reflexivity.
Qed.

(** [heap_only w x]: the run from [w] to [x] changed nothing but the store. *)
Definition heap_only {A} (w : world) (x : result A * world) : Prop :=
  x.2 = with_heap (heap x.2) w.

Lemma heap_only_bind {A B} (m : M A) (f : A -> M B) w :
  heap_only w (m w) -> (forall a w1, heap_only w1 (f a w1)) -> heap_only w ((m ≫= f) w).
Proof.
  unfold heap_only, mbind, M_bind. intros H1 H2.
  destruct (m w) as [[a|e] w1]; simpl in *; [|exact H1].
  rewrite (H2 a w1) at 1. rewrite H1 at 2. reflexivity.
Qed.

Lemma heap_only_still {A} w (r : result A) h : heap_only w (r, with_heap h w).
Proof. reflexivity. Qed.

Lemma heap_only_same {A} w (r : result A) : heap_only w (r, w).
Proof. unfold heap_only. destruct w; reflexivity. Qed.

Lemma heap_only_load_list w l : heap_only w (load_list l w).
Proof. unfold load_list. destruct (heap w !! l) as [[?|?]|]; apply heap_only_same. Qed.

Lemma heap_only_load_meta w l : heap_only w (load_meta l w).
Proof. unfold load_meta. destruct (heap w !! l) as [[?|?]|]; apply heap_only_same. Qed.

Lemma heap_only_deepcopy_list w memo l : heap_only w (deepcopy_list memo l w).
Proof.
  unfold deepcopy_list.
  destruct (List.find (fun e => Nat.eqb e.1 l) memo); [apply heap_only_same|].
  apply heap_only_bind; [apply heap_only_load_list|]. intros items w1.
  apply heap_only_bind; [apply heap_only_still|]. intros l' w2. apply heap_only_same.
Qed.

Lemma heap_only_deepcopy w x : heap_only w (deepcopy x w).
Proof.
  unfold deepcopy. apply heap_only_bind; [apply heap_only_load_meta|]. intros m w1.
  do 5 (apply heap_only_bind; [apply heap_only_deepcopy_list|]; intros [? ?] ?).
  apply heap_only_still.
Qed.

Lemma generate_plain client audio_path output_path metadata language_hint save_transcript
    save_partials w m content :
  snapshot (heap w) metadata = Some m ->
  audio_found w audio_path = Done true ->
  audio_opened w audio_path = Done content ->
  truthy_opt save_transcript = false ->
  truthy_opt save_partials = false ->
  let transcript := transcript_of client content language_hint in
  let document := docx_document (final_minutes client transcript m) m (now_minute w) in
  let listened := io w ++ [IoExists (Path audio_path) (Done true);
                           IoRead (Path audio_path) (Done content)] in
  let answered := os_write (env w) listened (PathStr output_path) (Docx document) in
  exists w',
    generate client audio_path output_path metadata language_hint save_transcript
             save_partials false w
    = (if docx_accepted (xml_ok (env w)) document
       then match answered with Done _ => Ok output_path | Failed e => Raise (IOFailed e) end
       else Raise ValueError,
       w')
    /\ calls w'
       = calls w
         ++ CallTranscription (whisper_request content language_hint)
            :: chat_calls client transcript m
    /\ io w'
       = (if docx_accepted (xml_ok (env w)) document
          then listened ++ [IoWrite (PathStr output_path) (Docx document) answered]
          else listened)
    /\ stdin w' = stdin w /\ stdout w' = stdout w
    /\ exists ext, heap w' = heap w ++ ext.
Proof.
  intros Hm Hf Hop Hst Hsp. cbv zeta.
  destruct (deepcopy_outcome metadata w m Hm) as (l & w1 & D & _ & Hext & Hs & _).
  pose proof (heap_only_deepcopy w metadata) as Ho. rewrite D in Ho.
  unfold heap_only in Ho. simpl in Ho.
  assert (Hio1 : io w1 = io w) by (rewrite Ho; reflexivity).
  assert (He1 : env w1 = env w) by (rewrite Ho; reflexivity).
  assert (Hc1 : calls w1 = calls w) by (rewrite Ho; reflexivity).
  assert (Hn1 : now_minute w1 = now_minute w) by (rewrite Ho; reflexivity).
  assert (Hi1 : stdin w1 = stdin w) by (rewrite Ho; reflexivity).
  assert (Ho1 : stdout w1 = stdout w) by (rewrite Ho; reflexivity).
  clear Ho.
  assert (P : prepare_metadata metadata false w = (Ok l, w1)).
  { unfold prepare_metadata. rewrite (bind_ok _ _ _ _ _ D). reflexivity. }
  pose proof (transcribe_audio_cases client audio_path language_hint w1) as T.
  rewrite (audio_found_same w w1), (audio_opened_same w w1), Hf, Hop in T by assumption.
  unfold generate. rewrite (bind_ok _ _ _ _ _ P), (bind_ok _ _ _ _ _ T). cbv zeta.
  fold (transcript_of client content language_hint).
  rewrite (minutes_from_transcript_plain _ _ _ _ _ _ _ m); [|exact Hs|exact Hst|exact Hsp].
  cbn [env io now_minute calls with_calls with_io].
  rewrite (audio_read_io w w1 audio_path content Hio1 He1 Hf Hop).
  unfold audio_read. cbn [env now_minute calls with_io stdin stdout heap].
  rewrite He1, Hn1, Hc1.
  destruct (docx_accepted _ _).
  - eexists. split; [reflexivity|]. cbn [calls io stdin stdout heap with_io with_calls].
    rewrite <- app_assoc. repeat split; auto.
  - eexists. split; [reflexivity|]. cbn [calls io stdin stdout heap with_io with_calls].
    rewrite <- app_assoc, Hio1.
    rewrite (audio_found_same w w1), (audio_opened_same w w1), Hf, Hop by assumption.
    repeat split; auto.
Qed.

(** X20: [generate] without the input mask and without extra files, for an
    audio file that is found and opened and a caller's record in the store:
    it makes exactly the transcription call, one summary call per chunk and
    the consolidation call; if python-docx accepts the document made of the
    answer, it asks for one save at the output path, and returns the output
    path if the save succeeds and raises its error if not; if python-docx
    rejects the document, it raises [ValueError] and asks for no save.  Its
    file operations are the check and the read of the audio file and that
    save, nothing else; nothing is read from the console or printed. *)
Theorem generate_plain_run (client : OpenAI) (audio_path output_path : str)
    (metadata : loc) (language_hint : str) (save_transcript save_partials : option str)
    (w : world) (m : MeetingMetadata) (content : blob) :
  snapshot (heap w) metadata = Some m ->
  audio_found w audio_path = Done true ->
  audio_opened w audio_path = Done content ->
  truthy_opt save_transcript = false ->
  truthy_opt save_partials = false ->
  let transcript := transcript_of client content language_hint in
  let document := docx_document (final_minutes client transcript m) m (now_minute w) in
  let listened := io w ++ [IoExists (Path audio_path) (Done true);
                           IoRead (Path audio_path) (Done content)] in
  let answered := os_write (env w) listened (PathStr output_path) (Docx document) in
  exists w',
    generate client audio_path output_path metadata language_hint save_transcript
             save_partials false w
    = (if docx_accepted (xml_ok (env w)) document
       then match answered with Done _ => Ok output_path | Failed e => Raise (IOFailed e) end
       else Raise ValueError,
       w')
    /\ calls w'
       = calls w
         ++ CallTranscription (whisper_request content language_hint)
            :: chat_calls client transcript m
    /\ io w'
       = (if docx_accepted (xml_ok (env w)) document
          then listened ++ [IoWrite (PathStr output_path) (Docx document) answered]
          else listened)
    /\ stdin w' = stdin w /\ stdout w' = stdout w.
Proof.
  intros Hm Hf Hop Hst Hsp.
  pose proof (generate_plain client audio_path output_path metadata language_hint
                save_transcript save_partials w m content Hm Hf Hop Hst Hsp) as G.
  cbv zeta in *. destruct G as (w' & E & Hc & Hio & Hi & Ho & _).
  exists w'. auto.
Qed.

Definition example_caller_record : MeetingMetadata :=
  mkMeta (py "Sitzungsprotokoll") None None None None None None
         [py "Anna"; py "Bert"] [] [] [] [].

Lemma generate_plain_run_witness :
  exists w',
    generate blank_client (py "sitzung.mp3") (py "Protokoll.docx") 2 (py "de") None None
             false example_world
    = (Ok (py "Protokoll.docx"), w')
    /\ stdin w' = stdin example_world /\ stdout w' = stdout example_world.
Proof.
  pose proof (generate_plain_run blank_client (py "sitzung.mp3") (py "Protokoll.docx") 2
                (py "de") None None example_world example_caller_record
                (Raw [82%N; 73%N; 70%N; 70%N])) as G.
  cbv zeta in G. destruct G as (w' & E & _ & _ & Hi & Ho).
  - vm_compute. reflexivity.
  - reflexivity.
  - reflexivity.
  - reflexivity.
  - reflexivity.
  - exists w'. split; [|auto]. rewrite E. f_equal; vm_compute; reflexivity.
Defined.

Lemma lookup_after (h ext : list obj) (k : nat) : (h ++ ext) !! (length h + k) = ext !! k.
Proof. induction h as [|o h IH]; [reflexivity|exact IH]. Qed.

Lemma lookup_after_end (h ext : list obj) : (h ++ ext) !! length h = ext !! 0.
Proof. rewrite <- (lookup_after h ext 0), Nat.add_0_r. reflexivity. Qed.






(** ** The answers to the input mask *)

Lemma input_outcome prompt w line rest :
  stdin w = line :: rest ->
  input prompt w = (Ok line, with_stdin rest (with_stdout (stdout w ++ prompt) w)).
Proof. intros H. unfold input. cbv zeta. simpl. rewrite H. reflexivity. Qed.

Lemma list_append_outcome l v w items :
  heap w !! l = Some (OList items) ->
  list_append l v w = (Ok tt, with_heap (<[l := OList (items ++ [v])]> (heap w)) w).
Proof.
  intros H. unfold list_append, load_list, store, modify, mbind, M_bind.
  rewrite H. reflexivity.
Qed.

Lemma load_list_outcome l w items :
  heap w !! l = Some (OList items) -> load_list l w = (Ok items, w).
Proof. intros H. unfold load_list. rewrite H. reflexivity. Qed.

(** What a run that only printed has changed. *)
Definition printed (w : world) (x : result unit * world) : Prop :=
  exists out, x = (Ok tt, with_stdout (stdout w ++ out) w).

Lemma printed_print s w : printed w (print s w).
Proof. exists (s ++ [nl]). reflexivity. Qed.

Lemma printed_nothing w : printed w (Ok tt, w).
Proof. exists []. rewrite app_nil_r. destruct w; reflexivity. Qed.

Lemma printed_then (m k : M unit) w :
  printed w (m w) -> (forall w1, printed w1 (k w1)) -> printed w ((m ;; k) w).
Proof.
  intros [out E] H. rewrite (bind_ok _ _ _ _ _ E).
  destruct (H (with_stdout (stdout w ++ out) w)) as [out' E']. rewrite E'.
  exists (out ++ out'). simpl. rewrite app_assoc. reflexivity.
Qed.

Lemma printed_print_numbered items : forall idx w, printed w (print_numbered idx items w).
Proof.
  induction items as [|item rest IH]; intros idx w; simpl; [apply printed_nothing|].
  apply printed_then; [apply printed_print|]. intros w1. apply IH.
Qed.

Lemma print_outcome s w : print s w = (Ok tt, with_stdout (stdout w ++ s ++ [nl]) w).
Proof. reflexivity. Qed.

Lemma alloc_outcome o w : alloc o w = (Ok (length (heap w)), with_heap (heap w ++ [o]) w).
Proof. reflexivity. Qed.

Lemma gets_outcome {A} (f : world -> A) w : gets f w = (Ok (f w), w).
Proof. reflexivity. Qed.

Lemma printed_when (b : bool) (m : M unit) w :
  (forall w0, printed w0 (m w0)) -> printed w (when_ b m w).
Proof. intros H. destruct b; [apply H|apply printed_nothing]. Qed.

(** The loop of [prompt_list] on the lines up to the first blank one. *)
Lemma read_entries_outcome entries blank rest lines :
  forall fuel counter w items,
  heap w !! entries = Some (OList items) ->
  stdin w = lines ++ blank :: rest ->
  Forall (fun line => strip line <> []) lines ->
  strip blank = [] ->
  length lines < fuel ->
  exists w',
    read_entries fuel entries counter w = (Ok tt, w')
    /\ heap w' = <[entries := OList (items ++ map strip lines)]> (heap w)
    /\ stdin w' = rest /\ io w' = io w /\ calls w' = calls w.
Proof.
  induction lines as [|line lines IH]; intros fuel counter w items He Hin Hl Hb Hfuel;
    (destruct fuel as [|fuel]; [simpl in Hfuel; lia|]); cbn [read_entries].
  - rewrite (bind_ok _ _ _ _ _ (input_outcome _ w blank rest Hin)). cbv zeta.
    rewrite Hb. change (negb (truthy [])) with true. cbv iota.
    eexists. split; [reflexivity|]. simpl.
    rewrite app_nil_r, list_insert_id by exact He. auto.
  - rewrite (bind_ok _ _ _ _ _ (input_outcome _ w line (lines ++ blank :: rest) Hin)).
    cbv zeta. inversion Hl as [|? ? Hline Hrest]; subst.
    destruct (strip line) as [|c s] eqn:Es; [congruence|].
    change (negb (truthy (c :: s))) with false. cbv iota.
    set (w1 := with_stdin _ _).
    rewrite (bind_ok _ _ _ _ _ (list_append_outcome entries (c :: s) w1 items He)).
    set (w2 := with_heap _ w1).
    destruct (IH fuel (S counter) w2 (items ++ [c :: s])) as (w' & E & Hh & Hi & Hf & Hc);
      [apply list_lookup_insert_eq; eapply lookup_lt_Some, He|reflexivity|exact Hrest
      |exact Hb|simpl in Hfuel; lia|].
    exists w'. split; [exact E|]. rewrite Hh, Hi, Hf, Hc. simpl.
    rewrite list_insert_insert_eq, <- app_assoc, Es. auto.
Qed.

Lemma prompt_list_run (prompt : str) (dflt : loc) (w : world)
    (current lines : list str) (blank : str) (rest : list str) :
  heap w !! dflt = Some (OList current) ->
  stdin w = lines ++ blank :: rest ->
  Forall (fun line => strip line <> []) lines ->
  strip blank = [] ->
  exists w',
    prompt_list prompt dflt w
    = (Ok (match lines with [] => dflt | _ => length (heap w) end), w')
    /\ heap w' = heap w ++ [OList (map strip lines)]
    /\ heap w' !! dflt = Some (OList current)
    /\ heap w' !! (match lines with [] => dflt | _ => length (heap w) end)
       = Some (OList (match lines with [] => current | _ => map strip lines end))
    /\ stdin w' = rest /\ io w' = io w /\ calls w' = calls w.
Proof.
  intros Hd Hin Hl Hb. unfold prompt_list.
  rewrite (bind_ok _ _ _ _ _ (print_outcome _ w)).
  set (w1 := with_stdout _ w).
  rewrite (bind_ok _ _ _ _ _ (load_list_outcome dflt w1 current Hd)).
  destruct (printed_when (match current with [] => false | _ => true end)
              (print (py "  (Aktuell hinterlegt:)");; print_numbered 1 current) w1)
    as [out E].
  { intros w0. apply printed_then; [apply printed_print|]. intros w0'.
    apply printed_print_numbered. }
  rewrite (bind_ok _ _ _ _ _ E). clear E. set (w2 := with_stdout _ w1).
  rewrite (bind_ok _ _ _ _ _ (print_outcome _ w2)). set (w3 := with_stdout _ w2).
  rewrite (bind_ok _ _ _ _ _ (alloc_outcome _ w3)). set (w4 := with_heap _ w3).
  rewrite (bind_ok _ _ _ _ _ (gets_outcome _ w4)).
  destruct (read_entries_outcome (length (heap w3)) blank rest lines
              (S (length (stdin w4))) 1 w4 [])
    as (w5 & E & Hh & Hi & Hf & Hc);
    [apply lookup_after_end|exact Hin|exact Hl|exact Hb
    |simpl; rewrite Hin, length_app; lia|].
  rewrite (bind_ok _ _ _ _ _ E). clear E.
  assert (Hh5 : heap w5 = heap w ++ [OList (map strip lines)]).
  { rewrite Hh. simpl. rewrite <- (Nat.add_0_r (length (heap w))) at 1.
    rewrite insert_app_r. reflexivity. }
  assert (He : heap w5 !! length (heap w) = Some (OList (map strip lines)))
    by (rewrite Hh5; apply lookup_after_end).
  rewrite (bind_ok _ _ _ _ _ (load_list_outcome (length (heap w3)) w5 _ He)).
  exists w5. split; [|split; [exact Hh5|]]; [|split; [|split]].
  - destruct lines; reflexivity.
  - rewrite Hh5. apply lookup_extend. exact Hd.
  - destruct lines as [|line lines]; [|exact He].
    rewrite Hh5. apply lookup_extend. exact Hd.
  - rewrite Hi, Hf, Hc. auto.
Qed.

(** X22: [prompt_list] on the lines up to the first blank one: the entries are
    the stripped lines, collected in a new list; the list on record is never
    changed, and it is what comes back when no entry was given, while entries
    replace it rather than add to it; the lines after the blank one are still
    to be read, and no file operation and no call takes place. *)
Theorem prompt_list_outcome (prompt : str) (dflt : loc) (w : world)
    (current lines : list str) (blank : str) (rest : list str) :
  heap w !! dflt = Some (OList current) ->
  stdin w = lines ++ blank :: rest ->
  Forall (fun line => strip line <> []) lines ->
  strip blank = [] ->
  exists w',
    prompt_list prompt dflt w
    = (Ok (match lines with [] => dflt | _ => length (heap w) end), w')
    /\ heap w' = heap w ++ [OList (map strip lines)]
    /\ heap w' !! dflt = Some (OList current)
    /\ heap w' !! (match lines with [] => dflt | _ => length (heap w) end)
       = Some (OList (match lines with [] => current | _ => map strip lines end))
    /\ stdin w' = rest /\ io w' = io w /\ calls w' = calls w.
Proof. apply prompt_list_run. Qed.

Definition waiting_world : world :=
  mkWorld [OList [py "Anna"]] [py " Bert "; py "Cem"; []; py "ja"] [] [] []
          (py "2025-10-01") (py "2025-10-01 09:00") (obliging (Raw [])).

Lemma prompt_list_outcome_witness :
  exists w',
    prompt_list (py "Gäste") 0 waiting_world = (Ok 1, w')
    /\ heap w' = [OList [py "Anna"]; OList [py "Bert"; py "Cem"]]
    /\ stdin w' = [py "ja"].
Proof.
  destruct (prompt_list_outcome (py "Gäste") 0 waiting_world [py "Anna"]
              [py " Bert "; py "Cem"] [] [py "ja"])
    as (w' & E & Hh & _ & _ & Hi & _).
  - reflexivity.
  - reflexivity.
  - repeat constructor; vm_compute; discriminate.
  - reflexivity.
  - exists w'. split; [exact E|]. split; [|exact Hi].
    rewrite Hh. vm_compute. reflexivity.
Defined.

(** ** Start-up and the dashboard file *)

(** X23: the generator is built without a client exactly when a key is
    configured: [MeetingMinutesGenerator] ends the program, always with exit
    code 1, exactly when no client is given and the variable
    [OPENAI_API_KEY] is, after loading the [.env] file, unset or blank;
    otherwise it holds the given client, or the one connected with the
    stripped, non-empty key; a given client makes the environment
    irrelevant. *)
Theorem MeetingMinutesGenerator_exits_without_key (connect : str -> OpenAI)
    (client : option OpenAI) (load_dotenv : gmap str str -> gmap str str)
    (environ : gmap str str) :
  let blank :=
    forall value, load_dotenv environ !! py "OPENAI_API_KEY" = Some value ->
                  forallb isspace value = true in
  ((exists stderr code,
      MeetingMinutesGenerator connect client load_dotenv environ = SystemExit stderr code)
   <-> client = None /\ blank)
  /\ (forall stderr code,
        MeetingMinutesGenerator connect client load_dotenv environ = SystemExit stderr code ->
        code = 1%Z /\ load_api_key load_dotenv environ = SystemExit stderr code)
  /\ (forall made,
        MeetingMinutesGenerator connect client load_dotenv environ = Returned made ->
        client = Some made
        \/ client = None
           /\ exists value,
                load_dotenv environ !! py "OPENAI_API_KEY" = Some value
                /\ strip value <> []
                /\ load_api_key load_dotenv environ = Returned (strip value)
                /\ made = connect (strip value)).
Proof.
  cbv zeta. unfold MeetingMinutesGenerator, load_api_key. cbv zeta.
  destruct client as [given|].
  { split; [split; [intros (? & ? & [=])|intros [[=] _]]|].
    split; [intros ? ? [=]|]. intros made [= <-]. left. reflexivity. }
  destruct (load_dotenv environ !! py "OPENAI_API_KEY") as [value|]; simpl default.
  - destruct (strip value) as [|c s] eqn:E.
    + change (negb (truthy [])) with true. cbv iota.
      split; [split; [intros _|eauto]|].
      { split; [reflexivity|]. intros v [= <-]. apply strip_nil_iff. exact E. }
      split; [intros ? ? [= <- <-]; auto|]. intros made [=].
    + change (negb (truthy (c :: s))) with false. cbv iota.
      split; [split; [intros (? & ? & [=])|]|].
      { intros [_ H]. specialize (H value eq_refl). apply strip_nil_iff in H. congruence. }
      split; [intros ? ? [=]|]. intros made [= <-]. right. split; [reflexivity|].
      exists value. rewrite E. repeat split; congruence.
  - change (strip []) with (@nil N). change (negb (truthy [])) with true. cbv iota.
    split; [split; [intros _|eauto]|].
    { split; [reflexivity|]. intros v [=]. }
    split; [intros ? ? [= <- <-]; auto|]. intros made [=].
Qed.

(** X24: [write_dashboard], once the target is resolved, asks for one write
    and does nothing else: the page of [render_dashboard] for the given
    modules (for no modules or an empty list, the page of the built-in ones)
    is written to the resolved target; if the operating system answers with
    success, the resolved target is returned, and if it answers with an error
    (a missing directory, a directory in the way, missing rights), that error
    is raised; either way the store, the console and the calls are as they
    were, and the history of file operations is longer by that one write. *)
Theorem write_dashboard_writes_one_file (resolve : str -> str) (output : str)
    (modules : option (list ModuleEntry)) (w : world) :
  let target := resolve output in
  let page :=
    render_dashboard (match modules with Some [] | None => Some default_modules
                                       | given => given end) in
  let answered := os_write (env w) (io w) (Path target) (Text page) in
  let x := write_dashboard resolve output modules w in
  x.1 = match answered with Done _ => Ok target | Failed e => Raise (IOFailed e) end
  /\ io x.2 = io w ++ [IoWrite (Path target) (Text page) answered]
  /\ heap x.2 = heap w /\ stdin x.2 = stdin w /\ stdout x.2 = stdout w
  /\ calls x.2 = calls w /\ env x.2 = env w.
Proof.
  cbv zeta.
  assert (E : render_dashboard (match modules with Some [] | None => Some default_modules
                                                 | given => given end)
              = render_dashboard modules).
  { destruct render_dashboard_default as [E E'].
    destruct modules as [[|m l]|]; [symmetry; exact E|reflexivity|symmetry; exact E']. }
  rewrite E.
  pose proof (write_dashboard_outcome resolve output modules w) as H. cbv zeta in H.
  rewrite H. repeat split.
Qed.

(** ** One round of the input mask as a function of the answers

    [yields w post x]: the run from [w] returned, with [post]. *)

Definition yields {A} (w : world) (post : A -> world -> Prop) (x : result A * world)
  : Prop :=
  exists a, x.1 = Ok a /\ post a x.2.

Lemma yields_bind {A B} (m : M A) (f : A -> M B) w post post' :
  yields w post (m w) ->
  (forall a w1, post a w1 -> yields w1 post' (f a w1)) ->
  yields w post' ((m ≫= f) w).
Proof.
  unfold yields, mbind, M_bind. intros (a & E & Hp) H.
  destruct (m w) as [r w1]. simpl in E, Hp. subst r. apply (H a w1 Hp).
Qed.

Lemma yields_ret {A} w (post : A -> world -> Prop) (a : A) :
  post a w -> yields w post ((mret a : M A) w).
Proof. intros H. exists a. split; [reflexivity|exact H]. Qed.

(** The record [mo] of references stands in the store [h] for the record [s]
    of values. *)
Definition repr (h : list obj) (mo : MeetingMetadata_ loc) (s : MeetingMetadata) : Prop :=
  titel mo = titel s /\ datum mo = datum s /\ ort mo = ort s
  /\ startzeit mo = startzeit s /\ endzeit mo = endzeit s
  /\ moderation mo = moderation s /\ protokoll mo = protokoll s
  /\ h !! teilnehmer mo = Some (OList (teilnehmer s))
  /\ h !! gaeste mo = Some (OList (gaeste s))
  /\ h !! agenda mo = Some (OList (agenda s))
  /\ h !! ziele mo = Some (OList (ziele s))
  /\ h !! hinweise mo = Some (OList (hinweise s)).

Lemma snapshot_repr h (meta : loc) s :
  snapshot h meta = Some s <-> exists mo, h !! meta = Some (OMeta mo) /\ repr h mo s.
Proof.
  unfold snapshot, repr. split.
  - destruct (h !! meta) as [[items|mo]|]; try discriminate.
    destruct (h !! teilnehmer mo) as [[i1|]|] eqn:E1; try discriminate.
    destruct (h !! gaeste mo) as [[i2|]|] eqn:E2; try discriminate.
    destruct (h !! agenda mo) as [[i3|]|] eqn:E3; try discriminate.
    destruct (h !! ziele mo) as [[i4|]|] eqn:E4; try discriminate.
    destruct (h !! hinweise mo) as [[i5|]|] eqn:E5; try discriminate.
    intros [= <-]. exists mo. simpl. repeat split; solve [reflexivity|assumption].
  - intros (mo & -> & H1 & H2 & H3 & H4 & H5 & H6 & H7 & -> & -> & -> & -> & ->).
    simpl. rewrite H1, H2, H3, H4, H5, H6, H7. destruct s; reflexivity.
Qed.

Lemma repr_extend h ext mo s : repr h mo s -> repr (h ++ ext) mo s.
Proof.
  unfold repr. intros (H1 & H2 & H3 & H4 & H5 & H6 & H7 & L1 & L2 & L3 & L4 & L5).
  repeat split; try assumption; apply lookup_extend; assumption.
Qed.

Lemma repr_insert h (meta : loc) mo0 o mo s :
  h !! meta = Some (OMeta mo0) -> repr h mo s -> repr (<[meta := o]> h) mo s.
Proof.
  unfold repr. intros Hm (H1 & H2 & H3 & H4 & H5 & H6 & H7 & L1 & L2 & L3 & L4 & L5).
  assert (P : forall (r : loc) items, h !! r = Some (OList items) ->
                <[meta := o]> h !! r = Some (OList items)).
  { intros r items Hr. rewrite list_lookup_insert_ne; [exact Hr|]. congruence. }
  repeat split; try assumption; apply P; assumption.
Qed.

(** The state of a round: the record being edited, the lines still to be
    read, the date. *)
Definition mask (meta : loc) (today : str) (s : MeetingMetadata) (lines : list str)
    (w : world) : Prop :=
  snapshot (heap w) meta = Some s /\ stdin w = lines /\ now_date w = today.

Section Mask.
Variable meta : loc.
Variable today : str.

Lemma yields_printed (m : M unit) w s lines :
  printed w (m w) -> mask meta today s lines w ->
  yields w (fun _ w' => mask meta today s lines w') (m w).
Proof.
  intros [out E] H. rewrite E. exists tt. split; [reflexivity|exact H].
Qed.

Lemma yields_load_meta w s lines :
  mask meta today s lines w ->
  yields w (fun mo w' => w' = w /\ heap w !! meta = Some (OMeta mo) /\ repr (heap w) mo s)
         (load_meta meta w).
Proof.
  intros (Hs & _). apply snapshot_repr in Hs as (mo & Hm & Hr).
  exists mo. unfold load_meta. rewrite Hm. auto.
Qed.

Lemma yields_read_metadata w s lines :
  mask meta today s lines w ->
  yields w (fun m w' => m = s /\ w' = w) (read_metadata meta w).
Proof.
  intros (Hs & _). exists s. unfold read_metadata. rewrite Hs. auto.
Qed.

Lemma yields_today w s lines :
  mask meta today s lines w ->
  yields w (fun v w' => v = today /\ w' = w) (gets now_date w).
Proof. intros (_ & _ & Hd). exists (now_date w). unfold gets. simpl. auto. Qed.

Lemma yields_update_meta f w s s' lines :
  mask meta today s lines w ->
  (forall mo, repr (heap w) mo s -> repr (heap w) (f mo) s') ->
  yields w (fun _ w' => mask meta today s' lines w') (update_meta meta f w).
Proof.
  intros (Hs & Hi & Hd) Hf. apply snapshot_repr in Hs as (mo & Hm & Hr). exists tt.
  unfold update_meta, load_meta, store, modify, mbind, M_bind. rewrite Hm. simpl.
  split; [reflexivity|]. split; [|auto].
  apply snapshot_repr. exists (f mo). split.
  - apply list_lookup_insert_eq. eapply lookup_lt_Some, Hm.
  - eapply repr_insert; [exact Hm|]. apply Hf, Hr.
Qed.

(** The answer to a question with a default. *)
Definition pick (answer dflt : str) : str :=
  if truthy (strip answer) then strip answer else dflt.

Lemma yields_prompt_with_default prompt dflt w s answer lines :
  mask meta today s (answer :: lines) w ->
  yields w (fun v w' => v = pick answer dflt /\ mask meta today s lines w')
         (prompt_with_default prompt dflt w).
Proof.
  intros (Hs & Hi & Hd). unfold prompt_with_default. cbv zeta.
  rewrite (bind_ok _ _ _ _ _ (input_outcome _ w answer lines Hi)).
  eexists. split; [reflexivity|]. split; [reflexivity|]. repeat split; assumption.
Qed.

Lemma yields_input prompt w s answer lines :
  mask meta today s (answer :: lines) w ->
  yields w (fun v w' => v = answer /\ mask meta today s lines w') (input prompt w).
Proof.
  intros (Hs & Hi & Hd). rewrite (input_outcome _ w answer lines Hi).
  eexists. split; [reflexivity|]. split; [reflexivity|]. repeat split; assumption.
Qed.


(** What [prompt_list] returns for the lines entered and the list on
    record. *)
Definition entered (lines current : list str) : list str :=
  match lines with [] => current | _ => map strip lines end.

Lemma yields_prompt_list prompt (dflt : loc) w s current lines rest :
  mask meta today s (lines ++ [] :: rest) w ->
  heap w !! dflt = Some (OList current) ->
  Forall (fun line => strip line <> []) lines ->
  yields w (fun r w' => mask meta today s rest w'
                        /\ heap w' !! r = Some (OList (entered lines current)))
         (prompt_list prompt dflt w).
Proof.
  intros (Hs & Hi & Hd) Hc Hl.
  destruct (prompt_list_run prompt dflt w current lines [] rest Hc Hi Hl eq_refl)
    as (w' & E & Hh & _ & Hr & Hi' & _).
  pose proof (asks_prompt_list w prompt dflt) as (_ & _ & Hd' & _).
  rewrite E in *. simpl in Hd'. eexists. split; [reflexivity|]. simpl.
  split; [|exact Hr]. split; [|split; [exact Hi'|congruence]].
  apply snapshot_repr in Hs as (mo & Hm & Hrep). apply snapshot_repr. exists mo.
  rewrite Hh. split; [apply lookup_extend; exact Hm|apply repr_extend; exact Hrep].
Qed.

End Mask.

(** The answers of one round: seven single lines, five lists of entries (each
    closed by an empty line), and the confirmation. *)
Record answers : Type := mkAnswers {
  a_titel : str;
  a_datum : str;
  a_startzeit : str;
  a_endzeit : str;
  a_ort : str;
  a_moderation : str;
  a_protokoll : str;
  l_teilnehmer : list str;
  l_gaeste : list str;
  l_agenda : list str;
  l_ziele : list str;
  l_hinweise : list str;
  a_confirm : str;
}.

(** The lines of a round, in front of the lines [rest] that follow. *)
Definition answer_lines (a : answers) (rest : list str) : list str :=
  a_titel a :: a_datum a :: a_startzeit a :: a_endzeit a :: a_ort a :: a_moderation a
  :: a_protokoll a
  :: l_teilnehmer a ++ [] :: l_gaeste a ++ [] :: l_agenda a ++ [] :: l_ziele a ++ []
  :: l_hinweise a ++ [] :: a_confirm a :: rest.

Definition entries_given (a : answers) : Prop :=
  Forall (Forall (fun line => strip line <> []))
         [l_teilnehmer a; l_gaeste a; l_agenda a; l_ziele a; l_hinweise a].

Definition accepts (a : answers) : bool :=
  existsb (str_eqb (lower (strip (a_confirm a)))) affirmative.

(** The record after a round. *)
Definition edited (today : str) (a : answers) (s : MeetingMetadata) : MeetingMetadata :=
  mkMeta (pick (a_titel a) (if truthy (titel s) then titel s else py "Sitzungsprotokoll"))
         (Some (pick (a_datum a) (or_str (datum s) today)))
         (Some (pick (a_ort a) (or_str (ort s) [])))
         (Some (pick (a_startzeit a) (or_str (startzeit s) [])))
         (Some (pick (a_endzeit a) (or_str (endzeit s) [])))
         (Some (pick (a_moderation a) (or_str (moderation s) [])))
         (Some (pick (a_protokoll a) (or_str (protokoll s) [])))
         (entered (l_teilnehmer a) (teilnehmer s))
         (entered (l_gaeste a) (gaeste s))
         (entered (l_agenda a) (agenda s))
         (entered (l_ziele a) (ziele s))
         (entered (l_hinweise a) (hinweise s)).

Ltac repr_solve :=
  unfold repr; cbn [titel datum ort startzeit endzeit moderation protokoll
    teilnehmer gaeste agenda ziele hinweise set_titel set_datum set_ort set_startzeit
    set_endzeit set_moderation set_protokoll set_teilnehmer set_gaeste set_agenda
    set_ziele set_hinweise];
  intuition (try eassumption; try reflexivity).

Lemma repr_set_titel h mo s v :
  repr h mo s -> repr h (set_titel v mo) (set_titel v s).
Proof. repr_solve. Qed.

Lemma repr_set_datum h mo s v :
  repr h mo s -> repr h (set_datum v mo) (set_datum v s).
Proof. repr_solve. Qed.

Lemma repr_set_ort h mo s v :
  repr h mo s -> repr h (set_ort v mo) (set_ort v s).
Proof. repr_solve. Qed.

Lemma repr_set_startzeit h mo s v :
  repr h mo s -> repr h (set_startzeit v mo) (set_startzeit v s).
Proof. repr_solve. Qed.

Lemma repr_set_endzeit h mo s v :
  repr h mo s -> repr h (set_endzeit v mo) (set_endzeit v s).
Proof. repr_solve. Qed.

Lemma repr_set_moderation h mo s v :
  repr h mo s -> repr h (set_moderation v mo) (set_moderation v s).
Proof. repr_solve. Qed.

Lemma repr_set_protokoll h mo s v :
  repr h mo s -> repr h (set_protokoll v mo) (set_protokoll v s).
Proof. repr_solve. Qed.

Lemma repr_set_teilnehmer h mo s (r : loc) items :
  repr h mo s -> h !! r = Some (OList items) ->
  repr h (set_teilnehmer r mo) (set_teilnehmer items s).
Proof. repr_solve. Qed.

Lemma repr_set_gaeste h mo s (r : loc) items :
  repr h mo s -> h !! r = Some (OList items) ->
  repr h (set_gaeste r mo) (set_gaeste items s).
Proof. repr_solve. Qed.

Lemma repr_set_agenda h mo s (r : loc) items :
  repr h mo s -> h !! r = Some (OList items) ->
  repr h (set_agenda r mo) (set_agenda items s).
Proof. repr_solve. Qed.

Lemma repr_set_ziele h mo s (r : loc) items :
  repr h mo s -> h !! r = Some (OList items) ->
  repr h (set_ziele r mo) (set_ziele items s).
Proof. repr_solve. Qed.

Lemma repr_set_hinweise h mo s (r : loc) items :
  repr h mo s -> h !! r = Some (OList items) ->
  repr h (set_hinweise r mo) (set_hinweise items s).
Proof. repr_solve. Qed.

(** The scalar fields of a record read from the store are those of the record
    it stands for. *)
Ltac repr_scalars Hr :=
  let Q1 := fresh in let Q2 := fresh in let Q3 := fresh in let Q4 := fresh in
  let Q5 := fresh in let Q6 := fresh in let Q7 := fresh in
  pose proof Hr as (Q1 & Q2 & Q3 & Q4 & Q5 & Q6 & Q7 & _);
  rewrite ?Q1, ?Q2, ?Q3, ?Q4, ?Q5, ?Q6, ?Q7;
  clear Q1 Q2 Q3 Q4 Q5 Q6 Q7;
  cbn [titel datum ort startzeit endzeit moderation protokoll
       teilnehmer gaeste agenda ziele hinweise set_titel set_datum set_ort set_startzeit
       set_endzeit set_moderation set_protokoll set_teilnehmer set_gaeste set_agenda
       set_ziele set_hinweise].

(** A question with a default, and the assignment of the answer. *)
Ltac mask_scalar repr_set :=
  eapply yields_bind; [eapply yields_load_meta; eassumption|];
  cbv beta;
  let mo := fresh "mo" in
  let w1 := fresh "w" in
  let Hm := fresh "Hm" in
  let Hr := fresh "Hr" in
  intros mo w1 (-> & Hm & Hr);
  repr_scalars Hr; clear Hm Hr;
  eapply yields_bind; [eapply yields_prompt_with_default; eassumption|];
  cbv beta;
  let v := fresh "v" in
  let w2 := fresh "w" in
  let Hk := fresh "Hk" in
  let mo' := fresh "mo" in
  let H' := fresh "H" in
  intros v w2 (-> & Hk);
  eapply yields_bind;
  [eapply yields_update_meta; [exact Hk|intros mo' H'; apply repr_set; exact H']|];
  cbv beta; clear Hk; intros _ ? Hk.

(** A list question, and the assignment of what it returns. *)
Ltac mask_list setter :=
  eapply yields_bind; [eapply yields_load_meta; eassumption|];
  cbv beta;
  let mo := fresh "mo" in
  let w1 := fresh "w" in
  let Hm := fresh "Hm" in
  let Hr := fresh "Hr" in
  intros mo w1 (-> & Hm & Hr);
  eapply yields_bind;
  [eapply yields_prompt_list;
   [eassumption|unfold repr in Hr; intuition eassumption|assumption]|];
  cbn [titel datum ort startzeit endzeit moderation protokoll
       teilnehmer gaeste agenda ziele hinweise set_titel set_datum set_ort set_startzeit
       set_endzeit set_moderation set_protokoll set_teilnehmer set_gaeste set_agenda
       set_ziele set_hinweise];
  clear Hm Hr;
  cbv beta;
  let r := fresh "r" in
  let w2 := fresh "w" in
  let Hk := fresh "Hk" in
  let Hl := fresh "Hl" in
  let mo' := fresh "mo" in
  let H' := fresh "H" in
  intros r w2 (Hk & Hl);
  eapply yields_bind;
  [eapply yields_update_meta; [exact Hk|intros mo' H'; apply setter; [exact H'|exact Hl]]|];
  cbv beta; clear Hk; intros _ ? Hk.

Ltac mask_print :=
  eapply yields_bind;
  [eapply yields_printed; [apply printed_print|eassumption]|];
  cbv beta;
  match goal with H : mask _ _ _ _ _ |- _ => clear H end;
  intros _ ? ?.

Lemma collect_round_outcome meta today s a rest w :
  mask meta today s (answer_lines a rest) w ->
  entries_given a ->
  yields w (fun confirmed w' =>
              confirmed = accepts a /\ mask meta today (edited today a s) rest w')
         (collect_round meta w).
Proof.
  intros Hk He. unfold answer_lines in Hk. unfold entries_given in He.
  inversion He as [|? ? E1 He1]; subst. inversion He1 as [|? ? E2 He2]; subst.
  inversion He2 as [|? ? E3 He3]; subst. inversion He3 as [|? ? E4 He4]; subst.
  inversion He4 as [|? ? E5 _]; subst. clear He He1 He2 He3 He4.
  unfold collect_round.
  mask_print.
  mask_scalar repr_set_titel.
  eapply yields_bind; [eapply yields_load_meta; eassumption|]. cbv beta.
  intros mo1 w5 (-> & Hm1 & Hr1). repr_scalars Hr1. clear Hm1 Hr1.
  eapply yields_bind; [eapply yields_today; eassumption|]. cbv beta.
  intros ? ? [-> ->].
  eapply yields_bind; [eapply yields_prompt_with_default; eassumption|]. cbv beta.
  clear Hk. intros ? ? (-> & Hk).
  eapply yields_bind;
    [eapply yields_update_meta; [exact Hk|intros mo' H'; apply repr_set_datum; exact H']|].
  cbv beta; clear Hk; intros _ ? Hk.
  mask_scalar repr_set_startzeit.
  mask_scalar repr_set_endzeit.
  mask_scalar repr_set_ort.
  mask_scalar repr_set_moderation.
  mask_scalar repr_set_protokoll.
  mask_list repr_set_teilnehmer.
  mask_list repr_set_gaeste.
  mask_list repr_set_agenda.
  mask_list repr_set_ziele.
  mask_list repr_set_hinweise.
  mask_print.
  eapply yields_bind; [eapply yields_read_metadata; eassumption|]. cbv beta.
  intros ? ? [-> ->].
  do 10 mask_print.
  eapply yields_bind.
  { eapply yields_printed; [|eassumption]. apply printed_when. intros ?.
    apply printed_then; [apply printed_print|]. intros ?. apply printed_print_numbered. }
  cbv beta. match goal with H : mask _ _ _ _ _ |- _ => clear H end. intros _ ? ?.
  eapply yields_bind; [eapply yields_input; eassumption|]. cbv beta.
  intros ? ? [-> Hend]. cbv zeta. apply yields_ret. split; [reflexivity|].
  destruct Hend as (Hs & Hi & Hd). split; [|split; [exact Hi|exact Hd]].
  rewrite Hs. destruct s; reflexivity.
Qed.

(** The lines of several rounds, and the record after them. *)
Definition all_lines (rounds : list answers) (rest : list str) : list str :=
  fold_right answer_lines rest rounds.

Definition edited_by (today : str) (rounds : list answers) (s : MeetingMetadata)
  : MeetingMetadata :=
  fold_left (fun s a => edited today a s) rounds s.

Lemma collect_loop_outcome meta today rest last :
  accepts last = true ->
  entries_given last ->
  forall rounds fuel s w,
  mask meta today s (all_lines (rounds ++ [last]) rest) w ->
  Forall entries_given rounds ->
  Forall (fun a => accepts a = false) rounds ->
  length rounds < fuel ->
  yields w (fun r w' => r = meta
                        /\ mask meta today (edited_by today (rounds ++ [last]) s) rest w')
         (collect_loop fuel meta w).
Proof.
  intros Hacc Hlast. induction rounds as [|a rounds IH]; intros fuel s w Hk He Hrej Hfuel;
    (destruct fuel as [|fuel]; [simpl in Hfuel; lia|]); cbn [collect_loop].
  - eapply yields_bind; [eapply collect_round_outcome; [exact Hk|exact Hlast]|].
    cbv beta. intros confirmed w1 [-> Hk1]. rewrite Hacc. apply yields_ret. auto.
  - inversion He as [|? ? Ha He']; subst. inversion Hrej as [|? ? Hr Hrej']; subst.
    eapply yields_bind; [eapply collect_round_outcome; [exact Hk|exact Ha]|].
    cbv beta. intros confirmed w1 [-> Hk1]. rewrite Hr.
    eapply yields_bind; [eapply yields_printed; [apply printed_print|exact Hk1]|].
    cbv beta. intros _ w2 Hk2. apply IH; [exact Hk2|assumption|assumption|].
    simpl in Hfuel. lia.
Qed.

Lemma all_lines_length rounds rest : length rounds <= length (all_lines rounds rest).
Proof.
  induction rounds as [|a rounds IH]; [simpl; lia|].
  cbn [all_lines fold_right]. fold (all_lines rounds rest). unfold answer_lines.
  cbn [length]. repeat (rewrite length_app; cbn [length]). lia.
Qed.

Lemma collect_meeting_metadata_run base w s rounds last rest :
  snapshot (heap w) base = Some s ->
  stdin w = all_lines (rounds ++ [last]) rest ->
  Forall entries_given (rounds ++ [last]) ->
  Forall (fun a => accepts a = false) rounds ->
  accepts last = true ->
  exists meta w',
    collect_meeting_metadata base w = (Ok meta, w')
    /\ length (heap w) <= meta
    /\ snapshot (heap w') meta = Some (edited_by (now_date w) (rounds ++ [last]) s)
    /\ stdin w' = rest.
Proof.
  intros Hs Hi He Hrej Hacc. unfold collect_meeting_metadata.
  destruct (deepcopy_outcome base w s Hs) as (l & w1 & D & Hl & _ & Hs1 & _).
  pose proof (heap_only_deepcopy w base) as Ho. rewrite D in Ho.
  unfold heap_only in Ho. simpl in Ho.
  rewrite (bind_ok _ _ _ _ _ D), (bind_ok _ _ _ _ _ (gets_outcome _ w1)).
  apply Forall_app in He as [He Hlast]. inversion Hlast as [|? ? Hlast' _]; subst.
  destruct (collect_loop_outcome l (now_date w) rest last Hacc Hlast' rounds
              (S (length (stdin w1))) s w1) as (r & E & -> & Hs' & Hi' & _).
  - split; [exact Hs1|]. rewrite Ho. simpl. auto.
  - exact He.
  - exact Hrej.
  - rewrite Ho. simpl. rewrite Hi.
    pose proof (all_lines_length (rounds ++ [last]) rest) as Hlen.
    rewrite length_app in Hlen. simpl in Hlen. lia.
  - destruct (collect_loop _ l w1) as [r w']. simpl in E. subst r.
    exists l, w'. auto.
Qed.

(** X25: the input mask as a function of the answers: when the caller's record
    is in the store and the input holds some rounds of answers (each: seven
    single lines, five lists of non-blank entries closed by an empty line, a
    confirmation), all declined but the last, [collect_meeting_metadata]
    returns a new record, which holds the caller's values edited round by
    round: an answer replaces a value, an empty answer keeps it (the title
    falling back to "Sitzungsprotokoll", the date to today, the other single
    fields to the empty string), entries replace a list and no entry keeps
    it; the lines after the last confirmation are left unread. *)
Theorem collect_meeting_metadata_outcome (base_meta : loc) (w : world)
    (s : MeetingMetadata) (rounds : list answers) (last : answers) (rest : list str) :
  snapshot (heap w) base_meta = Some s ->
  stdin w = all_lines (rounds ++ [last]) rest ->
  Forall entries_given (rounds ++ [last]) ->
  Forall (fun a => accepts a = false) rounds ->
  accepts last = true ->
  exists meta w',
    collect_meeting_metadata base_meta w = (Ok meta, w')
    /\ length (heap w) <= meta
    /\ snapshot (heap w') meta = Some (edited_by (now_date w) (rounds ++ [last]) s)
    /\ stdin w' = rest.
Proof. apply collect_meeting_metadata_run. Qed.

Definition example_answers : answers :=
  mkAnswers (py "Vorstand") [] [] [] [] [] [] [] [] [] [] [] (py "ja").

Lemma collect_meeting_metadata_outcome_witness :
  exists meta w',
    collect_meeting_metadata 2 example_world = (Ok meta, w')
    /\ snapshot (heap w') meta = Some example_record
    /\ stdin w' = [].
Proof.
  destruct (collect_meeting_metadata_outcome 2 example_world example_caller_record []
              example_answers [])
    as (meta & w' & E & _ & Hs & Hi).
  - vm_compute. reflexivity.
  - reflexivity.
  - repeat constructor.
  - constructor.
  - vm_compute. reflexivity.
  - exists meta, w'. split; [exact E|]. split; [|exact Hi].
    rewrite Hs. vm_compute. reflexivity.
Defined.

(** A round answered with empty lines only. *)
Definition blank_round (a : answers) : Prop :=
  Forall (fun line => strip line = [])
         [a_titel a; a_datum a; a_startzeit a; a_endzeit a; a_ort a; a_moderation a;
          a_protokoll a]
  /\ Forall (fun entries => entries = [])
            [l_teilnehmer a; l_gaeste a; l_agenda a; l_ziele a; l_hinweise a].

Lemma pick_blank answer dflt : strip answer = [] -> pick answer dflt = dflt.
Proof. intros H. unfold pick. rewrite H. reflexivity. Qed.

Lemma pick_nonempty answer dflt : dflt <> [] -> pick answer dflt <> [].
Proof.
  intros H. unfold pick. destruct (truthy (strip answer)) eqn:E; [|exact H].
  apply truthy_true. exact E.
Qed.

Lemma or_str_nonempty o dflt : dflt <> [] -> or_str o dflt <> [].
Proof. intros H. destruct o as [[|c s]|]; simpl; congruence. Qed.

Lemma or_str_some_nonempty x dflt : x <> [] -> or_str (Some x) dflt = x.
Proof. destruct x; [congruence|reflexivity]. Qed.

Lemma or_str_some_empty x : or_str (Some x) [] = x.
Proof. destruct x; reflexivity. Qed.

Lemma edited_blank today a blank s :
  today <> [] -> blank_round blank ->
  edited today blank (edited today a s) = edited today a s.
Proof.
  intros Ht [Hs Hl].
  inversion Hs as [|? ? B1 Hs1]; subst. inversion Hs1 as [|? ? B2 Hs2]; subst.
  inversion Hs2 as [|? ? B3 Hs3]; subst. inversion Hs3 as [|? ? B4 Hs4]; subst.
  inversion Hs4 as [|? ? B5 Hs5]; subst. inversion Hs5 as [|? ? B6 Hs6]; subst.
  inversion Hs6 as [|? ? B7 _]; subst.
  inversion Hl as [|? ? L1 Hl1]; subst. inversion Hl1 as [|? ? L2 Hl2]; subst.
  inversion Hl2 as [|? ? L3 Hl3]; subst. inversion Hl3 as [|? ? L4 Hl4]; subst.
  inversion Hl4 as [|? ? L5 _]; subst.
  unfold edited at 1.
  rewrite L1, L2, L3, L4, L5.
  rewrite (pick_blank (a_titel blank)), (pick_blank (a_datum blank)),
    (pick_blank (a_startzeit blank)), (pick_blank (a_endzeit blank)),
    (pick_blank (a_ort blank)), (pick_blank (a_moderation blank)),
    (pick_blank (a_protokoll blank)) by assumption.
  cbn [entered]. unfold edited.
  cbn [titel datum ort startzeit endzeit moderation protokoll teilnehmer gaeste agenda
       ziele hinweise].
  assert (T : truthy (pick (a_titel a)
                        (if truthy (titel s) then titel s else py "Sitzungsprotokoll"))
              = true).
  { apply truthy_true, pick_nonempty.
    destruct (truthy (titel s)) eqn:E; [apply truthy_true; exact E|].
    vm_compute. discriminate. }
  rewrite T, or_str_some_nonempty by (apply pick_nonempty, or_str_nonempty, Ht).
  rewrite !or_str_some_empty. reflexivity.
Qed.

(** X26: asking again offers what was answered: after a declined round, a
    round of empty answers that is confirmed returns the record of the
    declined round (the date being known), so declining loses no answer. *)
Theorem collect_meeting_metadata_keeps_declined_answers (base_meta : loc) (w : world)
    (s : MeetingMetadata) (first again : answers) (rest : list str) :
  snapshot (heap w) base_meta = Some s ->
  stdin w = all_lines [first; again] rest ->
  now_date w <> [] ->
  entries_given first ->
  accepts first = false ->
  blank_round again ->
  accepts again = true ->
  exists meta w',
    collect_meeting_metadata base_meta w = (Ok meta, w')
    /\ snapshot (heap w') meta = Some (edited (now_date w) first s)
    /\ stdin w' = rest.
Proof.
  intros Hs Hi Ht He Hrej Hb Hacc.
  destruct (collect_meeting_metadata_run base_meta w s [first] again rest Hs Hi)
    as (meta & w' & E & _ & Hs' & Hi').
  - destruct Hb as [_ Hl].
    inversion Hl as [|? ? L1 Hl1]; subst. inversion Hl1 as [|? ? L2 Hl2]; subst.
    inversion Hl2 as [|? ? L3 Hl3]; subst. inversion Hl3 as [|? ? L4 Hl4]; subst.
    inversion Hl4 as [|? ? L5 _]; subst.
    apply List.Forall_cons; [exact He|]. apply List.Forall_cons; [|apply List.Forall_nil].
    unfold entries_given. rewrite L1, L2, L3, L4, L5. repeat constructor.
  - repeat constructor. exact Hrej.
  - exact Hacc.
  - exists meta, w'. split; [exact E|]. split; [|exact Hi'].
    rewrite Hs'. unfold edited_by. cbn [app fold_left].
    rewrite (edited_blank _ _ _ _ Ht Hb). reflexivity.
Qed.

Definition declined_answers : answers :=
  mkAnswers (py "Vorstand") [] (py "19:00") [] [] [] [] [py "Cem"] [] [] [] [] (py "n").

Definition blank_answers : answers :=
  mkAnswers [] [] [] [] [] [] [] [] [] [] [] [] (py "J").

Definition asking_twice_world : world :=
  mkWorld (heap example_world) (all_lines [declined_answers; blank_answers] []) [] [] []
          (py "2025-10-01") (py "2025-10-01 09:00") (obliging (Raw [])).

Lemma collect_meeting_metadata_keeps_declined_answers_witness :
  exists meta w',
    collect_meeting_metadata 2 asking_twice_world = (Ok meta, w')
    /\ snapshot (heap w') meta
       = Some (mkMeta (py "Vorstand") (Some (py "2025-10-01")) (Some []) (Some (py "19:00"))
                      (Some []) (Some []) (Some []) [py "Cem"] [] [] [] []).
Proof.
  destruct (collect_meeting_metadata_keeps_declined_answers 2 asking_twice_world
              example_caller_record declined_answers blank_answers [])
    as (meta & w' & E & Hs & _).
  - vm_compute. reflexivity.
  - reflexivity.
  - vm_compute. discriminate.
  - repeat constructor. vm_compute. discriminate.
  - vm_compute. reflexivity.
  - split; repeat constructor.
  - vm_compute. reflexivity.
  - exists meta, w'. split; [exact E|]. rewrite Hs. vm_compute. reflexivity.
Defined.

(** ** The layout of the document *)

(** The paragraphs a list takes in the front matter: none when it is empty,
    else a heading, one paragraph per item and an empty one. *)
Definition section_size (items : list str) : nat :=
  match items with [] => 0 | _ => length items + 2 end.

Lemma list_section_length heading style items :
  length (list_section heading style items) = section_size items.
Proof.
  destruct items as [|item items]; [reflexivity|].
  unfold list_section, section_size. rewrite !length_app, length_map. simpl. lia.
Qed.

Lemma docx_front_head meta :
  exists more,
    docx_front meta
    = mkPar [mkRun (if truthy (titel meta) then titel meta else py "Sitzungsprotokoll")
                   true (Some 20%N)] None (Some AlignCenter) :: more
    /\ length more
       = Nat.b2n (negb (bool_decide (to_docx_header_fields meta = []))) + 1
         + section_size (agenda meta) + section_size (ziele meta)
         + section_size (hinweise meta).
Proof.
  unfold docx_front. cbv zeta.
  destruct (to_docx_header_fields meta) as [|f fs]; simpl app;
    eexists; (split; [reflexivity|]);
    cbn [length]; rewrite ?length_app, ?list_section_length; cbn [length Nat.b2n negb];
    rewrite ?length_app, ?list_section_length; simpl; lia.
Qed.

(** X27: the layout of the document: it opens with the centred title in bold
    20pt (the title of the record, or "Sitzungsprotokoll" when that is empty)
    and closes with the right-aligned stamp of the time of writing; in
    between come the header line (when there is a field to show), an empty
    paragraph, a section for each non-empty list of agenda items, goals and
    notes (heading, one paragraph per item, an empty paragraph), one paragraph
    per line of the minutes, and an empty paragraph; participants and guests
    appear in the header line only. *)
Theorem docx_document_layout (text : str) (meta : MeetingMetadata) (stamp : str) :
  head (docx_document text meta stamp)
  = Some (mkPar [mkRun (if truthy (titel meta) then titel meta else py "Sitzungsprotokoll")
                       true (Some 20%N)] None (Some AlignCenter))
  /\ last (docx_document text meta stamp)
     = Some (mkPar [mkRun (py "Erstellt am " ++ stamp) false None] None (Some AlignRight))
  /\ length (docx_document text meta stamp)
     = 1 + Nat.b2n (negb (bool_decide (to_docx_header_fields meta = []))) + 1
       + section_size (agenda meta) + section_size (ziele meta)
       + section_size (hinweise meta)
       + length (split nl text) + 2.
Proof.
  unfold docx_document. destruct (docx_front_head meta) as (more & -> & Hlen).
  split; [reflexivity|]. split.
  - unfold docx_back. rewrite !app_assoc.
    change [add_paragraph [] None;
            mkPar (par_runs (add_paragraph (py "Erstellt am " ++ stamp) None)) None
                  (Some AlignRight)]
      with ([add_paragraph [] None]
            ++ [mkPar (par_runs (add_paragraph (py "Erstellt am " ++ stamp) None)) None
                      (Some AlignRight)]).
    rewrite app_assoc, last_snoc. reflexivity.
  - cbn [length app]. rewrite !length_app, length_map, Hlen. simpl. lia.
Qed.
